(** * kyverno-artifact-watcher: the reconciliation loop of [main.go]

    A shallow embedding of the watcher's version resolver, state store,
    puller set-up, document annotator and applier, followed by the
    properties of the specification that concern them.

    Go strings are byte sequences and are modelled by [string]; an [int] or
    [int64] is a [Z]; a Go [error] is an [option error] with [None] for
    [nil]; a [map[string]T] is a [gmap string T], wrapped in [option] where
    the code distinguishes the [nil] map.  The file system, the metadata API
    and the external apply tool form an explicit [World]; the registry
    transports and the YAML text codec of the libraries are parameters. *)

From Stdlib Require Import ZArith Ascii DecimalString.
From stdpp Require Import gmap strings list fin_maps.

Local Open Scope Z_scope.

(** ** Part I. The Go standard library functions the code calls *)

Module GoStr.

Definition byte (n : N) : ascii := ascii_of_N n.
Definition code (a : ascii) : N := N_of_ascii a.

Definition str1 (a : ascii) : string := String a EmptyString.

(** [unicode.IsSpace] on the UTF-8 encoding.  The White_Space code points
    are U+0009..U+000D, U+0020, U+0085, U+00A0, U+1680, U+2000..U+200A,
    U+2028, U+2029, U+202F, U+205F and U+3000. *)
Definition isSpace1 (a : ascii) : bool :=
  let c := code a in ((9 <=? c) && (c <=? 13))%N || (c =? 32)%N.

Definition isSpace2 (a b : ascii) : bool :=
  (code a =? 194)%N && ((code b =? 133)%N || (code b =? 160)%N).

Definition isSpace3 (a b c : ascii) : bool :=
  let x := code a in let y := code b in let z := code c in
  ((x =? 225) && (y =? 154) && (z =? 128))%N
  || ((x =? 226) && (y =? 128)
      && (((128 <=? z) && (z <=? 138)) || (z =? 168) || (z =? 169) || (z =? 175)))%N
  || ((x =? 226) && (y =? 129) && (z =? 159))%N
  || ((x =? 227) && (y =? 128) && (z =? 128))%N.

(** [strings.TrimLeftFunc(s, unicode.IsSpace)]: drop white-space runes from
    the front, one rune at a time. *)
Fixpoint trimLeftSpace (s : string) : string :=
  match s with
  | String a r1 =>
      if isSpace1 a then trimLeftSpace r1
      else match r1 with
           | String b r2 =>
               if isSpace2 a b then trimLeftSpace r2
               else match r2 with
                    | String c r3 =>
                        if isSpace3 a b c then trimLeftSpace r3 else s
                    | EmptyString => s
                    end
           | EmptyString => s
           end
  | EmptyString => s
  end.

(** The same scan on the reversed string, for [TrimRightFunc]: the last
    rune is a white-space rune exactly when its encoding is a suffix. *)
Fixpoint trimLeftSpaceRev (s : string) : string :=
  match s with
  | String a r1 =>
      if isSpace1 a then trimLeftSpaceRev r1
      else match r1 with
           | String b r2 =>
               if isSpace2 b a then trimLeftSpaceRev r2
               else match r2 with
                    | String c r3 =>
                        if isSpace3 c b a then trimLeftSpaceRev r3 else s
                    | EmptyString => s
                    end
           | EmptyString => s
           end
  | EmptyString => s
  end.

Definition trimRightSpace (s : string) : string :=
  String.rev (trimLeftSpaceRev (String.rev s)).

(** [strings.TrimSpace] *)
Definition TrimSpace (s : string) : string :=
  trimRightSpace (trimLeftSpace s).

(** [strings.Split(s, sep)] for a one-byte separator: the pieces between
    the separators, always at least one piece. *)
Fixpoint Split (s : string) (sep : ascii) : list string :=
  match s with
  | EmptyString => [EmptyString]
  | String a r =>
      if Ascii.eqb a sep then EmptyString :: Split r sep
      else match Split r sep with
           | p :: ps => String a p :: ps
           | [] => [str1 a]
           end
  end.

(** [strings.ReplaceAll(s, old, new)] for one-byte [old] and [new]. *)
Fixpoint ReplaceAll (s : string) (old new : ascii) : string :=
  match s with
  | EmptyString => EmptyString
  | String a r => String (if Ascii.eqb a old then new else a) (ReplaceAll r old new)
  end.

(** [strings.ToLower] restricted to what a comparison with the extensions
    [.yaml] and [.yml] can see: the letters A..Z.  (The non-ASCII runes that
    lower to an ASCII letter lower to k or to i.) *)
Definition lowerByte (a : ascii) : ascii :=
  let c := code a in
  if ((65 <=? c) && (c <=? 90))%N then byte (c + 32) else a.

Fixpoint ToLower (s : string) : string :=
  match s with
  | EmptyString => EmptyString
  | String a r => String (lowerByte a) (ToLower r)
  end.

(** [filepath.Ext]: the suffix that starts at the last dot of the last
    path element, empty when that element has no dot.  [extFrom] scans the
    reversed path and accumulates the bytes already passed. *)
Fixpoint extFrom (rev_path : string) (acc : string) : string :=
  match rev_path with
  | EmptyString => EmptyString
  | String a r =>
      if Ascii.eqb a "/" then EmptyString
      else if Ascii.eqb a "." then String a acc
      else extFrom r (String a acc)
  end.

Definition Ext (path : string) : string := extFrom (String.rev path) EmptyString.

(** [fmt.Sprintf("%d", n)] *)
Definition formatInt (n : Z) : string := NilZero.string_of_int (Z.to_int n).

(** *** [fmt.Sscanf(value, "%d", &intVal)] *)

(** The scanner's [SkipSpace] when newlines do not count as space, as in
    [Sscanf]: [None] is the "unexpected newline" error.  (A carriage
    return before a newline is skipped and the newline then fails, which
    the case for [isSpace1] already gives.) *)
Fixpoint SkipSpace (s : string) : option string :=
  match s with
  | EmptyString => Some s
  | String a r1 =>
      if Ascii.eqb a "010" then None
      else if isSpace1 a then SkipSpace r1
      else match r1 with
           | String b r2 =>
               if isSpace2 a b then SkipSpace r2
               else match r2 with
                    | String c r3 =>
                        if isSpace3 a b c then SkipSpace r3 else Some s
                    | EmptyString => Some s
                    end
           | EmptyString => Some s
           end
  end.

Definition isDigit (a : ascii) : bool := ((48 <=? code a) && (code a <=? 57))%N.
Definition isSign (a : ascii) : bool := Ascii.eqb a "+" || Ascii.eqb a "-".

(** [scanNumber] for the verb [d], whose digits are [0123456789] (the
    underscore belongs to the verb [v] only): the longest prefix of decimal
    digits, and the rest. *)
Fixpoint spanAccepted (s : string) : string * string :=
  match s with
  | String a r =>
      if isDigit a
      then let '(tok, rest) := spanAccepted r in (String a tok, rest)
      else (EmptyString, s)
  | EmptyString => (EmptyString, EmptyString)
  end.

(** The value of a string of decimal digits, [None] when another byte
    occurs. *)
Fixpoint digitsValue (acc : Z) (s : string) : option Z :=
  match s with
  | EmptyString => Some acc
  | String a r =>
      if isDigit a then digitsValue (10 * acc + (Z.of_N (code a) - 48)) r
      else None
  end.

Definition minInt64 : Z := - 2 ^ 63.
Definition maxInt64 : Z := 2 ^ 63 - 1.

(** [strconv.ParseInt(tok, 10, 64)] on a token that has at least one
    character after its optional sign. *)
Definition ParseInt (negative : bool) (digits : string) : option Z :=
  match digits with
  | EmptyString => None
  | _ =>
      match digitsValue 0 digits with
      | Some v =>
          let n := if negative then - v else v in
          if (minInt64 <=? n) && (n <=? maxInt64) then Some n else None
      | None => None
      end
  end.

(** [scanInt] for the verb [d] into an [int] of 64 bits: skip space, fail
    at the end of the input, accept one sign, then at least one decimal
    digit, and convert the token. What follows the token stays unread. *)
Definition SscanfInt (value : string) : option Z :=
  match SkipSpace value with
  | None => None
  | Some EmptyString => None
  | Some (String a r as s) =>
      let '(negative, body) :=
        if isSign a then (Ascii.eqb a "-", r) else (false, s) in
      let '(tok, _) := spanAccepted body in
      ParseInt negative tok
  end.

(** [s[:n]], the whole of [s] when it is shorter. *)
Fixpoint takeBytes (n : nat) (s : string) : string :=
  match n, s with
  | S n', String a r => String a (takeBytes n' r)
  | _, _ => EmptyString
  end.

(** Insertion sort by a Boolean order, for the places where Go sorts. *)
Fixpoint insertBy {A : Type} (le : A → A → bool) (x : A) (l : list A) : list A :=
  match l with
  | [] => [x]
  | y :: l' => if le x y then x :: l else y :: insertBy le x l'
  end.

Definition sortBy {A : Type} (le : A → A → bool) (l : list A) : list A :=
  foldr (insertBy le) [] l.

End GoStr.

Import GoStr.

(** *** [strconv.ParseFloat(s, 64)] and the shortest decimal of a [float64] *)

(** A number of a JSON text by its value: [±ndigits × 10^nexp], with
    [0 ≤ ndigits]. The sign is kept apart, since a zero has one. *)
Record Number : Type := { nneg : bool; ndigits : Z; nexp : Z }.

(** A finite [float64]: [±fmant × 2^fexp] with [0 ≤ fmant < 2^53] and
    [-1074 ≤ fexp ≤ 971]; a zero has the exponent -1074. *)
Record Float64 : Type := { fneg : bool; fmant : Z; fexp : Z }.

(** The fraction [n/d] that is [N/Q] divided by [2^e]. *)
Definition scaled2 (N Q e : Z) : Z * Z :=
  if 0 <=? e then (N, Q * 2 ^ e) else (N * 2 ^ (- e), Q).

(** The fraction [n/d] that is [N/Q] divided by [10^p]. *)
Definition scaled10 (N Q p : Z) : Z * Z :=
  if 0 <=? p then (N, Q * 10 ^ p) else (N * 10 ^ (- p), Q).

(** The integer nearest to [n/d], the even one of two that are equally
    near. *)
Definition roundHalfEven (n d : Z) : Z :=
  let q := n / d in
  let r := n mod d in
  if 2 * r <? d then q
  else if d <? 2 * r then q + 1
  else if Z.even q then q else q + 1.

(** The [float64] nearest to [N/Q] for positive [N] and [Q], [None] when
    that is beyond the largest [float64]. The exponent is the one that puts
    the mantissa between [2^52] and [2^53], and not below -1074. *)
Definition nearestFloat (neg : bool) (N Q : Z) : option Float64 :=
  let e1 := Z.log2 N - Z.log2 Q - 53 in
  let '(n1, d1) := scaled2 N Q e1 in
  let e := if 2 ^ 53 <=? n1 / d1 then e1 + 1 else e1 in
  let e := Z.max e (-1074) in
  let '(n, d) := scaled2 N Q e in
  let m := roundHalfEven n d in
  let '(m, e) := if m =? 2 ^ 53 then (2 ^ 52, e + 1) else (m, e) in
  if 971 <? e then None else Some {| fneg := neg; fmant := m; fexp := e |}.

(** [strconv.ParseFloat(s, 64)] by the value of [s]: the nearest [float64],
    and [None] for the range error. *)
Definition ParseFloat (x : Number) : option Float64 :=
  if ndigits x <=? 0 then Some {| fneg := nneg x; fmant := 0; fexp := -1074 |}
  else let '(N, Q) := scaled10 (ndigits x) 1 (- nexp x) in nearestFloat (nneg x) N Q.

(** The largest [p] with [10^p ≤ N/Q], from an estimate by the binary
    logarithms that is put right by comparing. *)
Definition floorLog10 (N Q : Z) : Z :=
  let guess := ((Z.log2 N - Z.log2 Q) * 30103) / 100000 in
  let below p := let '(n, d) := scaled10 N Q p in n <? d in
  if below (guess - 1) then guess - 2
  else if below guess then guess - 1
  else if below (guess + 1) then guess
  else if below (guess + 2) then guess + 1
  else guess + 2.

Fixpoint stripZeros (fuel : nat) (D E : Z) : Z * Z :=
  match fuel with
  | O => (D, E)
  | S fuel' =>
      if (D mod 10 =? 0) && negb (D =? 0) then stripZeros fuel' (D / 10) (E + 1) else (D, E)
  end.

(** The number [±D × 10^E] without zeros at the end of its digits. *)
Definition canonical (neg : bool) (D E : Z) : Number :=
  if D =? 0 then {| nneg := neg; ndigits := 0; nexp := 0 |}
  else let '(D', E') := stripZeros 20 D E in {| nneg := neg; ndigits := D'; nexp := E' |}.

Definition readsAs (x : Number) (f : Float64) : bool :=
  match ParseFloat x with
  | Some g => Bool.eqb (fneg g) (fneg f) && (fmant g =? fmant f) && (fexp g =? fexp f)
  | None => false
  end.

(** Of the two numbers of [k] digits next to [N/Q], the value of [f], the
    nearer one among those that read as [f]. *)
Definition shortestWith (f : Float64) (N Q : Z) (k : Z) : option Number :=
  let p := floorLog10 N Q - (k - 1) in
  let '(n, d) := scaled10 N Q p in
  let lo := n / d in
  let r := n mod d in
  let down := canonical (fneg f) lo p in
  let up := canonical (fneg f) (lo + 1) p in
  match readsAs down f, readsAs up f with
  | true, true =>
      Some (if 2 * r <? d then down else if d <? 2 * r then up
            else if Z.even lo then down else up)
  | true, false => Some down
  | false, true => Some up
  | false, false => None
  end.

Fixpoint shortestFrom (fuel : nat) (f : Float64) (N Q : Z) (k : Z) : option Number :=
  match fuel with
  | O => None
  | S fuel' =>
      match shortestWith f N Q k with
      | Some x => Some x
      | None => shortestFrom fuel' f N Q (k + 1)
      end
  end.

(** The number that [strconv.AppendFloat(b, f, fmt, -1, 64)] writes: the one
    with the fewest digits that reads as [f], and of those the nearest to
    [f]. No [float64] needs more than 17 digits. *)
Definition shortest (f : Float64) : option Number :=
  if fmant f =? 0 then Some {| nneg := fneg f; ndigits := 0; nexp := 0 |}
  else let '(N, Q) := scaled2 (fmant f) 1 (- fexp f) in shortestFrom 17 f N Q 1.

(** A number of the text after [json.Unmarshal] has stored it in an
    [interface{}], as a [float64], and [json.Marshal] has written that
    again. [None] is the error of [json.Unmarshal] for a number beyond the
    range. *)
Definition asFloat64 (x : Number) : option Number :=
  match ParseFloat x with
  | None => None
  | Some f => Some (default x (shortest f))
  end.

(** ** Part II. The data model of [main.go] *)

(** A Go [error] value: [Errorf] is an error made from a message, [Wrapf]
    one that wraps its cause with the verb [%w] at the end of the format
    [msg: %w], and [WrapIn] one whose format goes on after the verb. *)
Inductive error : Type :=
| Errorf (msg : string)
| Wrapf (msg : string) (cause : error)
| WrapIn (before : string) (cause : error) (after : string).

(** [err.Error()] *)
Fixpoint errorString (e : error) : string :=
  match e with
  | Errorf msg => msg
  | Wrapf msg cause => msg +:+ ": " +:+ errorString cause
  | WrapIn before cause after => before +:+ errorString cause +:+ after
  end.

Record Config : Type := {
  GithubToken : string;
  ImageBase : string;
  Owner : string;
  Package : string;
  PackageNormalized : string;
  PollInterval : Z;
  GithubAPIOwnerType : string;
  StateDir : string;
  LastFile : string;
  Provider : string;
  Username : string;
  Password : string
}.

(** [UpdatedAt] is the instant of the [time.Time] (nanoseconds since the
    epoch); [Tags] is [Metadata.Container.Tags], the empty list for [nil]. *)
Record GitHubPackageVersion : Type := {
  ID : Z;
  UpdatedAt : Z;
  Tags : list string
}.

(** What the metadata API answers to one request. [respMessage] is the
    [message] field that [json.Unmarshal] finds in the body (empty when there
    is none); [respVersions] is the array of versions it finds, [None] when
    the body is not such an array, and [respParseErr] is then the error of
    [json.Unmarshal]. *)
Record HttpResponse : Type := {
  StatusCode : Z;
  respBody : string;
  respMessage : string;
  respVersions : option (list GitHubPackageVersion);
  respParseErr : error
}.

Inductive HttpOutcome : Type :=
| RequestInvalid (e : error)       (* http.NewRequest fails *)
| TransportFailed (e : error)      (* client.Do fails *)
| BodyUnreadable (e : error)       (* io.ReadAll fails *)
| Responded (r : HttpResponse).

(** ** Part III. Version resolver *)

Definition time_After (t u : Z) : bool := u <? t.

(** The loop of [getLatestTagOrDigest] that finds the most recently updated
    version; [latest] starts as [versions[0]]. *)
Fixpoint mostRecent (latest : GitHubPackageVersion) (versions : list GitHubPackageVersion)
  : GitHubPackageVersion :=
  match versions with
  | [] => latest
  | v :: rest =>
      mostRecent (if time_After (UpdatedAt v) (UpdatedAt latest) then v else latest) rest
  end.

(** The part of [getLatestTagOrDigest] after the body has been parsed. *)
Definition latestOf (versions : list GitHubPackageVersion) : string :=
  match versions with
  | [] => ""
  | v0 :: _ =>
      let latest := mostRecent v0 versions in
      match Tags latest with
      | tag :: _ => tag
      | [] => "version-id-" +:+ formatInt (ID latest)
      end
  end.

Definition apiURL (config : Config) : string :=
  "https://api.github.com/" +:+ GithubAPIOwnerType config +:+ "/" +:+ Owner config
  +:+ "/packages/container/" +:+ PackageNormalized config +:+ "/versions".

Definition getLatestTagOrDigest
    (httpGet : string → string → HttpOutcome) (config : Config) : string * option error :=
  match httpGet (apiURL config) ("token " +:+ GithubToken config) with
  | RequestInvalid e => ("", Some (Wrapf "failed to create request" e))
  | TransportFailed e => ("", Some (Wrapf "failed to make API request" e))
  | BodyUnreadable e => ("", Some (Wrapf "failed to read response body" e))
  | Responded resp =>
      if negb (StatusCode resp =? 200) then
        if StatusCode resp =? 401 then
          ("", Some (Errorf "authentication failed (401): invalid or expired GITHUB_TOKEN"))
        else if StatusCode resp =? 403 then
          ("", Some (Errorf ("access forbidden (403): token may lack required permissions (read:packages). Message: "
                             +:+ respMessage resp)))
        else if StatusCode resp =? 404 then
          ("", Some (Errorf ("package not found (404): owner=" +:+ Owner config
                             +:+ ", package=" +:+ Package config
                             +:+ " (owner type: " +:+ GithubAPIOwnerType config
                             +:+ "). Verify package exists and token has access")))
        else
          ("", Some (Errorf ("GitHub API returned status " +:+ formatInt (StatusCode resp)
                             +:+ ": " +:+ respMessage resp)))
      else
        match respVersions resp with
        | None => ("", Some (WrapIn "failed to parse GitHub API response: "
                                    (respParseErr resp)
                                    (". Response body: " +:+ respBody resp)))
        | Some versions => (latestOf versions, None)
        end
  end.

(** ** Part IV. Configuration helpers *)

(** [getEnvFunc]: the environment, the empty string for an unset key. *)
Definition getEnvOrDefault (getEnvFunc : string → string) (key defaultValue : string) : string :=
  let value := getEnvFunc key in
  if negb (String.eqb value "") then value else defaultValue.

Definition getEnvAsIntOrDefault (getEnvFunc : string → string) (key : string) (defaultValue : Z) : Z :=
  let value := getEnvFunc key in
  if negb (String.eqb value "") then
    match SscanfInt value with
    | Some intVal => intVal
    | None => defaultValue
    end
  else defaultValue.

(** The poll interval as [loadConfig] computes it. *)
Definition loadPollInterval (getEnvFunc : string → string) : Z :=
  getEnvAsIntOrDefault getEnvFunc "POLL_INTERVAL" 30.

Definition sanitizePath (s : string) : string :=
  ReplaceAll (ReplaceAll s ":" "_") "/" "_".

(** ** Part V. The world outside the process *)

(** What an iteration does to the outside, in the order it does it. *)
Inductive Event : Type :=
| EvLog (msg : string)                 (* a line given to [log.Printf] or [log.Println] *)
| EvWriteFile (path data : string)     (* a call of [os.WriteFile] *)
| EvExec (cmdline : string)            (* a command line given to [script.Exec] *)
| EvPull (tag destDir : string)        (* a call of [pullImageToDirFunc] *)
| EvApply (dir : string).              (* a call of [applyManifestsFunc] *)

(** The file system holds regular files and directories by path, the paths
    taken as the program spells them. The paths in [locked] are those the
    operating system refuses to create, to remove or to overwrite, the
    directories in [unlistable] those it refuses to list, and [faulty] gives
    the paths at which a write breaks off, with the number of bytes that
    still reach the file. [httpGet] is the metadata API. [exited] tells of
    a command line whether the command has ended by the moment the program
    asks its pipe for the exit status, which is right after [script.Exec]
    has handed the command line to a goroutine of its own: [Some n] when it
    has ended with the exit status [n], [None] as long as it runs. *)
Record World : Type := {
  files : gmap string string;
  dirs : gset string;
  locked : gset string;
  unlistable : gset string;
  faulty : gmap string nat;
  httpGet : string → string → HttpOutcome;
  exited : string → option Z;
  trace : list Event
}.

Definition withFS (fs : gmap string string) (ds : gset string) (w : World) : World :=
  {| files := fs; dirs := ds; locked := locked w; unlistable := unlistable w;
     faulty := faulty w;
     httpGet := httpGet w; exited := exited w; trace := trace w |}.

Definition emit (e : Event) (w : World) : World :=
  {| files := files w; dirs := dirs w; locked := locked w; unlistable := unlistable w;
     faulty := faulty w;
     httpGet := httpGet w; exited := exited w; trace := trace w ++ [e] |}.

Definition logf (msg : string) (w : World) : World := emit (EvLog msg) w.

(** [p] is [root] or lies below it. *)
Definition isUnder (root p : string) : bool :=
  String.eqb p root || String.prefix (root +:+ "/") p.

Definition exists_at (w : World) (p : string) : bool :=
  bool_decide (is_Some (files w !! p)) || bool_decide (p ∈ dirs w).

(** [os.ReadFile] *)
Definition ReadFile (path : string) (w : World) : string * option error :=
  match files w !! path with
  | Some data => (data, None)
  | None => ("", Some (Errorf ("open " +:+ path +:+ ": no such file or directory")))
  end.

Fixpoint allSlashes (s : string) : bool :=
  match s with
  | EmptyString => true
  | String a r => Ascii.eqb a "/" && allSlashes r
  end.

(** The part of [path] before the last slash that a name follows, [None]
    when there is no such slash: the directory that holds [path]. *)
Fixpoint parentOf (path : string) : option string :=
  match path with
  | EmptyString => None
  | String a r =>
      match parentOf r with
      | Some p => Some (String a p)
      | None => if Ascii.eqb a "/" && negb (allSlashes r) then Some EmptyString else None
      end
  end.

(** The directory that holds [path] is there: the root and the working
    directory, which [parentOf] gives as the empty path, always are. *)
Definition parentMissing (path : string) (w : World) : bool :=
  let parent := default "" (parentOf path) in
  negb (String.eqb parent "") && negb (bool_decide (parent ∈ dirs w)).

(** [os.WriteFile] opens the file with [O_WRONLY|O_CREATE|O_TRUNC], writes
    and closes. When the file cannot be opened nothing changes. After that
    the old content is gone, and a write that breaks off leaves the bytes
    that were written. *)
Definition WriteFile (path data : string) (w : World) : option error * World :=
  let w := emit (EvWriteFile path data) w in
  if parentMissing path w then
    (Some (Errorf ("open " +:+ path +:+ ": no such file or directory")), w)
  else if bool_decide (path ∈ dirs w) then
    (Some (Errorf ("open " +:+ path +:+ ": is a directory")), w)
  else if bool_decide (path ∈ locked w) then
    (Some (Errorf ("open " +:+ path +:+ ": permission denied")), w)
  else
    match faulty w !! path with
    | Some n =>
        if bool_decide (n < String.length data)%nat then
          (Some (Errorf ("write " +:+ path +:+ ": no space left on device")),
           withFS (<[path := takeBytes n data]> (files w)) (dirs w) w)
        else (None, withFS (<[path := data]> (files w)) (dirs w) w)
    | None => (None, withFS (<[path := data]> (files w)) (dirs w) w)
    end.

(** What the file at [path] holds after [os.WriteFile(path, data)]: [None]
    when the file could not be opened, and is as it was. *)
Definition written (path data : string) (w : World) : option string :=
  if parentMissing path w || bool_decide (path ∈ dirs w) || bool_decide (path ∈ locked w)
  then None
  else match faulty w !! path with
       | Some n => if bool_decide (n < String.length data)%nat
                   then Some (takeBytes n data) else Some data
       | None => Some data
       end.

(** A locked path that exists at [d] or below it keeps [d] in place. *)
Definition heldBack (w : World) (d : string) : bool :=
  existsb (fun q => isUnder d q && exists_at w q) (elements (locked w)).

(** [os.RemoveAll]: removes [path] and everything below it that it can, and
    reports an error when something could not be removed. A path that does
    not exist is no error. *)
Definition RemoveAll (path : string) (w : World) : option error * World :=
  let fs := filter (fun kv => negb (isUnder path kv.1) || bool_decide (kv.1 ∈ locked w)) (files w) in
  let ds := filter (fun d => negb (isUnder path d) || heldBack w d) (dirs w) in
  (if heldBack w path
   then Some (Errorf ("unlinkat " +:+ path +:+ ": operation not permitted"))
   else None,
   withFS fs ds w).

(** [os.Mkdir]: makes one directory, in a directory that is there. *)
Definition Mkdir (path : string) (w : World) : option error * World :=
  if exists_at w path then
    (Some (Errorf ("mkdir " +:+ path +:+ ": file exists")), w)
  else if parentMissing path w then
    (Some (Errorf ("mkdir " +:+ path +:+ ": no such file or directory")), w)
  else if bool_decide (path ∈ locked w) then
    (Some (Errorf ("mkdir " +:+ path +:+ ": permission denied")), w)
  else (None, withFS (files w) ({[path]} ∪ dirs w) w).

(** [os.MkdirAll]: nothing to do when [path] is a directory, an error when
    it is a regular file; otherwise the directory that holds it is made
    first, in the same way, and then [path] itself. [fuel] bounds the
    recursion, which the length of the path does. *)
Fixpoint mkdirAll (fuel : nat) (path : string) (w : World) : option error * World :=
  if bool_decide (path ∈ dirs w) then (None, w)
  else if bool_decide (is_Some (files w !! path)) then
    (Some (Errorf ("mkdir " +:+ path +:+ ": not a directory")), w)
  else
    let parent := default "" (parentOf path) in
    let '(err, w) :=
      match fuel with
      | S fuel' => if String.eqb parent "" then (None, w) else mkdirAll fuel' parent w
      | O => (None, w)
      end in
    match err with
    | Some e => (Some e, w)
    | None => Mkdir path w
    end.

Definition MkdirAll (path : string) (w : World) : option error * World :=
  mkdirAll (String.length path) path w.

(** The second world is the first with directories made, and nothing else
    changed. *)
Definition onlyDirsAdded (w w' : World) : Prop :=
  files w' = files w ∧ locked w' = locked w ∧ unlistable w' = unlistable w
  ∧ faulty w' = faulty w ∧ httpGet w' = httpGet w ∧ exited w' = exited w
  ∧ trace w' = trace w ∧ dirs w ⊆ dirs w'.

(** *** [filepath.Walk] *)

Record Visit : Type := {
  vPath : string;
  vIsDir : bool;
  vErr : option error
}.

Fixpoint componentsLe (a b : list string) : bool :=
  match a, b with
  | [], _ => true
  | _ :: _, [] => false
  | x :: a', y :: b' =>
      match String.compare x y with
      | Lt => true
      | Gt => false
      | Eq => componentsLe a' b'
      end
  end.

(** The lexical order in which [Walk] reaches paths: a directory before its
    entries, the entries of one directory by name. *)
Definition pathLe (p q : string) : bool := componentsLe (Split p "/") (Split q "/").

Definition sortPaths (l : list string) : list string := sortBy pathLe l.

(** [p] lies strictly below a directory that cannot be listed. *)
Definition hidden (w : World) (p : string) : bool :=
  existsb (fun d => isUnder d p && negb (String.eqb p d) && bool_decide (d ∈ dirs w))
          (elements (unlistable w)).

(** The call for one path: a directory is listed before the function is
    called, and the error of the listing is handed to the function. *)
Definition visitOf (w : World) (p : string) : Visit :=
  if bool_decide (p ∈ dirs w) then
    {| vPath := p; vIsDir := true;
       vErr := if bool_decide (p ∈ unlistable w)
               then Some (Errorf ("open " +:+ p +:+ ": permission denied"))
               else None |}
  else {| vPath := p; vIsDir := false; vErr := None |}.

(** The calls that [filepath.Walk(root, fn)] makes as long as [fn] returns
    [nil]. A root that does not exist is visited once, with the error. *)
Definition walkVisits (root : string) (w : World) : list Visit :=
  if exists_at w root then
    let paths := (map_to_list (files w)).*1 ++ elements (dirs w) in
    let reached := List.filter (fun p => isUnder root p && negb (hidden w p)) paths in
    visitOf w <$> sortPaths reached
  else
    [{| vPath := root; vIsDir := false;
        vErr := Some (Errorf ("lstat " +:+ root +:+ ": no such file or directory")) |}].

(** [Walk] stops at the first error that the function returns. *)
Fixpoint walkWith {A : Type} (fn : Visit → A → A * option error)
    (visits : list Visit) (acc : A) : A * option error :=
  match visits with
  | [] => (acc, None)
  | v :: rest =>
      match fn v acc with
      | (acc', None) => walkWith fn rest acc'
      | (acc', Some e) => (acc', Some e)
      end
  end.

Definition isYAMLExt (path : string) : bool :=
  let ext := ToLower (Ext path) in
  String.eqb ext ".yaml" || String.eqb ext ".yml".

(** The function that [findYAMLFiles] hands to [filepath.Walk]. *)
Definition collectYAML (v : Visit) (found : list string) : list string * option error :=
  match vErr v with
  | Some err => (found, Some err)
  | None =>
      if negb (vIsDir v) then
        if isYAMLExt (vPath v) then (found ++ [vPath v], None) else (found, None)
      else (found, None)
  end.

Definition findYAMLFiles (dir : string) (w : World) : list string * option error :=
  walkWith collectYAML (walkVisits dir w) [].

(** ** Part VI. Structured documents *)

(** A document as the tree that [sigs.k8s.io/yaml] converts the YAML text to
    before [encoding/json] decodes it, and that it converts back to YAML
    text after [encoding/json] has encoded it. A number is the number that
    the text denotes. A Go [interface{}] after decoding holds such a tree
    in which every number is a [float64]. *)
#[warnings="-register-all"]
Inductive value : Type :=
| VNull
| VBool (b : bool)
| VNum (number : Number)
| VStr (s : string)
| VArr (items : list value)
| VObj (members : gmap string value).

(** The depth of the nesting of arrays and objects. *)
Fixpoint depth (v : value) : nat :=
  match v with
  | VArr items => S (max_list (depth <$> items))
  | VObj m => S (max_list ((map_to_list (depth <$> m)).*2))
  | _ => O
  end.

Record ManifestMetadata : Type := {
  Name : string;
  Namespace : string;
  Labels : option (gmap string string)     (* [None] is the nil map *)
}.

Record Manifest : Type := {
  APIVersion : string;
  Kind : string;
  Metadata : ManifestMetadata;
  Spec : option (gmap string value)        (* [None] is the nil map *)
}.

Definition zeroMetadata : ManifestMetadata :=
  {| Name := ""; Namespace := ""; Labels := None |}.
Definition zeroManifest : Manifest :=
  {| APIVersion := ""; Kind := ""; Metadata := zeroMetadata; Spec := None |}.

(** *** Decoding: [json.Unmarshal] into the struct *)

Definition upperByte (a : ascii) : ascii :=
  let c := code a in
  if ((97 <=? c) && (c <=? 122))%N then byte (c - 32) else a.

(** The folding under which [encoding/json] compares a key with a field
    name: ASCII letters to upper case, and the two other runes that fold to
    an ASCII letter, U+017F to S and U+212A to K. *)
Fixpoint foldName (s : string) : string :=
  match s with
  | EmptyString => EmptyString
  | String a r1 =>
      match r1 with
      | String b r2 =>
          if ((code a =? 197) && (code b =? 191))%N then String "S" (foldName r2)
          else match r2 with
               | String c r3 =>
                   if ((code a =? 226) && (code b =? 132) && (code c =? 170))%N
                   then String "K" (foldName r3)
                   else String (upperByte a) (foldName r1)
               | EmptyString => String (upperByte a) (foldName r1)
               end
      | EmptyString => String (upperByte a) EmptyString
      end
  end.

(** The field for a key: the one with exactly that name, and otherwise the
    first one whose name folds to the same string. *)
Definition fieldFor {F : Type} (tags : list (string * F)) (key : string) : option F :=
  match List.find (fun t => String.eqb t.1 key) tags with
  | Some t => Some t.2
  | None =>
      match List.find (fun t => String.eqb (foldName t.1) (foldName key)) tags with
      | Some t => Some t.2
      | None => None
      end
  end.

Definition keyLe {A : Type} (x y : string * A) : bool := String.leb x.1 y.1.

(** The members of an object in the order of the JSON text, which has the
    keys sorted. *)
Definition membersInOrder (m : gmap string value) : list (string * value) :=
  sortBy keyLe (map_to_list m).

(** Decoding an object into a struct: each member in turn is stored in the
    field its key selects; a key that selects no field is skipped. [None] is
    the decoder's error. *)
Definition decodeStruct {S F : Type} (tags : list (string * F))
    (store : F → value → S → option S) (m : gmap string value) (s : S) : option S :=
  foldl (fun acc kv =>
           s ← acc;
           match fieldFor tags kv.1 with
           | Some f => store f kv.2 s
           | None => Some s
           end)
        (Some s) (membersInOrder m).

(** A [string] field: a JSON string is stored, [null] leaves the field as it
    is, anything else is a type error. *)
Definition decodeString (v : value) (old : string) : option string :=
  match v with
  | VStr s => Some s
  | VNull => Some old
  | _ => None
  end.

(** An element of a [map[string]string]. *)
Definition decodeElem (v : value) : option string :=
  match v with
  | VStr s => Some s
  | VNull => Some ""
  | _ => None
  end.

(** A [map[string]string] field: the members are added to the map that is
    there, [null] makes the map nil. *)
Definition decodeStringMap (v : value) (old : option (gmap string string))
  : option (option (gmap string string)) :=
  match v with
  | VNull => Some None
  | VObj m =>
      if bool_decide (map_Forall (fun _ x => is_Some (decodeElem x)) m)
      then Some (Some (omap decodeElem m ∪ default ∅ old))
      else None
  | _ => None
  end.

(** The map of the values, when every member has one. *)
Definition allSome {A : Type} (m : gmap string (option A)) : option (gmap string A) :=
  if bool_decide (map_Forall (fun _ o => is_Some o) m) then Some (omap id m) else None.

(** A value of the text as [json.Unmarshal] stores it in an [interface{}]
    and [json.Marshal] writes it again: a number has become a [float64],
    an array a slice and an object a map of such values. [None] is the
    error for a number beyond the range. *)
Fixpoint asInterface (v : value) : option value :=
  match v with
  | VNum x => VNum <$> asFloat64 x
  | VArr items => VArr <$> mapM asInterface items
  | VObj m => VObj <$> allSome (asInterface <$> m)
  | _ => Some v
  end.

Definition asInterfaceMap (m : gmap string value) : option (gmap string value) :=
  allSome (asInterface <$> m).

(** A [map[string]interface{}] field: every member is stored as an
    [interface{}] in the map that is there, [null] makes the map nil. *)
Definition decodeAnyMap (v : value) (old : option (gmap string value))
  : option (option (gmap string value)) :=
  match v with
  | VNull => Some None
  | VObj m => m' ← asInterfaceMap m; Some (Some (m' ∪ default ∅ old))
  | _ => None
  end.

Inductive MetadataField : Type := FName | FNamespace | FLabels.
Inductive ManifestField : Type := FAPIVersion | FKind | FMetadata | FSpec.

(** The [json] tags of the two structs. *)
Definition metadataTags : list (string * MetadataField) :=
  [("name", FName); ("namespace", FNamespace); ("labels", FLabels)].
Definition manifestTags : list (string * ManifestField) :=
  [("apiVersion", FAPIVersion); ("kind", FKind); ("metadata", FMetadata); ("spec", FSpec)].

Definition storeMetadata (f : MetadataField) (v : value) (md : ManifestMetadata)
  : option ManifestMetadata :=
  match f with
  | FName => s ← decodeString v (Name md);
             Some {| Name := s; Namespace := Namespace md; Labels := Labels md |}
  | FNamespace => s ← decodeString v (Namespace md);
                  Some {| Name := Name md; Namespace := s; Labels := Labels md |}
  | FLabels => l ← decodeStringMap v (Labels md);
               Some {| Name := Name md; Namespace := Namespace md; Labels := l |}
  end.

Definition decodeMetadata (v : value) (md : ManifestMetadata) : option ManifestMetadata :=
  match v with
  | VNull => Some md
  | VObj m => decodeStruct metadataTags storeMetadata m md
  | _ => None
  end.

Definition storeManifest (f : ManifestField) (v : value) (mf : Manifest) : option Manifest :=
  match f with
  | FAPIVersion => s ← decodeString v (APIVersion mf);
      Some {| APIVersion := s; Kind := Kind mf; Metadata := Metadata mf; Spec := Spec mf |}
  | FKind => s ← decodeString v (Kind mf);
      Some {| APIVersion := APIVersion mf; Kind := s; Metadata := Metadata mf; Spec := Spec mf |}
  | FMetadata => md ← decodeMetadata v (Metadata mf);
      Some {| APIVersion := APIVersion mf; Kind := Kind mf; Metadata := md; Spec := Spec mf |}
  | FSpec => sp ← decodeAnyMap v (Spec mf);
      Some {| APIVersion := APIVersion mf; Kind := Kind mf; Metadata := Metadata mf; Spec := sp |}
  end.

(** [json.Unmarshal(doc, &manifest)] on a zero [manifest]. *)
Definition decodeManifest (doc : value) : option Manifest :=
  match doc with
  | VNull => Some zeroManifest
  | VObj m => decodeStruct manifestTags storeManifest m zeroManifest
  | _ => None
  end.

(** *** Encoding: [json.Marshal] of the struct *)

Definition isEmptyMap {A : Type} (m : option (gmap string A)) : bool :=
  match m with
  | None => true
  | Some m => bool_decide (m = ∅)
  end.

(** A member that carries [omitempty] is left out when [empty] holds. *)
Definition member (key : string) (v : value) (empty : bool) (m : gmap string value)
  : gmap string value :=
  if empty then m else <[key := v]> m.

Definition encodeMetadata (md : ManifestMetadata) : value :=
  VObj (member "name" (VStr (Name md)) false
       (member "namespace" (VStr (Namespace md)) (String.eqb (Namespace md) "")
       (member "labels" (VObj (VStr <$> default ∅ (Labels md))) (isEmptyMap (Labels md))
        ∅))).

Definition encodeManifest (mf : Manifest) : value :=
  VObj (member "apiVersion" (VStr (APIVersion mf)) false
       (member "kind" (VStr (Kind mf)) false
       (member "metadata" (encodeMetadata (Metadata mf)) false
       (member "spec" (VObj (default ∅ (Spec mf))) (isEmptyMap (Spec mf))
        ∅)))).

(** *** The annotator *)

(** Lines 487 to 494 of [addLabelsToYAML]: make the label map if it is nil
    and set the two labels. *)
Definition setLabels (mf : Manifest) (tag : string) : Manifest :=
  let labels := default ∅ (Labels (Metadata mf)) in
  let labels := <["managed-by" := "kyverno-watcher"]> labels in
  let labels := <["policy-version" := tag]> labels in
  {| APIVersion := APIVersion mf; Kind := Kind mf;
     Metadata := {| Name := Name (Metadata mf); Namespace := Namespace (Metadata mf);
                    Labels := Some labels |};
     Spec := Spec mf |}.

(** [addLabelsToYAML] between the reading and the writing of the YAML
    text: decode, set the labels, encode. [None] is the error of
    [yaml.Unmarshal]; [json.Marshal] of a decoded manifest does not fail. *)
Definition annotate (doc : value) (tag : string) : option value :=
  mf ← decodeManifest doc;
  Some (encodeManifest (setLabels mf tag)).

(** The two directions of the YAML library between text and tree. *)
Record YAMLCodec : Type := {
  yamlToJSON : string → option value;
  jsonToYAML : value → string
}.

Definition addLabelsToYAML (codec : YAMLCodec) (yamlData : string) (tag : string)
  : string * option error :=
  match yamlToJSON codec yamlData ≫= (fun doc => annotate doc tag) with
  | None => ("", Some (Wrapf "unmarshaling YAML" (Errorf "cannot unmarshal")))
  | Some out => (jsonToYAML codec out, None)
  end.

(** ** Part VII. Puller, annotator and applier on the world *)

(** The functions that [main.go] keeps in variables so that tests can
    replace them. *)
Record Hooks : Type := {
  pullImageToDirFunc : Config → string → string → World → option error * World;
  applyManifestsFunc : Config → string → World → option error * World
}.

(** The two registry transports, which belong to the client libraries:
    [orasPullFunc config destDir] and [pullOCI imageRef outputDir]. *)
Record Transports : Type := {
  orasPullFunc : Config → string → World → option error * World;
  pullOCI : string → string → World → option error * World
}.

Definition addLabelsToManifest (codec : YAMLCodec) (filePath tag : string) (w : World)
  : option error * World :=
  match ReadFile filePath w with
  | (_, Some err) => (Some (Wrapf "reading file" err), w)
  | (data, None) =>
      match addLabelsToYAML codec data tag with
      | (_, Some err) => (Some (Wrapf "adding labels" err), w)
      | (updatedData, None) =>
          match WriteFile filePath updatedData w with
          | (Some err, w) => (Some (Wrapf "writing file" err), w)
          | (None, w) => (None, w)
          end
      end
  end.

(** Lines 348 to 353 of [pullImageToDirReal]: a failure of [os.RemoveAll]
    is logged as a warning, a failure of [os.MkdirAll] is returned. *)
Definition prepareDestDir (destDir : string) (w : World) : option error * World :=
  let '(err, w) := RemoveAll destDir w in
  let w := match err with
           | Some e => logf ("Warning: failed to remove directory " +:+ destDir +:+ ": "
                             +:+ errorString e) w
           | None => w
           end in
  MkdirAll destDir w.

(** The loop over the files of [pullImageToDirReal]: a file whose labels
    cannot be added is logged and skipped. *)
Definition labelOne (codec : YAMLCodec) (tag : string) (w : World) (file : string) : World :=
  match addLabelsToManifest codec file tag w with
  | (Some e, w) => logf ("Warning: failed to add labels to " +:+ file +:+ ": "
                         +:+ errorString e) w
  | (None, w) => w
  end.

(** [pullImageToDirReal] from line 355 on: the transport for the provider,
    then the labels. *)
Definition fetchAndLabel (codec : YAMLCodec) (net : Transports)
    (config : Config) (tag destDir : string) (w : World) : option error * World :=
  let '(err, w) :=
    if String.eqb (Provider config) "artifactory" then
      let w := logf ("Pulling image " +:+ ImageBase config +:+ " into " +:+ destDir
                     +:+ " using oras...") w in
      match orasPullFunc net config destDir w with
      | (Some err, w) => (Some (Wrapf "oras pull failed" err), w)
      | (None, w) => (None, w)
      end
    else
      let w := logf ("Pulling image " +:+ ImageBase config +:+ ":" +:+ tag +:+ " into "
                     +:+ destDir +:+ " ...") w in
      match pullOCI net (ImageBase config +:+ ":" +:+ tag) destDir w with
      | (Some err, w) => (Some (Wrapf "OCI pull failed" err), w)
      | (None, w) => (None, w)
      end in
  match err with
  | Some err => (Some err, w)
  | None =>
      match findYAMLFiles destDir w with
      | (_, Some err) => (Some err, w)
      | (found, None) => (None, foldl (labelOne codec tag) w found)
      end
  end.

Definition pullImageToDirReal (codec : YAMLCodec) (net : Transports)
    (config : Config) (tag destDir : string) (w : World) : option error * World :=
  match prepareDestDir destDir w with
  | (Some err, w) => (Some err, w)
  | (None, w) => fetchAndLabel codec net config tag destDir w
  end.

(** [fmt.Sprintf("kubectl apply -f %s", file)] *)
Definition kubectlApply (file : string) : string := "kubectl apply -f " +:+ file.

(** *** [script.Exec] *)

(** [script.Exec] does not run the command line through a shell: a
    goroutine splits it into words with [shell.Fields] and starts the first
    word as a program with the others as its arguments. The bytes of a
    plain word: letters, digits and the marks that mean nothing to
    [shell.Fields]. *)
Definition plainByte (a : ascii) : bool :=
  let c := code a in
  ((65 <=? c) && (c <=? 90) || (97 <=? c) && (c <=? 122) || (48 <=? c) && (c <=? 57))%N
  || Ascii.eqb a "/" || Ascii.eqb a "." || Ascii.eqb a "-" || Ascii.eqb a "_"
  || Ascii.eqb a ":".

Definition isBlank (a : ascii) : bool := Ascii.eqb a " " || Ascii.eqb a "009".

Definition startsWord (s : string) : bool :=
  match s with
  | EmptyString => false
  | String a _ => negb (isBlank a)
  end.

(** [shell.Fields] on a line of plain words with spaces and tabs between
    them: the words. A line with another byte in it is left to the quoting
    and expansion rules of the library, which are not modelled: [None]. *)
Fixpoint Fields (s : string) : option (list string) :=
  match s with
  | EmptyString => Some []
  | String a r =>
      if isBlank a then Fields r
      else if plainByte a then
        match Fields r with
        | Some (word :: words) =>
            if startsWord r then Some (String a word :: words)
            else Some (String a EmptyString :: word :: words)
        | Some [] => Some [String a EmptyString]
        | None => None
        end
      else None
  end.

(** [script.Exec(cmdLine)] returns the pipe once the goroutine that runs
    the command is started. *)
Definition Exec (cmdLine : string) (w : World) : World := emit (EvExec cmdLine) w.

(** [p.ExitStatus()] on the pipe of [cmdLine]: the number in the error of
    the pipe when that reads [exit status N], and 0 when the pipe has no
    error, as is the case while the command runs. *)
Definition ExitStatus (cmdLine : string) (w : World) : Z := default 0 (exited w cmdLine).

(** The body of the loop of [applyManifestsReal]. [ExitStatus] is asked of
    the pipe in the statement after [script.Exec], without waiting for the
    command. *)
Definition applyOne (w : World) (file : string) : World :=
  let w := logf (kubectlApply file) w in
  let w := Exec (kubectlApply file) w in
  let exitCode := ExitStatus (kubectlApply file) w in
  if negb (exitCode =? 0) then
    logf ("kubectl apply failed for " +:+ file +:+ " with exit code " +:+ formatInt exitCode) w
  else w.

Definition applyManifestsReal (config : Config) (dir : string) (w : World)
  : option error * World :=
  match findYAMLFiles dir w with
  | (_, Some err) => (Some err, w)
  | (found, None) =>
      if (length found =? 0)%nat then
        (None, logf ("No YAML manifests found in " +:+ dir) w)
      else
        let w := logf ("Applying manifests in " +:+ dir +:+ " ...") w in
        (None, foldl applyOne w found)
  end.

(** The hooks as [main.go] initialises them. *)
Definition realHooks (codec : YAMLCodec) (net : Transports) : Hooks :=
  {| pullImageToDirFunc := pullImageToDirReal codec net;
     applyManifestsFunc := applyManifestsReal |}.

(** ** Part VIII. The reconciliation loop *)

(** How the first part of [watchLoop] ends: with an error, with nothing to
    do, or with the version to compare. *)
Inductive Resolution : Type :=
| ResolveFailed (err : error)
| NoVersions
| Resolved (latest : string).

(** Lines 223 to 241 of [watchLoop]. *)
Definition resolveVersion (config : Config) (w : World) : Resolution :=
  if String.eqb (Provider config) "github" then
    match getLatestTagOrDigest (httpGet w) config with
    | (_, Some err) => ResolveFailed (Wrapf "could not determine latest tag/digest" err)
    | (latest, None) =>
        if String.eqb latest "" then NoVersions else Resolved latest
    end
  else
    let parts := Split (ImageBase config) ":" in
    if (length parts <? 2)%nat then
      ResolveFailed (Errorf "IMAGE_BASE for artifactory must include a tag (e.g., registry/path:tag)")
    else Resolved (List.last parts "").

Definition destDirFor (latest : string) : string := "/tmp/image-" +:+ sanitizePath latest.

(** The call of [pullImageToDirFunc] on line 251, after the log line of
    line 247. *)
Definition pullStep (hooks : Hooks) (config : Config) (latest prevTag : string) (w : World)
  : option error * World :=
  let w := logf ("Detected change: previous='" +:+ prevTag +:+ "' new='" +:+ latest +:+ "'") w in
  pullImageToDirFunc hooks config latest (destDirFor latest)
    (emit (EvPull latest (destDirFor latest)) w).

(** The call of [applyManifestsFunc] on line 255. *)
Definition applyStep (hooks : Hooks) (config : Config) (latest : string) (w : World)
  : option error * World :=
  applyManifestsFunc hooks config (destDirFor latest) (emit (EvApply (destDirFor latest)) w).

(** Lines 247 to 261 of [watchLoop], the branch for a changed version. *)
Definition applyChange (hooks : Hooks) (config : Config) (latest prevTag : string) (w : World)
  : option error * World :=
  match pullStep hooks config latest prevTag w with
  | (Some err, w) => (Some (Wrapf "pull failed" err), w)
  | (None, w) =>
      match applyStep hooks config latest w with
      | (Some err, w) => (Some (Wrapf "apply manifests failed" err), w)
      | (None, w) =>
          match WriteFile (LastFile config) latest w with
          | (Some err, w) => (Some (Wrapf "failed to write last file" err), w)
          | (None, w) => (None, w)
          end
      end
  end.

(** Lines 243 and 244 of [watchLoop]: the marker as it is compared. An
    error of [os.ReadFile] is dropped and leaves the empty string. *)
Definition readPrevTag (config : Config) (w : World) : string :=
  let '(prev, _) := ReadFile (LastFile config) w in
  TrimSpace prev.

(** Lines 243 to 266 of [watchLoop]. *)
Definition reconcile (hooks : Hooks) (config : Config) (latest : string) (w : World)
  : option error * World :=
  let prevTag := readPrevTag config w in
  if negb (String.eqb latest prevTag) then applyChange hooks config latest prevTag w
  else (None, logf ("No change (latest=" +:+ latest +:+ ")") w).

Definition watchLoop (hooks : Hooks) (config : Config) (w : World) : option error * World :=
  match resolveVersion config w with
  | ResolveFailed err => (Some err, w)
  | NoVersions => (None, logf "No versions found for package" w)
  | Resolved latest => reconcile hooks config latest w
  end.

(** [n] rounds of the loop of [main]: an error is logged and the next round
    follows. *)
Fixpoint mainLoop (n : nat) (hooks : Hooks) (config : Config) (w : World) : World :=
  match n with
  | O => w
  | S n' =>
      let w := match watchLoop hooks config w with
               | (Some e, w) => logf ("Error in watch loop: " +:+ errorString e) w
               | (None, w) => w
               end in
      mainLoop n' hooks config w
  end.

(** ** Part IX. Notions of the specification, and sample data *)

(** The version that a resolved identifier is made from. *)
Definition identifierOf (v : GitHubPackageVersion) : string :=
  match Tags v with
  | tag :: _ => tag
  | [] => "version-id-" +:+ formatInt (ID v)
  end.

(** [v] is at index [i] of [vs], no entry is newer, and every entry
    before it is strictly older. *)
Definition firstNewest (vs : list GitHubPackageVersion) (i : nat) (v : GitHubPackageVersion) : Prop :=
  vs !! i = Some v
  ∧ (∀ j u, vs !! j = Some u → UpdatedAt u <= UpdatedAt v)
  ∧ (∀ j u, (j < i)%nat → vs !! j = Some u → UpdatedAt u < UpdatedAt v).

Definition sampleVersions : list GitHubPackageVersion :=
  [ {| ID := 11; UpdatedAt := 100; Tags := ["v1.0.0"] |};
    {| ID := 12; UpdatedAt := 300; Tags := [] |};
    {| ID := 13; UpdatedAt := 300; Tags := ["v1.2.0"; "latest"] |};
    {| ID := 14; UpdatedAt := 200; Tags := ["v1.1.0"] |} ].

Definition sampleAPI (_ _ : string) : HttpOutcome :=
  Responded {| StatusCode := 200; respBody := "[...]"; respMessage := "";
               respVersions := Some sampleVersions;
               respParseErr := Errorf "" |}.

Definition sampleConfig : Config :=
  {| GithubToken := "ghp_x"; ImageBase := "ghcr.io/octokode/policies";
     Owner := "octokode"; Package := "policies"; PackageNormalized := "policies";
     PollInterval := 30; GithubAPIOwnerType := "users";
     StateDir := "/tmp/kyverno-watcher"; LastFile := "/tmp/kyverno-watcher/last_seen";
     Provider := "github"; Username := ""; Password := "" |}.





(** Some byte of the string is a decimal digit. *)
Fixpoint hasDigit (s : string) : bool :=
  match s with
  | EmptyString => false
  | String a r => isDigit a || hasDigit r
  end.

(** An environment in which only the poll interval is set. *)
Definition envWithInterval (value : string) (key : string) : string :=
  if String.eqb key "POLL_INTERVAL" then value else "".


(** The command lines that a trace gives to [script.Exec], in order. *)
Definition execsOf (evs : list Event) : list string :=
  omap (fun e => match e with EvExec cmd => Some cmd | _ => None end) evs.

(** The same file system: files, directories and what the operating system
    refuses. *)
Definition sameFS (w1 w2 : World) : Prop :=
  files w1 = files w2 ∧ dirs w1 = dirs w2
  ∧ locked w1 = locked w2 ∧ unlistable w1 = unlistable w2.

(** The destination directory as the specification words it: whenever the
    set-up lets the pull proceed, nothing is left below the directory. *)
Definition recreatedEmpty (destDir : string) (w : World) : Prop :=
  ∀ w2, prepareDestDir destDir w = (None, w2) →
    ∀ p, isUnder destDir p = true → p ≠ destDir →
      files w2 !! p = None ∧ p ∉ dirs w2.

Definition quietWorld (fs : gmap string string) (ds lk : gset string) : World :=
  {| files := fs; dirs := ds; locked := lk; unlistable := ∅; faulty := ∅;
     httpGet := fun _ _ => TransportFailed (Errorf "no network");
     exited := fun _ => None; trace := [] |}.

(** A destination directory that an earlier attempt left behind, with a
    file that the operating system does not let the process remove. *)
Definition staleLockedWorld : World :=
  quietWorld {[ "/tmp/image-v1/stale.yaml" := "old" ]}
             {[ "/tmp"; "/tmp/image-v1" ]}
             {[ "/tmp/image-v1/stale.yaml" ]}.

(** The same directory when the file can be removed. *)
Definition staleWorld : World :=
  quietWorld {[ "/tmp/image-v1/stale.yaml" := "old" ]}
             {[ "/tmp"; "/tmp/image-v1" ]}
             ∅.

(** The labels and the payload of a manifest as mappings: a nil map has no
    members. *)
Definition labelsOf (mf : Manifest) : gmap string string := default ∅ (Labels (Metadata mf)).
Definition specOf (mf : Manifest) : gmap string value := default ∅ (Spec mf).

Definition membersOf (doc : value) : gmap string value :=
  match doc with
  | VObj m => m
  | _ => ∅
  end.

(** What decoding an encoded manifest gives back: an empty map was left out
    of the text and is nil afterwards. *)
Definition reread (mf : Manifest) : Manifest :=
  {| APIVersion := APIVersion mf; Kind := Kind mf;
     Metadata := {| Name := Name (Metadata mf); Namespace := Namespace (Metadata mf);
                    Labels := if isEmptyMap (Labels (Metadata mf)) then None
                              else Labels (Metadata mf) |};
     Spec := if isEmptyMap (Spec mf) then None else Spec mf |}.

(** The payload of the manifest goes through [interface{}] unchanged: its
    numbers are [float64] numbers. *)
Definition stablePayload (mf : Manifest) : Prop :=
  asInterfaceMap (specOf mf) = Some (specOf mf).



(** A policy with an annotation next to its labels, and a payload with
    nested members. *)
Definition policyDoc : value :=
  VObj {[ "apiVersion" := VStr "kyverno.io/v1";
          "kind" := VStr "ClusterPolicy";
          "metadata" := VObj {[ "name" := VStr "test-policy";
                                "annotations" := VObj {[ "policies.kyverno.io/title" := VStr "T" ]};
                                "labels" := VObj {[ "app" := VStr "x" ]} ]};
          "spec" := VObj {[ "validationFailureAction" := VStr "Audit";
                            "background" := VBool true;
                            "rules" := VArr [VObj {[ "name" := VStr "test-rule" ]}] ]} ]}.

(** A policy whose payload holds the integer [2^53 + 1], which no
    [float64] is, and one whose payload holds a number beyond the range. *)
Definition numberDoc (x : Number) : value :=
  VObj {[ "apiVersion" := VStr "kyverno.io/v1";
          "kind" := VStr "ClusterPolicy";
          "metadata" := VObj {[ "name" := VStr "test-policy" ]};
          "spec" := VObj {[ "limit" := VNum x ]} ]}.

Definition integer (n : Z) : Number := {| nneg := n <? 0; ndigits := Z.abs n; nexp := 0 |}.

(** A document whose labels are [{app: x}]. *)
Definition labelledDoc : value :=
  VObj {[ "apiVersion" := VStr "kyverno.io/v1";
          "kind" := VStr "ClusterPolicy";
          "metadata" := VObj {[ "name" := VStr "test-policy";
                                "labels" := VObj {[ "app" := VStr "x" ]} ]};
          "spec" := VObj {[ "rules" := VArr [] ]} ]}.

(** The labels that reading a document gives, [None] when the document is
    not accepted. *)
Definition labelsRead (doc : value) : option (gmap string string) :=
  labelsOf <$> decodeManifest doc.

(** A string made of white-space runes only. *)
Inductive WhiteSpace : string → Prop :=
| ws_empty : WhiteSpace ""
| ws_rune1 a s : isSpace1 a = true → WhiteSpace s → WhiteSpace (String a s)
| ws_rune2 a b s : isSpace2 a b = true → WhiteSpace s → WhiteSpace (String a (String b s))
| ws_rune3 a b c s :
    isSpace3 a b c = true → WhiteSpace s → WhiteSpace (String a (String b (String c s))).

(** The result of an iteration that finds no change. *)
Definition noChange (latest : string) (w : World) : option error * World :=
  (None, logf ("No change (latest=" +:+ latest +:+ ")") w).

(** White space around the marker, as worded: a marker that is the
    resolved version with white space around it compares as no change. *)
Definition whitespaceVariantIsNoChange
    (hooks : Hooks) (config : Config) (latest : string) (w : World) : Prop :=
  ∀ marker pre post,
    files w !! LastFile config = Some marker →
    WhiteSpace pre → WhiteSpace post → marker = pre +:+ latest +:+ post →
    reconcile hooks config latest w = noChange latest w.

(** The marker is empty: there is no file, or it holds white space only. *)
Definition markerIsEmpty (config : Config) (w : World) : Prop :=
  match files w !! LastFile config with
  | None => True
  | Some marker => WhiteSpace marker
  end.

Definition isMarkerWrite (config : Config) (e : Event) : bool :=
  match e with
  | EvWriteFile path _ => String.eqb path (LastFile config)
  | _ => false
  end.

(** How often a trace writes the marker file. *)
Definition markerWrites (config : Config) (evs : list Event) : nat :=
  length (List.filter (isMarkerWrite config) evs).

(** From [w] to [w'] the trace has only grown, without a write of the
    marker file, and the content of the marker file is the same. *)
Definition keeps (config : Config) (w w' : World) : Prop :=
  ∃ evs, trace w' = trace w ++ evs
         ∧ markerWrites config evs = 0%nat
         ∧ files w' !! LastFile config = files w !! LastFile config.

(** A hook that only adds events to the trace, does not write the marker
    file and leaves its content alone. *)
Definition keepsMarker (config : Config) (f : World → option error * World) : Prop :=
  ∀ w, keeps config w (f w).2.

Definition hooksKeepMarker (config : Config) (hooks : Hooks) : Prop :=
  ∀ latest,
    keepsMarker config (pullImageToDirFunc hooks config latest (destDirFor latest))
    ∧ keepsMarker config (applyManifestsFunc hooks config (destDirFor latest)).

(** Hooks that do nothing and succeed, as the tests of [watchLoop] install
    them. *)
Definition idleHooks : Hooks :=
  {| pullImageToDirFunc := fun _ _ _ w => (None, w);
     applyManifestsFunc := fun _ _ w => (None, w) |}.

Definition artifactoryConfig (imageBase : string) : Config :=
  {| GithubToken := ""; ImageBase := imageBase; Owner := ""; Package := "";
     PackageNormalized := ""; PollInterval := 30; GithubAPIOwnerType := "users";
     StateDir := "/tmp/kyverno-watcher"; LastFile := "/tmp/kyverno-watcher/last_seen";
     Provider := "artifactory"; Username := "u"; Password := "p" |}.

(** A world whose state directory holds the given marker, or none. *)
Definition markerWorld (marker : option string) : World :=
  quietWorld (match marker with
              | Some m => {[ "/tmp/kyverno-watcher/last_seen" := m ]}
              | None => ∅
              end)
             {[ "/tmp"; "/tmp/kyverno-watcher" ]} ∅.

(** The first byte of a white-space rune. *)
Definition leads (a : ascii) : Prop :=
  isSpace1 a = true ∨ code a = 194%N ∨ (225 <= code a <= 227)%N.

(** Transports and a codec that do nothing, for worlds without a registry. *)
Definition noTransports : Transports :=
  {| orasPullFunc := fun _ _ w => (None, w); pullOCI := fun _ _ w => (None, w) |}.

Definition noCodec : YAMLCodec :=
  {| yamlToJSON := fun _ => None; jsonToYAML := fun _ => "" |}.

(** The tag of an image reference: the optional [:tag] suffix of its last
    path element. The colon of a registry port is not the start of a tag. *)
Definition tagSegment (ref : string) : option string :=
  let element := List.last (Split ref "/") "" in
  match Split element ":" with
  | [] | [_] => None
  | parts => Some (List.last parts "")
  end.

Fixpoint noByte (c : ascii) (s : string) : bool :=
  match s with
  | EmptyString => true
  | String a r => negb (Ascii.eqb a c) && noByte c r
  end.






(** The programs that a trace starts, each with its arguments: [None] when
    a command line is not one of plain words. *)
Definition startedBy (evs : list Event) : option (list (list string)) :=
  mapM Fields (execsOf evs).

(** The apply step as the specification words it: the tool is started once
    for every file found, with the path of that file. *)
Definition appliesEachFile (config : Config) (dir : string) (w : World) : Prop :=
  ∀ found, findYAMLFiles dir w = (found, None) →
    startedBy (trace (applyManifestsReal config dir w).2)
    = Some ((fun file => ["kubectl"; "apply"; "-f"; file]) <$> found).

(** A manifest whose name has a space in it. *)
Definition spacedManifestWorld : World :=
  quietWorld {[ "/tmp/image-v1/my policy.yaml" := "kind: A" ]}
             {[ "/tmp"; "/tmp/image-v1" ]} ∅.

(** The path that a visit adds to the result of [findYAMLFiles]. *)
Definition yamlOf (v : Visit) : option string :=
  if negb (vIsDir v) && isYAMLExt (vPath v) then Some (vPath v) else None.

(** Two manifests of one artifact, and an apply tool that has rejected
    the first by the time its pipe is asked. *)
Definition twoManifestsWorld : World :=
  {| files := {[ "/tmp/image-v1/a.yaml" := "kind: A"; "/tmp/image-v1/b.yml" := "kind: B";
                 "/tmp/image-v1/notes.txt" := "n" ]};
     dirs := {[ "/tmp"; "/tmp/image-v1" ]}; locked := ∅; unlistable := ∅;
     faulty := ∅;
     httpGet := fun _ _ => TransportFailed (Errorf "no network");
     exited := fun cmd => if String.eqb cmd "kubectl apply -f /tmp/image-v1/a.yaml"
                          then Some 1 else None;
     trace := [] |}.

(** ** Part X. The rest of [main.go]: references, paths and configuration *)

From Stdlib Require Import Sorted.
From Stdlib Require DecimalZ DecimalPos.

(** [strings.Join(elems, sep)] *)
Fixpoint JoinStr (elems : list string) (sep : string) : string :=
  match elems with
  | [] => ""
  | [x] => x
  | x :: rest => x +:+ sep +:+ JoinStr rest sep
  end.

(** [parseImageBase]: the text before the first colon is split at the
    slashes; the second piece is the owner and the pieces after it, joined
    again, are the package. *)
Definition parseImageBase (imageBase : string) : string * string * option error :=
  let imageBase := List.hd "" (Split imageBase ":") in
  let parts := Split imageBase "/" in
  if (length parts <? 3)%nat then
    ("", "", Some (Errorf ("IMAGE_BASE must be in format ghcr.io/owner/package, got: "
                           +:+ imageBase)))
  else
    let owner := List.nth 1 parts "" in
    let packageName := JoinStr (drop 2 parts) "/" in
    if String.eqb owner "" || String.eqb packageName "" then
      ("", "", Some (Errorf ("could not extract owner and package from IMAGE_BASE: "
                             +:+ imageBase)))
    else (owner, packageName, None).

(** Lines 430 to 434 of [orasPull]: the tag that is copied from the
    repository. [lastIndex] is [strings.LastIndex(ref, ":")] as the number of
    bytes before the last colon, [None] for -1. *)
Fixpoint lastIndex (c : ascii) (s : string) : option nat :=
  match s with
  | EmptyString => None
  | String a r =>
      match lastIndex c r with
      | Some i => Some (S i)
      | None => if Ascii.eqb a c then Some O else None
      end
  end.

Fixpoint dropBytes (n : nat) (s : string) : string :=
  match n, s with
  | O, _ => s
  | S n', String _ r => dropBytes n' r
  | S _, EmptyString => EmptyString
  end.

Definition orasTag (ref : string) : string :=
  match lastIndex ":" ref with
  | Some idx => if (0 <? idx)%nat then dropBytes (idx + 1) ref else ref
  | None => ref
  end.

(** How often a byte occurs in a string. *)
Fixpoint countByte (c : ascii) (s : string) : nat :=
  match s with
  | EmptyString => O
  | String a r => ((if Ascii.eqb a c then 1 else 0) + countByte c r)%nat
  end.

(** Lines 355 to 370 of [pullImageToDirReal]: the transport that the
    provider selects, with its log line and the wrapping of its error. *)
Definition transportStep (net : Transports) (config : Config) (tag destDir : string)
    (w : World) : option error * World :=
  if String.eqb (Provider config) "artifactory" then
    let w := logf ("Pulling image " +:+ ImageBase config +:+ " into " +:+ destDir
                   +:+ " using oras...") w in
    match orasPullFunc net config destDir w with
    | (Some err, w) => (Some (Wrapf "oras pull failed" err), w)
    | (None, w) => (None, w)
    end
  else
    let w := logf ("Pulling image " +:+ ImageBase config +:+ ":" +:+ tag +:+ " into "
                   +:+ destDir +:+ " ...") w in
    match pullOCI net (ImageBase config +:+ ":" +:+ tag) destDir w with
    | (Some err, w) => (Some (Wrapf "OCI pull failed" err), w)
    | (None, w) => (None, w)
    end.


(** ** Part XI. Paths: [path/filepath] on Unix *)

(** One element of the path in [filepath.Clean]; the elements kept so far
    are held last first. An empty element and [.] are dropped, [..] removes
    the element before it, and where there is none it is dropped at the root
    and kept otherwise. *)
Definition cleanStep (rooted : bool) (kept : list string) (elem : string) : list string :=
  if String.eqb elem "" || String.eqb elem "." then kept
  else if String.eqb elem ".." then
    match kept with
    | top :: rest => if String.eqb top ".." then elem :: kept else rest
    | [] => if rooted then [] else [elem]
    end
  else elem :: kept.

(** [filepath.Clean] *)
Definition Clean (path : string) : string :=
  if String.eqb path "" then "."
  else
    let rooted := String.prefix "/" path in
    let body := JoinStr (rev (foldl (cleanStep rooted) [] (Split path "/"))) "/" in
    if rooted then "/" +:+ body
    else if String.eqb body "" then "." else body.

(** [filepath.Join(dir, name)] *)
Definition Join (dir name : string) : string :=
  if negb (String.eqb dir "") then Clean (dir +:+ "/" +:+ name)
  else if negb (String.eqb name "") then Clean name
  else "".

Fixpoint dropSlashes (s : string) : string :=
  match s with
  | String "/" r => dropSlashes r
  | _ => s
  end.

(** [filepath.Base] *)
Definition Base (path : string) : string :=
  if String.eqb path "" then "."
  else
    let path := String.rev (dropSlashes (String.rev path)) in
    let path := List.last (Split path "/") "" in
    if String.eqb path "" then "/" else path.

(** ** Part XII. The OCI transport *)

(** What a call of the registry client library gives: a value or an
    error. *)
Inductive result (A : Type) : Type :=
| Ok (a : A)
| Err (e : error).
Arguments Ok {A} a.
Arguments Err {A} e.

(** The reader that [layer.Compressed] returns: what [io.ReadAll] reads
    from it, the error of the read, and the error of [Close]. *)
Record Blob : Type := {
  blobContent : string;
  blobReadErr : option error;
  blobCloseErr : option error
}.

(** A [v1.Layer] as [processLayer] uses it. *)
Record Layer : Type := {
  MediaType : result string;
  Compressed : result Blob
}.

(** What the registry answers for an image reference, through
    [name.ParseReference], [remote.Get], [desc.Image] and [img.Layers];
    [refName] is [ref.Name()]. *)
Inductive Fetched : Type :=
| ReferenceInvalid (e : error)
| GetFailed (refName : string) (e : error)
| ImageFailed (refName : string) (e : error)
| LayersFailed (refName : string) (e : error)
| FetchedLayers (refName : string) (layers : list Layer).

Definition PolicyLayerMediaType : string :=
  "application/vnd.cncf.kyverno.policy.layer.v1+yaml".

Module Oci.

(** The name under which [processLayer] saves a layer. *)
Definition layerFile (mediaType outputDir : string) (layerIndex : Z) : string :=
  if String.eqb mediaType PolicyLayerMediaType
  then Join outputDir ("policy-" +:+ formatInt layerIndex +:+ ".yaml")
  else Join outputDir ("layer-" +:+ formatInt layerIndex +:+ ".yaml").

(** [processLayer] from the call of [io.ReadAll] on. *)
Definition saveLayer (mediaType : string) (blob : Blob) (outputDir : string)
    (layerIndex fileCount : Z) (w : World) : option error * Z * World :=
  match blobReadErr blob with
  | Some err => (Some (Wrapf "reading layer content" err), fileCount, w)
  | None =>
      let content := blobContent blob in
      if (String.length content =? 0)%nat then
        (None, fileCount,
         logf ("  Layer " +:+ formatInt layerIndex +:+ " is empty, skipping") w)
      else
        let filename := layerFile mediaType outputDir layerIndex in
        match WriteFile filename content w with
        | (Some err, w) => (Some (Wrapf "writing file" err), fileCount, w)
        | (None, w) =>
            (None, fileCount + 1,
             logf ("  Saved to: " +:+ Base filename +:+ " ("
                   +:+ formatInt (Z.of_nat (String.length content)) +:+ " bytes)") w)
        end
  end.

(** [processLayer]: the count of files is handed in and out. The deferred
    [Close] of the blob runs last. *)
Definition processLayer (layer : Layer) (outputDir : string) (layerIndex fileCount : Z)
    (w : World) : option error * Z * World :=
  match MediaType layer with
  | Err err => (Some (Wrapf "getting media type" err), fileCount, w)
  | Ok mediaType =>
      let w := logf ("Layer " +:+ formatInt layerIndex +:+ " media type: " +:+ mediaType) w in
      match Compressed layer with
      | Err err => (Some (Wrapf "getting compressed layer" err), fileCount, w)
      | Ok blob =>
          let '(err, fileCount, w) := saveLayer mediaType blob outputDir layerIndex fileCount w in
          let w := match blobCloseErr blob with
                   | Some cerr =>
                       logf ("Warning: failed to close blob for layer "
                             +:+ formatInt layerIndex +:+ ": " +:+ errorString cerr) w
                   | None => w
                   end in
          (err, fileCount, w)
      end
  end.

(** The loop of [pullOCI] over the layers, from index [i] on. *)
Fixpoint processLayers (layers : list Layer) (outputDir : string) (i fileCount : Z)
    (w : World) : option error * Z * World :=
  match layers with
  | [] => (None, fileCount, w)
  | layer :: rest =>
      match processLayer layer outputDir i fileCount w with
      | (Some err, fileCount, w) =>
          (Some (Wrapf ("processing layer " +:+ formatInt i) err), fileCount, w)
      | (None, fileCount, w) => processLayers rest outputDir (i + 1) fileCount w
      end
  end.

Definition pullOCI (registry : string → Fetched) (imageRef outputDir : string) (w : World)
  : option error * World :=
  match registry imageRef with
  | ReferenceInvalid err => (Some (Wrapf "parsing image reference" err), w)
  | GetFailed refName err =>
      (Some (Wrapf "getting remote image" err),
       logf ("Pulling files from OCI image: " +:+ refName) w)
  | ImageFailed refName err =>
      (Some (Wrapf "converting to image" err),
       logf ("Pulling files from OCI image: " +:+ refName) w)
  | LayersFailed refName err =>
      (Some (Wrapf "getting image layers" err),
       logf ("Pulling files from OCI image: " +:+ refName) w)
  | FetchedLayers refName layers =>
      let w := logf ("Pulling files from OCI image: " +:+ refName) w in
      let w := logf ("Found " +:+ formatInt (Z.of_nat (length layers)) +:+ " layers") w in
      match processLayers layers outputDir 0 0 w with
      | (Some err, _, w) => (Some err, w)
      | (None, fileCount, w) =>
          (None,
           if fileCount =? 0
           then logf "Warning: No files were extracted from the image" w
           else logf ("Successfully pulled " +:+ formatInt fileCount +:+ " file(s)") w)
      end
  end.

End Oci.

(** The transports of [main.go] with the OCI transport above; the ORAS
    transport stays with its library. *)
Definition ociTransports (registry : string → Fetched)
    (oras : Config → string → World → option error * World) : Transports :=
  {| orasPullFunc := oras; pullOCI := Oci.pullOCI registry |}.

(** A path element that [Clean] keeps where it is: it has no slash and is
    none of the elements that [Clean] drops. *)
Definition plainName (name : string) : Prop :=
  noByte "/" name = true ∧ name ≠ "" ∧ name ≠ "." ∧ name ≠ "..".

(** What the OCI transport may add to the trace: log lines, and writes of
    content that is not empty to a path with the extension [.yaml]. *)
Definition isYAMLWrite (e : Event) : Prop :=
  match e with
  | EvLog _ => True
  | EvWriteFile path data => Ext path = ".yaml" ∧ data ≠ ""
  | _ => False
  end.

(** From [w] to [w'] nothing happened but log lines and such writes: the
    directories are the same and every path without the extension [.yaml]
    holds what it held. *)
Definition writesYAMLOnly (w w' : World) : Prop :=
  dirs w' = dirs w ∧ locked w' = locked w ∧ unlistable w' = unlistable w
  ∧ faulty w' = faulty w
  ∧ (∀ p, Ext p ≠ ".yaml" → files w' !! p = files w !! p)
  ∧ ∃ evs, trace w' = trace w ++ evs ∧ Forall isYAMLWrite evs.

(** The name that [processLayer] gives to the layer with index [i]. *)
Definition layerName (mediaType : string) (i : Z) : string :=
  (if String.eqb mediaType PolicyLayerMediaType then "policy-" else "layer-")
  +:+ formatInt i +:+ ".yaml".

(** An image of two layers, a policy and an empty layer, and a registry
    that serves it under every reference. *)
Definition sampleLayers : list Layer :=
  [ {| MediaType := Ok PolicyLayerMediaType;
       Compressed := Ok {| blobContent := "kind: ClusterPolicy";
                           blobReadErr := None; blobCloseErr := None |} |};
    {| MediaType := Ok "application/octet-stream";
       Compressed := Ok {| blobContent := ""; blobReadErr := None; blobCloseErr := None |} |} ].

Definition sampleRegistry (imageRef : string) : Fetched :=
  FetchedLayers imageRef sampleLayers.

(** ** Part XIII. [loadConfig] *)

Definition stateDirBase : string := "/tmp/kyverno-watcher".

(** [strings.ReplaceAll(s, old, new)] for a one-byte [old]. *)
Fixpoint ReplaceAllWith (s : string) (old : ascii) (new : string) : string :=
  match s with
  | EmptyString => EmptyString
  | String a r => (if Ascii.eqb a old then new else str1 a) +:+ ReplaceAllWith r old new
  end.

(** The function that [loadConfig] gives to [strings.Map] keeps the runes
    from 32 to 126. A byte below 128 is a rune of its own; a byte from 128
    on is part of a rune above 126, or of an invalid encoding, which [Map]
    reads as U+FFFD: it is dropped in both cases. *)
Definition printable (a : ascii) : bool := ((32 <=? code a) && (code a <=? 126))%N.

Fixpoint keepPrintable (s : string) : string :=
  match s with
  | EmptyString => EmptyString
  | String a r => if printable a then String a (keepPrintable r) else keepPrintable r
  end.

(** What [loadConfig] logs of the token. *)
Definition tokenPrefix (githubToken : string) : string :=
  if (10 <? String.length githubToken)%nat then takeBytes 10 githubToken +:+ "..."
  else githubToken.

(** How [loadConfig] ends: [logFatal] logs its message and ends the
    process, otherwise the configuration is returned. *)
Inductive Loaded : Type :=
| Fatal (msg : string)
| Ready (config : Config).

Definition logFatal (msg : string) (w : World) : Loaded * World := (Fatal msg, logf msg w).

(** What the [switch] of [loadConfig] sets. *)
Record Credentials : Type := {
  credToken : string;
  credOwner : string;
  credPackage : string;
  credUsername : string;
  credPassword : string
}.

(** The [switch] on the provider in [loadConfig]: the message of
    [logFatal], or the variables it has set. *)
Definition loadCredentials (provider imageBase : string) (getEnvFunc : string → string)
    (w : World) : (string + Credentials) * World :=
  if String.eqb provider "github" then
    let githubToken := TrimSpace (getEnvFunc "GITHUB_TOKEN") in
    if String.eqb githubToken "" then
      (inl "GITHUB_TOKEN environment variable must be set", w)
    else
      let githubToken := keepPrintable githubToken in
      if String.eqb githubToken "" then
        (inl "GITHUB_TOKEN contains only invalid characters", w)
      else
        let w := logf ("Using GitHub token: " +:+ tokenPrefix githubToken +:+ " (length: "
                       +:+ formatInt (Z.of_nat (String.length githubToken)) +:+ ")") w in
        match parseImageBase imageBase with
        | (_, _, Some err) => (inl ("Failed to parse IMAGE_BASE: " +:+ errorString err), w)
        | (owner, packageName, None) =>
            (inr {| credToken := githubToken; credOwner := owner; credPackage := packageName;
                    credUsername := ""; credPassword := "" |}, w)
        end
  else if String.eqb provider "artifactory" then
    let username := TrimSpace (getEnvFunc "ARTIFACTORY_USERNAME") in
    let password := TrimSpace (getEnvFunc "ARTIFACTORY_PASSWORD") in
    if String.eqb username "" || String.eqb password "" then
      (inl "ARTIFACTORY_USERNAME and ARTIFACTORY_PASSWORD environment variables must be set for artifactory provider", w)
    else
      (inr {| credToken := ""; credOwner := ""; credPackage := "";
              credUsername := username; credPassword := password |},
       logf ("Using Artifactory with username: " +:+ username) w)
  else
    (inl ("Unsupported PROVIDER: " +:+ provider +:+ " (must be 'github' or 'artifactory')"), w).

(** [loadConfig]. [toLower] is [strings.ToLower], which lowers by the
    Unicode tables; [getEnvFunc] is the environment. *)
Definition loadConfig (toLower : string → string) (getEnvFunc : string → string) (w : World)
  : Loaded * World :=
  let provider := toLower (getEnvOrDefault getEnvFunc "PROVIDER" "github") in
  let imageBase := getEnvFunc "IMAGE_BASE" in
  if String.eqb imageBase "" then
    logFatal "IMAGE_BASE environment variable must be set (e.g., ghcr.io/owner/package)" w
  else
    match loadCredentials provider imageBase getEnvFunc w with
    | (inl msg, w) => logFatal msg w
    | (inr cred, w) =>
        let pollInterval := getEnvAsIntOrDefault getEnvFunc "POLL_INTERVAL" 30 in
        let githubAPIOwnerType := getEnvOrDefault getEnvFunc "GITHUB_API_OWNER_TYPE" "users" in
        let packageNormalized := ReplaceAllWith (credPackage cred) "/" "%2F" in
        let stateDir := stateDirBase in
        match MkdirAll stateDir w with
        | (Some err, w) =>
            logFatal ("Failed to create state directory: " +:+ errorString err) w
        | (None, w) =>
            let lastFile := Join stateDir "last_seen" in
            (Ready {| GithubToken := credToken cred;
                      ImageBase := imageBase;
                      Owner := credOwner cred;
                      Package := credPackage cred;
                      PackageNormalized := packageNormalized;
                      PollInterval := pollInterval;
                      GithubAPIOwnerType := githubAPIOwnerType;
                      StateDir := stateDir;
                      LastFile := lastFile;
                      Provider := provider;
                      Username := credUsername cred;
                      Password := credPassword cred |}, w)
        end
    end.

(** An environment as a list of bindings; a name that is not bound reads
    as the empty string. *)
Fixpoint envOf (bindings : list (string * string)) (key : string) : string :=
  match bindings with
  | [] => ""
  | (k, v) :: rest => if String.eqb k key then v else envOf rest key
  end.

(** A manifest whose label [tier] holds a list, and a codec that reads
    every text as that manifest. *)
Definition listLabelDoc : value :=
  VObj {[ "apiVersion" := VStr "v1"; "kind" := VStr "ConfigMap";
          "metadata" := VObj {[ "name" := VStr "cm";
                                "labels" := VObj {[ "tier" := VArr [VStr "a"] ]} ]} ]}.

Definition constCodec (doc : value) : YAMLCodec :=
  {| yamlToJSON := fun _ => Some doc; jsonToYAML := fun _ => "" |}.

(** ** Part XIV. A whole round *)







(** * Properties *)

(** ** Version resolver *)

Section Resolver.

Implicit Types (v u : GitHubPackageVersion) (vs : list GitHubPackageVersion).

Lemma mostRecent_inv vs : ∀ cur,
  let r := mostRecent cur vs in
  UpdatedAt cur <= UpdatedAt r
  ∧ (∀ j u, vs !! j = Some u → UpdatedAt u <= UpdatedAt r)
  ∧ (r = cur
     ∨ ∃ i, vs !! i = Some r ∧ UpdatedAt cur < UpdatedAt r
            ∧ ∀ j u, (j < i)%nat → vs !! j = Some u → UpdatedAt u < UpdatedAt r).
Proof.
  induction vs as [|v vs IH]; intros cur; simpl.
  - split; [lia|]. split; [|by left]. intros j u Hj. by destruct j.
  - unfold time_After. destruct (Z.ltb_spec (UpdatedAt cur) (UpdatedAt v)) as [Hlt|Hge].
    + destruct (IH v) as (Hle & Hall & Hsel). split; [lia|]. split.
      * intros [|j] u Hj; simpl in Hj; [by simplify_eq|by eapply Hall].
      * right. destruct Hsel as [->|(i & Hi & Hlt' & Hbefore)].
        -- exists 0%nat. split; [done|]. split; [done|]. intros j u Hj. lia.
        -- exists (S i). split; [done|]. split; [lia|].
           intros [|j] u Hj Hu; simpl in Hu; [simplify_eq; lia|].
           eapply Hbefore; [|done]. lia.
    + destruct (IH cur) as (Hle & Hall & Hsel). split; [done|]. split.
      * intros [|j] u Hj; simpl in Hj; [simplify_eq; lia|by eapply Hall].
      * destruct Hsel as [Heq|(i & Hi & Hlt' & Hbefore)]; [by left|right].
        exists (S i). split; [done|]. split; [done|].
        intros [|j] u Hj Hu; simpl in Hu; [simplify_eq; lia|].
        eapply Hbefore; [|done]. lia.
Qed.

Lemma latestOf_firstNewest vs :
  vs ≠ [] → ∃ i v, firstNewest vs i v ∧ latestOf vs = identifierOf v.
Proof.
  destruct vs as [|v0 tl]; [done|]. intros _.
  unfold latestOf. fold (identifierOf (mostRecent v0 (v0 :: tl))).
  assert (mostRecent v0 (v0 :: tl) = mostRecent v0 tl) as ->.
  { simpl. unfold time_After. by rewrite Z.ltb_irrefl. }
  destruct (mostRecent_inv tl v0) as (Hle & Hall & Hsel). simpl in *.
  destruct Hsel as [Heq|(i & Hi & Hlt & Hbefore)].
  - exists 0%nat, v0. rewrite Heq. split; [|done]. split; [done|]. split.
    + intros [|j] u Hu; simpl in Hu; [simplify_eq; lia|].
      rewrite <- Heq. by eapply Hall.
    + intros j u Hj. lia.
  - exists (S i), (mostRecent v0 tl). split; [|done]. split; [done|]. split.
    + intros [|j] u Hu; simpl in Hu; [simplify_eq; lia|by eapply Hall].
    + intros [|j] u Hj Hu; simpl in Hu; [simplify_eq; lia|].
      eapply Hbefore; [|done]. lia.
Qed.

(** C3. When the metadata API answers 200 with a non-empty list of
    versions, [getLatestTagOrDigest] returns no error and the identifier
    of the entry with the latest update time, the first such entry in the
    order of the list: that entry's first tag when it has a tag, and
    otherwise "version-id-" followed by its id. *)
Theorem C3_resolver_selects_first_newest
    (httpGet : string → string → HttpOutcome) (config : Config)
    (resp : HttpResponse) vs :
  httpGet (apiURL config) ("token " +:+ GithubToken config) = Responded resp →
  StatusCode resp = 200 →
  respVersions resp = Some vs →
  vs ≠ [] →
  ∃ i v, firstNewest vs i v
         ∧ getLatestTagOrDigest httpGet config = (identifierOf v, None)
         ∧ identifierOf v = match Tags v with
                            | tag :: _ => tag
                            | [] => "version-id-" +:+ formatInt (ID v)
                            end.
Proof.
  intros Hget Hstatus Hvs Hne.
  destruct (latestOf_firstNewest vs Hne) as (i & v & Hfirst & Hid).
  exists i, v. split; [done|]. split; [|done].
  unfold getLatestTagOrDigest. rewrite Hget, Hstatus, Hvs. simpl. by rewrite Hid.
Qed.

Lemma C3_resolver_witness :
  ∃ i v, firstNewest sampleVersions i v
         ∧ getLatestTagOrDigest sampleAPI sampleConfig = (identifierOf v, None)
         ∧ identifierOf v = match Tags v with
                            | tag :: _ => tag
                            | [] => "version-id-" +:+ formatInt (ID v)
                            end.
Proof.
  apply (C3_resolver_selects_first_newest sampleAPI sampleConfig
           {| StatusCode := 200; respBody := "[...]"; respMessage := "";
              respVersions := Some sampleVersions;
              respParseErr := Errorf "" |} sampleVersions);
    [reflexivity | reflexivity | reflexivity | discriminate].
Defined.

(** The tie between the entries 12 and 13 goes to the earlier one, which
    has no tag. *)
Example resolver_sample :
  getLatestTagOrDigest sampleAPI sampleConfig = ("version-id-12", None).
Proof. reflexivity. Qed.

End Resolver.

(** ** Applier *)

Section Applier.


Lemma sameFS_refl w : sameFS w w.
Proof. by repeat split. Qed.

Lemma sameFS_emit e w : sameFS (emit e w) w.
Proof. by repeat split. Qed.

Lemma sameFS_trans w1 w2 w3 : sameFS w1 w2 → sameFS w2 w3 → sameFS w1 w3.
Proof. intros (?&?&?&?) (?&?&?&?). repeat split; congruence. Qed.




(** *** The words of a command line *)







(** *** What [findYAMLFiles] finds *)

Lemma insertBy_perm {A} (le : A → A → bool) x (l : list A) : insertBy le x l ≡ₚ x :: l.
Proof.
  induction l as [|y l IH]; simpl; [done|].
  destruct (le x y); [done|]. rewrite IH. apply Permutation_swap.
Qed.

Lemma sortBy_perm {A} (le : A → A → bool) (l : list A) : sortBy le l ≡ₚ l.
Proof.
  induction l as [|x l IH]; simpl; [done|].
  unfold sortBy in *. simpl. by rewrite insertBy_perm, IH.
Qed.

Lemma sortPaths_perm (l : list string) : sortPaths l ≡ₚ l.
Proof. apply sortBy_perm. Qed.

Lemma walkWith_collect visits : ∀ acc found,
  walkWith collectYAML visits acc = (found, None) →
  Forall (fun v => vErr v = None) visits ∧ found = acc ++ omap yamlOf visits.
Proof.
  induction visits as [|v visits IH]; intros acc found; simpl.
  - intros [= <-]. by rewrite app_nil_r.
  - unfold collectYAML at 1, yamlOf at 1. destruct (vErr v) as [e|] eqn:He; [done|].
    destruct (negb (vIsDir v)); simpl; [destruct (isYAMLExt (vPath v)); simpl|];
      intros [Hall ->]%IH; (split; [by constructor|]); by rewrite <- ?app_assoc.
Qed.

Lemma visitOf_file w p : vIsDir (visitOf w p) = false → vPath (visitOf w p) = p ∧ p ∉ dirs w.
Proof. unfold visitOf. by case_bool_decide. Qed.

Lemma visitOf_path w p : vPath (visitOf w p) = p.
Proof. unfold visitOf. by case_bool_decide. Qed.

(** When the walk succeeds, the files found are the regular files at the
    directory or below it that carry one of the two extensions, in any case
    of letters, and that the walk can reach. *)
Lemma findYAMLFiles_spec dir w found :
  findYAMLFiles dir w = (found, None) →
  ∀ p, p ∈ found ↔
       (is_Some (files w !! p) ∧ (p ∉ dirs w) ∧ isUnder dir p = true
        ∧ hidden w p = false ∧ isYAMLExt p = true).
Proof.
  unfold findYAMLFiles, walkVisits. intros Hwalk.
  destruct (exists_at w dir) eqn:Hroot; [|done].
  apply walkWith_collect in Hwalk as [_ ->]. simpl. intros p.
  rewrite list_elem_of_omap. split.
  - intros (v & Hv & Hy). unfold yamlOf in Hy.
    destruct (negb (vIsDir v)) eqn:Hdir; [|done]. apply negb_true_iff in Hdir.
    destruct (isYAMLExt (vPath v)) eqn:Hext; [|done]. simpl in Hy. injection Hy as <-.
    apply list_elem_of_fmap in Hv as (q & -> & Hq).
    destruct (visitOf_file w q Hdir) as [Hp Hnd]. rewrite Hp in *. clear Hp.
    rewrite sortPaths_perm in Hq.
    apply list_elem_of_In, List.filter_In in Hq as [Hq [Hu Hh]%andb_true_iff].
    apply negb_true_iff in Hh. apply list_elem_of_In, elem_of_app in Hq as [Hq|Hq].
    + apply list_elem_of_fmap in Hq as ([q' data] & -> & Hq%elem_of_map_to_list).
      simpl in *. split; [by eexists|]. by repeat split.
    + by apply elem_of_elements in Hq.
  - intros ([data Hf] & Hnd & Hu & Hh & Hext).
    exists (visitOf w p). split.
    + apply list_elem_of_fmap. exists p. split; [done|].
      rewrite sortPaths_perm. apply list_elem_of_In, List.filter_In. split.
      * apply list_elem_of_In, elem_of_app. left.
        apply list_elem_of_fmap. exists (p, data). split; [done|].
        by apply elem_of_map_to_list.
      * by rewrite Hu, Hh.
    + unfold yamlOf, visitOf. rewrite bool_decide_eq_false_2; [|done]. simpl.
      by rewrite Hext.
Qed.


(** A path with a space in it is not passed to the tool: the command line
    is split at the space, and the tool is started with two paths, neither
    of them the file. *)
Lemma C4_counterexample : ¬ appliesEachFile sampleConfig "/tmp/image-v1" spacedManifestWorld.
Proof.
  intros Hstated.
  assert (findYAMLFiles "/tmp/image-v1" spacedManifestWorld
          = (["/tmp/image-v1/my policy.yaml"], None)) as Hfound
    by (vm_compute; reflexivity).
  specialize (Hstated _ Hfound). clear Hfound. vm_compute in Hstated.
  discriminate Hstated.
Qed.

Example apply_splits_path :
  startedBy (trace (applyManifestsReal sampleConfig "/tmp/image-v1" spacedManifestWorld).2)
  = Some [["kubectl"; "apply"; "-f"; "/tmp/image-v1/my"; "policy.yaml"]].
Proof. vm_compute. reflexivity. Qed.

(** Scenario 5 of the specification, when the tool has failed on the first
    file by the time its pipe is asked: the failure is logged, the second
    file is applied as well and the step succeeds. *)
Example apply_continues_after_failure :
  let '(err, w') := applyManifestsReal sampleConfig "/tmp/image-v1" twoManifestsWorld in
  err = None
  ∧ trace w'
    = [EvLog "Applying manifests in /tmp/image-v1 ...";
       EvLog "kubectl apply -f /tmp/image-v1/a.yaml";
       EvExec "kubectl apply -f /tmp/image-v1/a.yaml";
       EvLog "kubectl apply failed for /tmp/image-v1/a.yaml with exit code 1";
       EvLog "kubectl apply -f /tmp/image-v1/b.yml";
       EvExec "kubectl apply -f /tmp/image-v1/b.yml"].
Proof. vm_compute. done. Qed.

(** The directory has vanished: the only failure of the step. *)
Example apply_fails_without_directory :
  applyManifestsReal sampleConfig "/tmp/image-v2" twoManifestsWorld
  = (Some (Errorf "lstat /tmp/image-v2: no such file or directory"), twoManifestsWorld).
Proof. vm_compute. done. Qed.

End Applier.

(** ** Puller: the destination directory *)

Section DestDir.

Lemma app_cons (a : ascii) (s t : string) : String a s +:+ t = String a (s +:+ t).
Proof. reflexivity. Qed.

Lemma app_empty_l (t : string) : "" +:+ t = t.
Proof. reflexivity. Qed.

Lemma app_empty_r (s : string) : s +:+ "" = s.
Proof. induction s as [|a s IH]; [done|]. by rewrite app_cons, IH. Qed.

Lemma app_assoc_str (a b c : string) : (a +:+ b) +:+ c = a +:+ (b +:+ c).
Proof. induction a as [|x a IH]; [done|]. by rewrite !app_cons, IH. Qed.

Lemma prefix_spec s1 : ∀ s2, String.prefix s1 s2 = true ↔ ∃ t, s2 = s1 +:+ t.
Proof.
  induction s1 as [|a s1 IH]; intros [|b s2]; simpl.
  - split; [by intros _; exists EmptyString|done].
  - split; [by intros _; exists (String b s2)|done].
  - split; [done|by intros [t ?]].
  - destruct (Ascii.ascii_dec a b) as [->|Hne].
    + rewrite IH. split; intros [t Ht]; exists t; rewrite app_cons in *; congruence.
    + split; [done|]. intros [t Ht]. rewrite app_cons in Ht. congruence.
Qed.

Lemma isUnder_spec root p :
  isUnder root p = true ↔ p = root ∨ ∃ t, p = root +:+ "/" +:+ t.
Proof.
  unfold isUnder. rewrite orb_true_iff, String.eqb_eq, prefix_spec.
  split; (intros [?|[t Ht]]; [by left|right; exists t]).
  - by rewrite Ht, app_assoc_str.
  - by rewrite Ht, app_assoc_str.
Qed.

Lemma isUnder_trans a b c :
  isUnder a b = true → isUnder b c = true → isUnder a c = true.
Proof.
  rewrite !isUnder_spec. intros [->|[t ->]] [->|[u ->]]; eauto.
  right. exists (t +:+ "/" +:+ u). by rewrite !app_assoc_str.
Qed.

Lemma heldBack_spec w d :
  heldBack w d = true ↔ ∃ q, q ∈ locked w ∧ isUnder d q = true ∧ exists_at w q = true.
Proof.
  unfold heldBack. rewrite existsb_exists. split.
  - intros (q & Hin & [? ?]%andb_true_iff). exists q.
    by rewrite <- elem_of_elements, list_elem_of_In.
  - intros (q & Hin & ? & ?). exists q. split.
    + by rewrite <- list_elem_of_In, elem_of_elements.
    + by apply andb_true_iff.
Qed.

Lemma heldBack_below w root d :
  isUnder root d = true → heldBack w d = true → heldBack w root = true.
Proof.
  rewrite !heldBack_spec. intros Hd (q & ? & ? & ?). exists q.
  split; [done|]. split; [by eapply isUnder_trans|done].
Qed.

(** When [os.RemoveAll] reports no error, nothing is left at the path or
    below it. *)
Lemma RemoveAll_ok path w w1 :
  RemoveAll path w = (None, w1) →
  ∀ p, isUnder path p = true → files w1 !! p = None ∧ p ∉ dirs w1.
Proof.
  unfold RemoveAll. intros Heq p Hp.
  destruct (heldBack w path) eqn:Hheld; [done|]. simplify_eq. simpl. split.
  - apply eq_None_not_Some. intros [data [Hfile Hkeep]%map_lookup_filter_Some].
    simpl in Hkeep. rewrite Hp in Hkeep. simpl in Hkeep.
    apply bool_decide_unpack in Hkeep.
    assert (heldBack w path = true) as Hcontra; [|congruence].
    apply heldBack_spec. exists p. split; [done|]. split; [done|].
    unfold exists_at. rewrite Hfile. by rewrite bool_decide_eq_true_2.
  - intros [Hkeep Hdir]%elem_of_filter. rewrite Hp in Hkeep. simpl in Hkeep.
    apply Is_true_true in Hkeep.
    assert (heldBack w path = true) as Hcontra; [|congruence].
    by eapply heldBack_below.
Qed.

(** *** [os.MkdirAll] *)

Lemma parentOf_shorter path p :
  parentOf path = Some p → ∃ rest, path = p +:+ rest ∧ rest ≠ "".
Proof.
  revert p. induction path as [|a path IH]; intros p; simpl; [done|].
  destruct (parentOf path) as [q|].
  - intros [= <-]. destruct (IH q eq_refl) as (rest & -> & Hne). by exists rest.
  - destruct (_ && _); [|done]. intros [= <-]. by exists (String a path).
Qed.

Lemma onlyDirsAdded_refl w : onlyDirsAdded w w.
Proof. by repeat split. Qed.

Lemma onlyDirsAdded_trans w1 w2 w3 :
  onlyDirsAdded w1 w2 → onlyDirsAdded w2 w3 → onlyDirsAdded w1 w3.
Proof.
  intros (?&?&?&?&?&?&?&?) (?&?&?&?&?&?&?&?).
  repeat split; try congruence. by etrans.
Qed.

Lemma Mkdir_effect path w err w' :
  Mkdir path w = (err, w') →
  onlyDirsAdded w w'
  ∧ (∀ d, d ∈ dirs w' → d ∈ dirs w ∨ d = path)
  ∧ (err = None → path ∈ dirs w' ∧ path ∉ locked w).
Proof.
  unfold Mkdir. destruct (exists_at w path).
  { intros [= <- <-]. split; [apply onlyDirsAdded_refl|]. split; [by left|done]. }
  destruct (parentMissing path w).
  { intros [= <- <-]. split; [apply onlyDirsAdded_refl|]. split; [by left|done]. }
  case_bool_decide as Hlocked.
  { intros [= <- <-]. split; [apply onlyDirsAdded_refl|]. split; [by left|done]. }
  intros [= <- <-]. simpl. split; [|split].
  - repeat split; try done. set_solver.
  - intros d [->%elem_of_singleton|?]%elem_of_union; [by right|by left].
  - intros _. split; [set_solver|done].
Qed.

(** [os.MkdirAll] changes nothing but the set of directories, to which it
    adds the path and directories above it; when it succeeds the path is a
    directory. *)
Lemma mkdirAll_effect fuel : ∀ path w err w',
  mkdirAll fuel path w = (err, w') →
  onlyDirsAdded w w'
  ∧ (∀ d, d ∈ dirs w' → d ∈ dirs w ∨ ∃ rest, path = d +:+ rest)
  ∧ (err = None → path ∈ dirs w').
Proof.
  induction fuel as [|fuel IH]; intros path w err w'; cbn [mkdirAll].
  - case_bool_decide as Hdir.
    { intros [= <- <-]. split; [apply onlyDirsAdded_refl|]. split; [by left|done]. }
    case_bool_decide as Hfile.
    { intros [= <- <-]. split; [apply onlyDirsAdded_refl|]. split; [by left|done]. }
    intros (Hsame & Hdirs & Hok)%Mkdir_effect. split; [done|]. split.
    + intros d [?| ->]%Hdirs; [by left|]. right. exists "". by rewrite app_empty_r.
    + intros He. by apply Hok.
  - case_bool_decide as Hdir.
    { intros [= <- <-]. split; [apply onlyDirsAdded_refl|]. split; [by left|done]. }
    case_bool_decide as Hfile.
    { intros [= <- <-]. split; [apply onlyDirsAdded_refl|]. split; [by left|done]. }
    destruct (String.eqb (default "" (parentOf path)) "") eqn:Hroot.
    { intros (Hsame & Hdirs & Hok)%Mkdir_effect. split; [done|]. split.
      + intros d [?| ->]%Hdirs; [by left|]. right. exists "". by rewrite app_empty_r.
      + intros He. by apply Hok. }
    destruct (parentOf path) as [parent|] eqn:Hparent; [|done]. simpl in Hroot |- *.
    destruct (parentOf_shorter path parent Hparent) as (tail & Hpath & _).
    destruct (mkdirAll fuel parent w) as [[e|] w1] eqn:Hrec;
      destruct (IH _ _ _ _ Hrec) as (Hsame1 & Hdirs1 & Hok1).
    { intros [= <- <-]. split; [done|]. split; [|done].
      intros d [?|[rest ->]]%Hdirs1; [by left|]. right. exists (rest +:+ tail).
      by rewrite Hpath, app_assoc_str. }
    intros (Hsame & Hdirs & Hok)%Mkdir_effect.
    split; [by eapply onlyDirsAdded_trans|]. split.
    + intros d [[?|[rest ->]]%Hdirs1| ->]%Hdirs; [by left|right..].
      * exists (rest +:+ tail). by rewrite Hpath, app_assoc_str.
      * exists "". by rewrite app_empty_r.
    + intros He. by apply Hok.
Qed.

Lemma MkdirAll_effect path w err w' :
  MkdirAll path w = (err, w') →
  onlyDirsAdded w w'
  ∧ (∀ d, d ∈ dirs w' → d ∈ dirs w ∨ ∃ rest, path = d +:+ rest)
  ∧ (err = None → path ∈ dirs w').
Proof. apply mkdirAll_effect. Qed.

(** The three ways [os.WriteFile] ends: the file could not be opened and
    nothing has changed; the file holds the new content; the write broke
    off and the file holds the bytes that were written. *)
Lemma WriteFile_cases path data w :
  let w0 := emit (EvWriteFile path data) w in
  (∃ e, WriteFile path data w = (Some e, w0))
  ∨ (WriteFile path data w = (None, withFS (<[path := data]> (files w)) (dirs w) w0)
     ∧ parentMissing path w = false ∧ (path ∉ dirs w) ∧ (path ∉ locked w))
  ∨ (∃ e n, faulty w !! path = Some n ∧ (n < String.length data)%nat
            ∧ WriteFile path data w
              = (Some e, withFS (<[path := takeBytes n data]> (files w)) (dirs w) w0)).
Proof.
  unfold WriteFile. cbn zeta.
  change (parentMissing path (emit (EvWriteFile path data) w)) with (parentMissing path w).
  change (dirs (emit (EvWriteFile path data) w)) with (dirs w).
  change (locked (emit (EvWriteFile path data) w)) with (locked w).
  change (files (emit (EvWriteFile path data) w)) with (files w).
  change (faulty (emit (EvWriteFile path data) w)) with (faulty w).
  destruct (parentMissing path w); [left; by eexists|].
  case_bool_decide as Hdir; [left; by eexists|].
  case_bool_decide as Hlocked; [left; by eexists|].
  destruct (faulty w !! path) as [n|] eqn:Hfaulty; [|by right; left].
  case_bool_decide as Hshort; [|by right; left].
  right; right. by exists (Errorf ("write " +:+ path +:+ ": no space left on device")), n.
Qed.

(** Whatever its outcome, [os.WriteFile] touches one file only. *)
Lemma WriteFile_frame path data w :
  let w' := (WriteFile path data w).2 in
  dirs w' = dirs w ∧ locked w' = locked w ∧ unlistable w' = unlistable w
  ∧ faulty w' = faulty w
  ∧ ∀ p, p ≠ path → files w' !! p = files w !! p.
Proof.
  destruct (WriteFile_cases path data w) as [[e ->]|[[-> _]|(e & n & _ & _ & ->)]];
    simpl; repeat split; try done; intros p Hp; by rewrite lookup_insert_ne.
Qed.

Lemma WriteFile_trace path data w :
  trace (WriteFile path data w).2 = trace w ++ [EvWriteFile path data].
Proof.
  destruct (WriteFile_cases path data w) as [[e ->]|[[-> _]|(e & n & _ & _ & ->)]]; done.
Qed.

Lemma length_app_str s : ∀ t,
  String.length (s +:+ t) = (String.length s + String.length t)%nat.
Proof. induction s as [|a s IH]; intros t; [done|]. rewrite app_cons. simpl. by rewrite IH. Qed.

Lemma mkdirAll_S fuel path w :
  mkdirAll (S fuel) path w
  = if bool_decide (path ∈ dirs w) then (None, w)
    else if bool_decide (is_Some (files w !! path)) then
      (Some (Errorf ("mkdir " +:+ path +:+ ": not a directory")), w)
    else
      let '(err, w1) :=
        if String.eqb (default "" (parentOf path)) "" then (None, w)
        else mkdirAll fuel (default "" (parentOf path)) w in
      match err with
      | Some e => (Some e, w1)
      | None => Mkdir path w1
      end.
Proof. reflexivity. Qed.









(** A directory above a path does not lie below it. *)
Lemma above_not_under root d rest :
  root = d +:+ rest → isUnder root d = true → d = root.
Proof.
  intros Hroot [->|[t Ht]]%isUnder_spec; [done|]. exfalso.
  apply (f_equal String.length) in Hroot, Ht.
  rewrite !length_app_str in Hroot, Ht. simpl in Ht. lia.
Qed.

(** C6, amended. When [os.RemoveAll] reports no error and [os.MkdirAll]
    succeeds, the set-up before the pull leaves the destination directory in
    place with no file and no directory below it, and [pullImageToDirReal]
    goes on to the transport from that state. (A failure of [os.RemoveAll]
    is only logged.) *)
Theorem C6_dest_dir_recreated_empty
    (codec : YAMLCodec) (net : Transports) (config : Config)
    (tag destDir : string) (w w1 w2 : World) :
  RemoveAll destDir w = (None, w1) →
  MkdirAll destDir w1 = (None, w2) →
  prepareDestDir destDir w = (None, w2)
  ∧ destDir ∈ dirs w2
  ∧ (∀ p, isUnder destDir p = true → files w2 !! p = None)
  ∧ (∀ p, isUnder destDir p = true → p ≠ destDir → p ∉ dirs w2)
  ∧ pullImageToDirReal codec net config tag destDir w
    = fetchAndLabel codec net config tag destDir w2.
Proof.
  intros Hrm Hmk.
  assert (prepareDestDir destDir w = (None, w2)) as Hprep.
  { unfold prepareDestDir. by rewrite Hrm. }
  split; [done|].
  pose proof (RemoveAll_ok _ _ _ Hrm) as Hgone.
  destruct (MkdirAll_effect _ _ _ _ Hmk) as ((Hfiles & _) & Hdirs & Hok).
  split; [by apply Hok|]. split; [|split].
  - intros p Hp. rewrite Hfiles. by apply Hgone.
  - intros p Hp Hne. destruct (Hgone p Hp) as [_ Hnot].
    intros [?|[rest Hrest]]%Hdirs; [done|].
    by apply Hne, (above_not_under destDir p rest).
  - unfold pullImageToDirReal. by rewrite Hprep.
Qed.

Lemma C6_dest_dir_witness :
  files (prepareDestDir "/tmp/image-v1" staleWorld).2 !! "/tmp/image-v1/stale.yaml" = None.
Proof.
  pose proof (C6_dest_dir_recreated_empty noCodec noTransports sampleConfig "v1"
                "/tmp/image-v1" staleWorld
                (RemoveAll "/tmp/image-v1" staleWorld).2
                (MkdirAll "/tmp/image-v1" (RemoveAll "/tmp/image-v1" staleWorld).2).2
                eq_refl eq_refl) as (Hprep & _ & Hfiles & _).
  rewrite Hprep. simpl. apply Hfiles. reflexivity.
Defined.

(** A stale file that cannot be removed is still there when the pull
    proceeds: the failure of [os.RemoveAll] is logged as a warning and
    [os.MkdirAll] is content with the directory that exists. *)
Lemma C6_counterexample : ¬ recreatedEmpty "/tmp/image-v1" staleLockedWorld.
Proof.
  intros Hstated.
  destruct (Hstated (prepareDestDir "/tmp/image-v1" staleLockedWorld).2 eq_refl
              "/tmp/image-v1/stale.yaml" eq_refl) as [Hgone _]; [done|].
  vm_compute in Hgone. discriminate.
Qed.

Example stale_file_survives :
  let '(err, w2) := prepareDestDir "/tmp/image-v1" staleLockedWorld in
  err = None
  ∧ files w2 !! "/tmp/image-v1/stale.yaml" = Some "old"
  ∧ trace w2 = [EvLog ("Warning: failed to remove directory /tmp/image-v1: "
                       +:+ "unlinkat /tmp/image-v1: operation not permitted")].
Proof. vm_compute. done. Qed.

End DestDir.

(** ** Document annotator *)

Section Annotator.

Implicit Types (mf : Manifest) (md : ManifestMetadata) (doc out : value).

(** *** Numbers through [float64] *)

Lemma readsAs_spec x f : readsAs x f = true → ParseFloat x = Some f.
Proof.
  unfold readsAs. destruct (ParseFloat x) as [g|]; [|done].
  destruct g as [gn gm ge], f as [fn fm fe]. simpl.
  intros [[Hn Hm]%andb_true_iff He]%andb_true_iff.
  apply Bool.eqb_prop in Hn. apply Z.eqb_eq in Hm, He. by subst.
Qed.

Lemma shortestWith_reads f N Q k x : shortestWith f N Q k = Some x → ParseFloat x = Some f.
Proof.
  unfold shortestWith. destruct (scaled10 N Q _) as [n d].
  destruct (readsAs (canonical (fneg f) (n / d) _) f) eqn:Hdown;
    destruct (readsAs (canonical (fneg f) (n / d + 1) _) f) eqn:Hup;
    intros [= <-]; try done; try (by apply readsAs_spec).
  repeat match goal with |- context [if ?b then _ else _] => destruct b end;
    by apply readsAs_spec.
Qed.

Lemma shortestFrom_reads fuel f N Q : ∀ k x,
  shortestFrom fuel f N Q k = Some x → ParseFloat x = Some f.
Proof.
  induction fuel as [|fuel IH]; intros k x; simpl; [done|].
  destruct (shortestWith f N Q k) as [y|] eqn:Hwith.
  - intros [= <-]. by eapply shortestWith_reads.
  - apply IH.
Qed.

Lemma shortest_reads f x :
  shortest f = Some x → (fmant f =? 0) = false → ParseFloat x = Some f.
Proof.
  unfold shortest. intros Hshort Hzero. rewrite Hzero in Hshort.
  destruct (scaled2 (fmant f) 1 (- fexp f)) as [N Q]. by eapply shortestFrom_reads.
Qed.

(** A number that has been through a [float64] goes through unchanged. *)
Lemma asFloat64_idem x y : asFloat64 x = Some y → asFloat64 y = Some y.
Proof.
  unfold asFloat64 at 1. destruct (ParseFloat x) as [f|] eqn:Hparse; [|done].
  destruct (shortest f) as [z|] eqn:Hshort; intros [= <-].
  - destruct (fmant f =? 0) eqn:Hzero.
    + unfold shortest in Hshort. rewrite Hzero in Hshort. by injection Hshort as <-.
    + unfold asFloat64. by rewrite (shortest_reads f z Hshort Hzero), Hshort.
  - unfold asFloat64. by rewrite Hparse, Hshort.
Qed.

(** *** Values through [interface{}] *)

Lemma depth_item items v : v ∈ items → (depth v < depth (VArr items))%nat.
Proof.
  intros Hin. simpl. apply Nat.lt_succ_r, max_list_elem_of_le.
  apply list_elem_of_fmap. by exists v.
Qed.

Lemma depth_member (m : gmap string value) k v :
  m !! k = Some v → (depth v < depth (VObj m))%nat.
Proof.
  intros Hk. simpl. apply Nat.lt_succ_r, max_list_elem_of_le.
  apply list_elem_of_fmap. exists (k, depth v). split; [done|].
  apply elem_of_map_to_list. by rewrite lookup_fmap, Hk.
Qed.

Lemma value_ind' (P : value → Prop) :
  P VNull → (∀ b, P (VBool b)) → (∀ x, P (VNum x)) → (∀ s, P (VStr s)) →
  (∀ items, Forall P items → P (VArr items)) →
  (∀ m, map_Forall (fun _ => P) m → P (VObj m)) →
  ∀ v, P v.
Proof.
  intros Hnull Hbool Hnum Hstr Harr Hobj v.
  remember (depth v) as n eqn:Hn. revert v Hn.
  induction n as [n IH] using lt_wf_ind. intros v ->.
  destruct v as [|b|x|s|items|m]; auto.
  - apply Harr, Forall_forall. intros v Hin.
    by apply (IH (depth v) (depth_item items v Hin)).
  - apply Hobj. intros k v Hk.
    by apply (IH (depth v) (depth_member m k v Hk)).
Qed.

Lemma allSome_Some {A} (m : gmap string (option A)) m' :
  allSome m = Some m' ↔ ∀ k, m !! k = Some <$> (m' !! k).
Proof.
  unfold allSome. split.
  - case_bool_decide as Hall; [|done]. intros [= <-] k. rewrite lookup_omap.
    destruct (m !! k) as [o|] eqn:Hk; [|done].
    destruct (Hall k o Hk) as [a ->]. done.
  - intros Hm. rewrite bool_decide_eq_true_2.
    + f_equal. apply map_eq. intros k. rewrite lookup_omap, Hm. by destruct (m' !! k).
    + intros k o. rewrite Hm. destruct (m' !! k); [|done]. intros [= <-]. by eexists.
Qed.

Lemma asInterfaceMap_Some m m' :
  asInterfaceMap m = Some m' ↔ ∀ k, asInterface <$> (m !! k) = Some <$> (m' !! k).
Proof.
  unfold asInterfaceMap. rewrite allSome_Some.
  split; intros H k; specialize (H k); by rewrite lookup_fmap in *.
Qed.

Lemma asInterface_arr items :
  asInterface (VArr items) = VArr <$> mapM asInterface items.
Proof. reflexivity. Qed.

Lemma asInterface_obj m : asInterface (VObj m) = VObj <$> asInterfaceMap m.
Proof. reflexivity. Qed.

(** What has been through [interface{}] goes through unchanged. *)
Lemma asInterface_idem v : ∀ v', asInterface v = Some v' → asInterface v' = Some v'.
Proof.
  induction v as [|b|x|s|items IH|m IH] using value_ind'; intros v';
    try (by intros [= <-]).
  - simpl. destruct (asFloat64 x) as [y|] eqn:Hx; [|done]. intros [= <-]. simpl.
    by rewrite (asFloat64_idem x y Hx).
  - rewrite asInterface_arr.
    destruct (mapM asInterface items) as [items'|] eqn:Hitems; [|done].
    intros [= <-]. rewrite asInterface_arr.
    assert (mapM asInterface items' = Some items') as ->; [|done].
    apply mapM_Some in Hitems. apply mapM_Some.
    induction Hitems as [|v w items items' Hv _ IH']; [constructor|].
    inversion IH as [|? ? Hhead Htail]; subst. constructor; [by apply Hhead|by apply IH'].
  - rewrite asInterface_obj.
    destruct (asInterfaceMap m) as [m'|] eqn:Hm; [|done].
    intros [= <-]. rewrite asInterface_obj.
    assert (asInterfaceMap m' = Some m') as ->; [|done].
    apply (proj2 (asInterfaceMap_Some m' m')). intros k.
    pose proof (proj1 (asInterfaceMap_Some m m') Hm k) as Hmk.
    destruct (m !! k) as [v|] eqn:Hk; destruct (m' !! k) as [w|]; try done.
    simpl in *. injection Hmk as Hv. f_equal. by apply (IH k v Hk).
Qed.

Lemma asInterfaceMap_idem m m' : asInterfaceMap m = Some m' → asInterfaceMap m' = Some m'.
Proof.
  intros Hm. pose proof (asInterface_idem (VObj m) (VObj m')) as Hidem.
  rewrite !asInterface_obj, Hm in Hidem. specialize (Hidem eq_refl).
  destruct (asInterfaceMap m') as [m''|]; [|done]. by injection Hidem as ->.
Qed.

(** Maps that go through unchanged go through unchanged together. *)
Lemma asInterfaceMap_union m1 m2 :
  asInterfaceMap m1 = Some m1 → asInterfaceMap m2 = Some m2 →
  asInterfaceMap (m1 ∪ m2) = Some (m1 ∪ m2).
Proof.
  intros H1 H2. apply (proj2 (asInterfaceMap_Some _ _)). intros k.
  pose proof (proj1 (asInterfaceMap_Some _ _) H1 k) as H1k.
  pose proof (proj1 (asInterfaceMap_Some _ _) H2 k) as H2k.
  rewrite lookup_union.
  destruct (m1 !! k) as [v|]; destruct (m2 !! k) as [w|]; simpl in *; done.
Qed.

Lemma asInterfaceMap_empty : asInterfaceMap ∅ = Some ∅.
Proof. by apply (proj2 (asInterfaceMap_Some ∅ ∅)). Qed.

Lemma stablePayload_zero : stablePayload zeroManifest.
Proof. apply asInterfaceMap_empty. Qed.

Lemma foldl_bind_None {A B} (g : B → A → option A) (l : list B) :
  foldl (fun acc kv => s ← acc; g kv s) None l = None.
Proof. by induction l. Qed.

(** What holds of the zero struct and is kept by every store holds of the
    decoded struct. *)
Lemma decodeStruct_inv {S F} (I : S → Prop) (tags : list (string * F))
    (store : F → value → S → option S) (m : gmap string value) (s r : S) :
  I s → (∀ f v s s', I s → store f v s = Some s' → I s') →
  decodeStruct tags store m s = Some r → I r.
Proof.
  intros Hs Hstore. unfold decodeStruct. generalize (membersInOrder m). intros l.
  revert s Hs. induction l as [|kv l IH]; intros s Hs; simpl; [by intros [= <-]|].
  destruct (fieldFor tags kv.1) as [f|]; [|by apply IH].
  destruct (store f kv.2 s) as [s'|] eqn:Hf; [by apply IH, (Hstore f kv.2 s)|].
  by rewrite foldl_bind_None.
Qed.

Lemma storeManifest_stable f v mf mf' :
  stablePayload mf → storeManifest f v mf = Some mf' → stablePayload mf'.
Proof.
  unfold stablePayload, specOf. intros Hmf. destruct f; simpl.
  - destruct (decodeString v (APIVersion mf)); [|done]. by intros [= <-].
  - destruct (decodeString v (Kind mf)); [|done]. by intros [= <-].
  - destruct (decodeMetadata v (Metadata mf)); [|done]. by intros [= <-].
  - destruct v as [| | | | |m]; try done; simpl.
    + intros [= <-]. apply asInterfaceMap_empty.
    + destruct (asInterfaceMap m) as [m'|] eqn:Hm; [|done]. simpl. intros [= <-]. simpl.
      apply asInterfaceMap_union; [by eapply asInterfaceMap_idem|done].
Qed.

(** The payload of a decoded manifest holds [float64] numbers only. *)
Lemma decodeManifest_stable doc mf : decodeManifest doc = Some mf → stablePayload mf.
Proof.
  destruct doc as [| | | | |m]; try done; simpl.
  - intros [= <-]. apply stablePayload_zero.
  - apply decodeStruct_inv; [apply stablePayload_zero|].
    intros f v s s'. apply storeManifest_stable.
Qed.

Lemma decodeStringMap_encoded (L : gmap string string) :
  decodeStringMap (VObj (VStr <$> L)) None = Some (Some L).
Proof.
  unfold decodeStringMap. rewrite bool_decide_eq_true_2.
  - simpl. rewrite (right_id_L ∅ (∪)). do 2 f_equal.
    apply map_eq. intros k. rewrite lookup_omap, lookup_fmap.
    by destruct (L !! k).
  - intros k x. rewrite lookup_fmap. intros (s & _ & ->)%fmap_Some. by eexists.
Qed.

Lemma members1 k1 (x1 : value) : membersInOrder (<[k1:=x1]> ∅) = [(k1, x1)].
Proof. unfold membersInOrder. by rewrite insert_empty, map_to_list_singleton. Qed.

Lemma members_name_labels (x1 x2 : value) :
  membersInOrder (<["name":=x1]> (<["labels":=x2]> ∅)) = [("labels", x2); ("name", x1)].
Proof. vm_compute. reflexivity. Qed.

Lemma members_name_namespace (x1 x2 : value) :
  membersInOrder (<["name":=x1]> (<["namespace":=x2]> ∅)) = [("name", x1); ("namespace", x2)].
Proof. vm_compute. reflexivity. Qed.

Lemma members_name_namespace_labels (x1 x2 x3 : value) :
  membersInOrder (<["name":=x1]> (<["namespace":=x2]> (<["labels":=x3]> ∅)))
  = [("labels", x3); ("name", x1); ("namespace", x2)].
Proof. vm_compute. reflexivity. Qed.

Lemma members_manifest (x1 x2 x3 : value) :
  membersInOrder (<["apiVersion":=x1]> (<["kind":=x2]> (<["metadata":=x3]> ∅)))
  = [("apiVersion", x1); ("kind", x2); ("metadata", x3)].
Proof. vm_compute. reflexivity. Qed.

Lemma members_manifest_spec (x1 x2 x3 x4 : value) :
  membersInOrder (<["apiVersion":=x1]> (<["kind":=x2]> (<["metadata":=x3]> (<["spec":=x4]> ∅))))
  = [("apiVersion", x1); ("kind", x2); ("metadata", x3); ("spec", x4)].
Proof. vm_compute. reflexivity. Qed.

Lemma isEmptyMap_false {A} (m : option (gmap string A)) :
  isEmptyMap m = false → ∃ m', m = Some m' ∧ m' ≠ ∅.
Proof.
  destruct m as [m'|]; [|done]. simpl. intros H%bool_decide_eq_false. by exists m'.
Qed.

Local Arguments decodeStringMap : simpl never.
Local Arguments isEmptyMap : simpl never.

Lemma decodeMetadata_encoded md :
  decodeMetadata (encodeMetadata md) zeroMetadata
  = Some {| Name := Name md; Namespace := Namespace md;
            Labels := if isEmptyMap (Labels md) then None else Labels md |}.
Proof.
  destruct md as [n ns lbl]. unfold encodeMetadata, member, decodeMetadata, decodeStruct. simpl.
  destruct (String.eqb ns "") eqn:Hns; destruct (isEmptyMap lbl) eqn:Hl.
  - rewrite members1. simpl. apply String.eqb_eq in Hns. by subst.
  - rewrite members_name_labels. simpl. rewrite decodeStringMap_encoded. simpl.
    apply String.eqb_eq in Hns. subst.
    by destruct (isEmptyMap_false _ Hl) as (L & -> & _).
  - rewrite members_name_namespace. by simpl.
  - rewrite members_name_namespace_labels. simpl. rewrite decodeStringMap_encoded. simpl.
    by destruct (isEmptyMap_false _ Hl) as (L & -> & _).
Qed.

Local Arguments decodeMetadata : simpl never.
Local Arguments encodeMetadata : simpl never.

Lemma decodeAnyMap_stable (S : gmap string value) :
  asInterfaceMap S = Some S → decodeAnyMap (VObj S) None = Some (Some S).
Proof. intros H. unfold decodeAnyMap. rewrite H. simpl. by rewrite (right_id_L ∅ (∪)). Qed.

Local Arguments decodeAnyMap : simpl never.

(** Decoding what [encodeManifest] has made of a manifest whose payload
    holds [float64] numbers only gives the manifest back, up to empty
    maps. *)
Lemma decodeManifest_encoded mf :
  stablePayload mf → decodeManifest (encodeManifest mf) = Some (reread mf).
Proof.
  destruct mf as [a k md sp]. unfold stablePayload, specOf. cbn [Spec]. intros Hstable.
  unfold encodeManifest, member, decodeManifest, decodeStruct, reread.
  simpl. destruct (isEmptyMap sp) eqn:Hs.
  - rewrite members_manifest. simpl. by rewrite decodeMetadata_encoded.
  - rewrite members_manifest_spec. simpl. rewrite decodeMetadata_encoded. simpl.
    destruct (isEmptyMap_false _ Hs) as (S & -> & _).
    change (default ∅ (Some S)) with S in *.
    by rewrite (decodeAnyMap_stable S Hstable).
Qed.

Lemma setLabels_labels mf tag :
  Labels (Metadata (setLabels mf tag))
  = Some (<["policy-version":=tag]> (<["managed-by":="kyverno-watcher"]> (labelsOf mf))).
Proof. reflexivity. Qed.

Lemma setLabels_not_empty mf tag : isEmptyMap (Labels (Metadata (setLabels mf tag))) = false.
Proof.
  rewrite setLabels_labels. unfold isEmptyMap. apply bool_decide_eq_false.
  apply insert_non_empty.
Qed.

(** What is read back from an annotated document. *)
Lemma reread_setLabels mf tag :
  reread (setLabels mf tag)
  = {| APIVersion := APIVersion mf; Kind := Kind mf;
       Metadata := {| Name := Name (Metadata mf); Namespace := Namespace (Metadata mf);
                      Labels := Some (<["policy-version":=tag]>
                                        (<["managed-by":="kyverno-watcher"]> (labelsOf mf))) |};
       Spec := if isEmptyMap (Spec mf) then None else Spec mf |}.
Proof.
  unfold reread. rewrite setLabels_not_empty. reflexivity.
Qed.

Lemma labelsOf_annotated mf tag :
  labelsOf (reread (setLabels mf tag))
  = <["policy-version":=tag]> (<["managed-by":="kyverno-watcher"]> (labelsOf mf)).
Proof. unfold labelsOf at 1. by rewrite reread_setLabels. Qed.

Lemma specOf_reread mf : specOf (reread mf) = specOf mf.
Proof.
  unfold specOf, reread. simpl. destruct (isEmptyMap (Spec mf)) eqn:Hs; [|done].
  destruct (Spec mf) as [S|]; [|done]. unfold isEmptyMap in Hs.
  apply bool_decide_eq_true in Hs. by subst.
Qed.

Lemma annotate_decoded doc tag mf :
  decodeManifest doc = Some mf →
  annotate doc tag = Some (encodeManifest (setLabels mf tag))
  ∧ decodeManifest (encodeManifest (setLabels mf tag)) = Some (reread (setLabels mf tag)).
Proof.
  intros Hdec. split; [|apply decodeManifest_encoded, (decodeManifest_stable doc mf Hdec)].
  unfold annotate. by rewrite Hdec.
Qed.










(** The integer [2^53 + 1] in the payload comes out as [2^53], and a
    document with a number beyond the range of [float64] is rejected. *)
Example payload_number_rounded :
  (annotate (numberDoc (integer 9007199254740993)) "v1.0.0"
     ≫= fun out => membersOf out !! "spec")
  = Some (VObj {[ "limit" := VNum (integer 9007199254740992) ]})
  ∧ annotate (numberDoc {| nneg := false; ndigits := 1; nexp := 400 |}) "v1.0.0" = None
  ∧ asFloat64 {| nneg := false; ndigits := 1; nexp := -1 |}
    = Some {| nneg := false; ndigits := 1; nexp := -1 |}.
Proof. vm_compute. done. Qed.

(** The annotations of a policy are lost in the same way. *)
Example annotations_dropped :
  ∃ out (meta : value),
    annotate policyDoc "v1.0.0" = Some out
    ∧ membersOf out !! "metadata" = Some meta
    ∧ membersOf meta !! "annotations" = None
    ∧ is_Some (membersOf policyDoc !! "metadata" ≫= fun meta0 =>
               membersOf meta0 !! "annotations").
Proof.
  eexists _, _. split; [vm_compute; reflexivity|].
  split; [vm_compute; reflexivity|]. split; [vm_compute; reflexivity|].
  vm_compute. by eexists.
Qed.

Lemma isEmptyMap_reread_spec mf : isEmptyMap (Spec (reread mf)) = isEmptyMap (Spec mf).
Proof. unfold reread. simpl. by destruct (isEmptyMap (Spec mf)) eqn:Hs. Qed.

(** Annotating an annotated manifest again changes nothing in the
    document. *)
Lemma encode_setLabels_twice mf tag :
  encodeManifest (setLabels (reread (setLabels mf tag)) tag)
  = encodeManifest (setLabels mf tag).
Proof.
  unfold encodeManifest. f_equal.
  assert (setLabels (reread (setLabels mf tag)) tag
          = {| APIVersion := APIVersion mf; Kind := Kind mf;
               Metadata := Metadata (setLabels mf tag);
               Spec := Spec (reread mf) |}) as ->.
  { unfold setLabels at 1. fold (labelsOf (reread (setLabels mf tag))).
    rewrite labelsOf_annotated. unfold setLabels. simpl. fold (labelsOf mf).
    do 3 f_equal. apply map_eq. intros k.
    rewrite !lookup_insert. by repeat case_decide. }
  cbn [APIVersion Kind Metadata Spec setLabels]. rewrite isEmptyMap_reread_spec.
  fold (specOf (reread mf)). fold (specOf mf). by rewrite specOf_reread.
Qed.

(** C7. For a document that the annotator accepts, the labels read from the
    annotated document are the labels of the input with the two keys set,
    every other label as it was, and annotating the annotated document with
    the same version again gives the same document, hence the same labels.
    The labels [{app: x}] annotated with [v2] become [{app: x, managed-by:
    kyverno-watcher, policy-version: v2}]. *)
Theorem C7_annotation_idempotent :
  (∀ doc tag mf, decodeManifest doc = Some mf →
     ∃ out1,
       annotate doc tag = Some out1
       ∧ labelsRead out1
         = Some (<["policy-version":=tag]> (<["managed-by":="kyverno-watcher"]> (labelsOf mf)))
       ∧ (∀ k labels1, labelsRead out1 = Some labels1 →
            k ≠ "managed-by" → k ≠ "policy-version" → labels1 !! k = labelsOf mf !! k)
       ∧ annotate out1 tag = Some out1)
  ∧ (annotate labelledDoc "v2" ≫= labelsRead)
    = Some {[ "app" := "x"; "managed-by" := "kyverno-watcher"; "policy-version" := "v2" ]}.
Proof.
  split.
  - intros doc tag mf Hdec. destruct (annotate_decoded doc tag mf Hdec) as [Hann Hre].
    exists (encodeManifest (setLabels mf tag)). split; [done|].
    assert (labelsRead (encodeManifest (setLabels mf tag))
            = Some (<["policy-version":=tag]>
                      (<["managed-by":="kyverno-watcher"]> (labelsOf mf)))) as Hlabels.
    { unfold labelsRead. rewrite Hre. simpl. by rewrite labelsOf_annotated. }
    split; [done|]. split.
    + intros k labels1. rewrite Hlabels. intros [= <-] Hm Hp.
      by rewrite !lookup_insert_ne.
    + unfold annotate. rewrite Hre. simpl. by rewrite encode_setLabels_twice.
  - vm_compute. reflexivity.
Qed.

Lemma C7_annotation_idempotent_witness :
  ∃ out1, annotate labelledDoc "v2" = Some out1 ∧ annotate out1 "v2" = Some out1.
Proof.
  destruct (proj1 C7_annotation_idempotent labelledDoc "v2"
              (default zeroManifest (decodeManifest labelledDoc)))
    as (out1 & Hout1 & _ & _ & Hout2).
  { vm_compute. reflexivity. }
  exists out1. exact (conj Hout1 Hout2).
Defined.

End Annotator.

(** ** White space and the marker *)

Section Trim.

Ltac to_N :=
  unfold isSpace1, isSpace2, isSpace3 in *; cbv zeta in *;
  repeat (progress (rewrite ?orb_true_iff, ?andb_true_iff, ?orb_false_iff, ?andb_false_iff,
                      ?N.eqb_eq, ?N.eqb_neq, ?N.leb_le, ?N.leb_gt in * )).

Lemma isSpace2_not1 a b : isSpace2 a b = true → isSpace1 a = false.
Proof. intros H. to_N. lia. Qed.

Lemma isSpace3_not1 a b c : isSpace3 a b c = true → isSpace1 a = false.
Proof. intros H. to_N. lia. Qed.

Lemma isSpace3_not2 a b c : isSpace3 a b c = true → isSpace2 a b = false.
Proof. intros H. to_N. lia. Qed.

Lemma isSpace2_last_not1 a b : isSpace2 a b = true → isSpace1 b = false.
Proof. intros H. to_N. lia. Qed.

Lemma isSpace3_last_not1 a b c : isSpace3 a b c = true → isSpace1 c = false.
Proof. intros H. to_N. lia. Qed.

Lemma isSpace3_last_not2 a b c : isSpace3 a b c = true → isSpace2 b c = false.
Proof. intros H. to_N. lia. Qed.

Lemma WhiteSpace_leads a s : WhiteSpace (String a s) → leads a.
Proof.
  unfold leads. inversion 1 as [|? ? H1|? ? ? H2|? ? ? ? H3]; subst; [by left|right..].
  - to_N. lia.
  - to_N. lia.
Qed.

Lemma leads_not_second a b : leads b → isSpace2 a b = false.
Proof. unfold leads. intros H. to_N. lia. Qed.

Lemma leads_not_third_b a b c : leads b → isSpace3 a b c = false.
Proof. unfold leads. intros H. to_N. lia. Qed.

Lemma leads_not_third_c a b c : leads c → isSpace3 a b c = false.
Proof. unfold leads. intros H. to_N. lia. Qed.

Lemma trimLeftSpace_skip pre s : WhiteSpace pre → trimLeftSpace (pre +:+ s) = trimLeftSpace s.
Proof.
  induction 1 as [|a p H1 _ IH|a b p H2 _ IH|a b c p H3 _ IH]; [done|..];
    rewrite !app_cons; cbn [trimLeftSpace].
  - by rewrite H1.
  - by rewrite (isSpace2_not1 a b H2), H2.
  - by rewrite (isSpace3_not1 a b c H3), (isSpace3_not2 a b c H3), H3.
Qed.

Lemma trimLeftSpace_all pre : WhiteSpace pre → trimLeftSpace pre = "".
Proof.
  intros H. rewrite <- (app_empty_r pre). by rewrite trimLeftSpace_skip.
Qed.

Lemma rev_app_spec s1 : ∀ s2, String.rev_app s1 s2 = String.rev s1 +:+ s2.
Proof.
  unfold String.rev. induction s1 as [|a s1 IH]; intros s2; [done|]. simpl.
  rewrite (IH (String a s2)), (IH (String a "")). by rewrite app_assoc_str.
Qed.

Lemma rev_cons a s : String.rev (String a s) = String.rev s +:+ String a "".
Proof. unfold String.rev at 1. simpl. by rewrite rev_app_spec. Qed.

Lemma rev_app_distr s : ∀ t, String.rev (s +:+ t) = String.rev t +:+ String.rev s.
Proof.
  induction s as [|a s IH]; intros t.
  - by rewrite app_empty_l, app_empty_r.
  - by rewrite app_cons, !rev_cons, IH, app_assoc_str.
Qed.

Lemma rev_involutive s : String.rev (String.rev s) = s.
Proof.
  induction s as [|a s IH]; [done|]. by rewrite rev_cons, rev_app_distr, IH.
Qed.

Lemma trimLeftSpaceRev_skip post : WhiteSpace post →
  ∀ t, trimLeftSpaceRev (String.rev post +:+ t) = trimLeftSpaceRev t.
Proof.
  induction 1 as [|a p H1 _ IH|a b p H2 _ IH|a b c p H3 _ IH]; intros t; [done|..];
    rewrite !rev_cons, !app_assoc_str, IH, !app_cons, ?app_empty_l; cbn [trimLeftSpaceRev].
  - by rewrite H1.
  - by rewrite (isSpace2_last_not1 a b H2), H2.
  - by rewrite (isSpace3_last_not1 a b c H3), (isSpace3_last_not2 a b c H3), H3.
Qed.

Lemma trimRightSpace_skip s post :
  WhiteSpace post → trimRightSpace (s +:+ post) = trimRightSpace s.
Proof.
  intros H. unfold trimRightSpace. by rewrite rev_app_distr, trimLeftSpaceRev_skip.
Qed.

Lemma trimLeftSpace_length s : (String.length (trimLeftSpace s) <= String.length s)%nat.
Proof.
  remember (String.length s) as n eqn:Hn. revert s Hn.
  induction n as [n IH] using lt_wf_ind. intros s ->.
  destruct s as [|a [|b [|c r]]]; cbn [trimLeftSpace]; [done|..].
  - destruct (isSpace1 a); simpl; lia.
  - destruct (isSpace1 a); [|destruct (isSpace2 a b); simpl; lia].
    specialize (IH (String.length (String b "")) ltac:(simpl; lia) (String b "") eq_refl). simpl in *. lia.
  - destruct (isSpace1 a).
    { specialize (IH (String.length (String b (String c r))) ltac:(simpl; lia) (String b (String c r)) eq_refl). simpl in *. lia. }
    destruct (isSpace2 a b).
    { specialize (IH (String.length (String c r)) ltac:(simpl; lia) (String c r) eq_refl). simpl in *. lia. }
    destruct (isSpace3 a b c); [|done].
    specialize (IH (String.length r) ltac:(simpl; lia) r eq_refl). simpl in *. lia.
Qed.

(** A string that trimming on the left leaves alone does not start with a
    white-space rune. *)
Lemma trimLeftSpace_fixed1 a r : trimLeftSpace (String a r) = String a r → isSpace1 a = false.
Proof.
  intros Hfix. destruct (isSpace1 a) eqn:H1; [|done]. exfalso.
  pose proof (trimLeftSpace_length r) as Hlen.
  cbn [trimLeftSpace] in Hfix. rewrite H1 in Hfix. rewrite Hfix in Hlen. simpl in Hlen. lia.
Qed.

Lemma trimLeftSpace_fixed2 a b r :
  trimLeftSpace (String a (String b r)) = String a (String b r) → isSpace2 a b = false.
Proof.
  intros Hfix. pose proof (trimLeftSpace_fixed1 _ _ Hfix) as H1.
  destruct (isSpace2 a b) eqn:H2; [|done]. exfalso.
  pose proof (trimLeftSpace_length r) as Hlen.
  cbn [trimLeftSpace] in Hfix. rewrite H1, H2 in Hfix. rewrite Hfix in Hlen. simpl in Hlen. lia.
Qed.

Lemma trimLeftSpace_fixed3 a b c r :
  trimLeftSpace (String a (String b (String c r))) = String a (String b (String c r)) →
  isSpace3 a b c = false.
Proof.
  intros Hfix. pose proof (trimLeftSpace_fixed1 _ _ Hfix) as H1.
  pose proof (trimLeftSpace_fixed2 _ _ _ Hfix) as H2.
  destruct (isSpace3 a b c) eqn:H3; [|done]. exfalso.
  pose proof (trimLeftSpace_length r) as Hlen.
  cbn [trimLeftSpace] in Hfix. rewrite H1, H2, H3 in Hfix. rewrite Hfix in Hlen.
  simpl in Hlen. lia.
Qed.

(** White space after a string that does not start with a white-space rune
    is not taken for the start of one. *)
Lemma trimLeftSpace_keep s post :
  trimLeftSpace s = s → s ≠ "" → WhiteSpace post →
  trimLeftSpace (s +:+ post) = s +:+ post.
Proof.
  intros Hfix Hne Hpost. destruct s as [|a r]; [done|].
  pose proof (trimLeftSpace_fixed1 _ _ Hfix) as H1.
  destruct r as [|b r2].
  - rewrite app_cons, app_empty_l. destruct post as [|b [|c p]]; cbn [trimLeftSpace]; rewrite H1.
    + done.
    + by rewrite (leads_not_second a b (WhiteSpace_leads _ _ Hpost)).
    + rewrite (leads_not_second a b (WhiteSpace_leads _ _ Hpost)).
      by rewrite (leads_not_third_b a b c (WhiteSpace_leads _ _ Hpost)).
  - pose proof (trimLeftSpace_fixed2 _ _ _ Hfix) as H2. destruct r2 as [|c r3].
    + rewrite !app_cons, app_empty_l. destruct post as [|c p]; cbn [trimLeftSpace]; rewrite H1, H2.
      * done.
      * by rewrite (leads_not_third_c a b c (WhiteSpace_leads _ _ Hpost)).
    + pose proof (trimLeftSpace_fixed3 _ _ _ _ Hfix) as H3.
      rewrite !app_cons. cbn [trimLeftSpace]. by rewrite H1, H2, H3.
Qed.

(** A string that [TrimSpace] leaves alone is left alone on both sides. *)
Lemma trimLeftSpaceRev_length s :
  (String.length (trimLeftSpaceRev s) <= String.length s)%nat.
Proof.
  remember (String.length s) as n eqn:Hn. revert s Hn.
  induction n as [n IH] using lt_wf_ind. intros s ->.
  destruct s as [|a [|b [|c r]]]; cbn [trimLeftSpaceRev]; [done|..].
  - destruct (isSpace1 a); simpl; lia.
  - destruct (isSpace1 a); [|destruct (isSpace2 b a); simpl; lia].
    specialize (IH (String.length (String b "")) ltac:(simpl; lia) (String b "") eq_refl). simpl in *. lia.
  - destruct (isSpace1 a).
    { specialize (IH (String.length (String b (String c r))) ltac:(simpl; lia) (String b (String c r)) eq_refl). simpl in *. lia. }
    destruct (isSpace2 b a).
    { specialize (IH (String.length (String c r)) ltac:(simpl; lia) (String c r) eq_refl). simpl in *. lia. }
    destruct (isSpace3 c b a); [|done].
    specialize (IH (String.length r) ltac:(simpl; lia) r eq_refl). simpl in *. lia.
Qed.

Lemma length_rev_str s : String.length (String.rev s) = String.length s.
Proof.
  induction s as [|a s IH]; [done|]. rewrite rev_cons, length_app_str, IH. simpl. lia.
Qed.

Lemma trimRightSpace_length s : (String.length (trimRightSpace s) <= String.length s)%nat.
Proof.
  unfold trimRightSpace. rewrite length_rev_str.
  etrans; [apply trimLeftSpaceRev_length|]. by rewrite length_rev_str.
Qed.

Lemma trimLeftSpace_eq a r1 :
  trimLeftSpace (String a r1)
  = if isSpace1 a then trimLeftSpace r1
    else match r1 with
         | String b r2 =>
             if isSpace2 a b then trimLeftSpace r2
             else match r2 with
                  | String c r3 =>
                      if isSpace3 a b c then trimLeftSpace r3 else String a r1
                  | EmptyString => String a r1
                  end
         | EmptyString => String a r1
         end.
Proof. reflexivity. Qed.

(** What trimming on the left removes is a prefix. *)
Lemma trimLeftSpace_suffix s : ∃ p, s = p +:+ trimLeftSpace s.
Proof.
  remember (String.length s) as n eqn:Hn. revert s Hn.
  induction n as [n IH] using lt_wf_ind. intros s ->.
  destruct s as [|a r1]; [by exists ""|]. rewrite trimLeftSpace_eq.
  destruct (isSpace1 a).
  { destruct (IH (String.length r1) ltac:(simpl; lia) r1 eq_refl) as [p Hp].
    exists (String a p). rewrite app_cons. by rewrite <- Hp. }
  destruct r1 as [|b r2]; [by exists ""|]. destruct (isSpace2 a b).
  { destruct (IH (String.length r2) ltac:(simpl; lia) r2 eq_refl) as [p Hp].
    exists (String a (String b p)). rewrite !app_cons. by rewrite <- Hp. }
  destruct r2 as [|c r3]; [by exists ""|]. destruct (isSpace3 a b c); [|by exists ""].
  destruct (IH (String.length r3) ltac:(simpl; lia) r3 eq_refl) as [p Hp].
  exists (String a (String b (String c p))). rewrite !app_cons. by rewrite <- Hp.
Qed.


Lemma TrimSpace_fixed s :
  TrimSpace s = s → trimLeftSpace s = s ∧ trimRightSpace s = s.
Proof.
  unfold TrimSpace. intros Hfix.
  assert (trimLeftSpace s = s) as Hl.
  { destruct (trimLeftSpace_suffix s) as [p Hp].
    pose proof (trimRightSpace_length (trimLeftSpace s)) as Hr.
    rewrite Hfix in Hr. pose proof (f_equal String.length Hp) as Hlen.
    rewrite length_app_str in Hlen.
    destruct p as [|x p]; [by rewrite app_empty_l in Hp|]. simpl in Hlen. lia. }
  split; [done|]. by rewrite Hl in Hfix.
Qed.

(** Trimming a trimmed string with white space around it gives the string
    back. *)
Lemma TrimSpace_surrounded pre s post :
  WhiteSpace pre → WhiteSpace post → TrimSpace s = s →
  TrimSpace (pre +:+ s +:+ post) = s.
Proof.
  intros Hpre Hpost [Hl Hr]%TrimSpace_fixed. unfold TrimSpace.
  rewrite trimLeftSpace_skip; [|done].
  destruct s as [|a r].
  - rewrite app_empty_l, (trimLeftSpace_all post Hpost). done.
  - rewrite trimLeftSpace_keep; [|done..]. by rewrite trimRightSpace_skip.
Qed.

Lemma TrimSpace_all s : WhiteSpace s → TrimSpace s = "".
Proof. intros H. unfold TrimSpace. by rewrite trimLeftSpace_all. Qed.

End Trim.

(** ** Configuration: the poll interval *)

Section PollInterval.

Ltac each_byte a :=
  destruct a as [[] [] [] [] [] [] [] []]; try discriminate; try reflexivity.




Lemma isDigit_not_sign a : isDigit a = true → isSign a = false.
Proof. each_byte a. Qed.
















Example poll_interval_prefix : loadPollInterval (envWithInterval "10abc") = 10.
Proof. reflexivity. Qed.

(** A numeric string beyond the range of [int] gives the default. *)
Example poll_interval_overflow :
  loadPollInterval (envWithInterval "9223372036854775808") = 30.
Proof. reflexivity. Qed.

(** Digits that do not come first do not count, and an underscore ends the
    number. *)
Example poll_interval_samples :
  loadPollInterval (envWithInterval "abc10") = 30
  ∧ loadPollInterval (envWithInterval "v2") = 30
  ∧ loadPollInterval (envWithInterval "--5") = 30
  ∧ loadPollInterval (envWithInterval "1_000") = 1
  ∧ loadPollInterval (envWithInterval "-5") = -5
  ∧ loadPollInterval (envWithInterval "+7 seconds") = 7.
Proof. repeat split. Qed.

End PollInterval.


(** ** The reconciliation loop *)

Section Loop.

Implicit Types (hooks : Hooks) (config : Config) (w : World) (latest : string).

Lemma readPrevTag_file config w marker :
  files w !! LastFile config = Some marker → readPrevTag config w = TrimSpace marker.
Proof. intros H. unfold readPrevTag, ReadFile. by rewrite H. Qed.

Lemma readPrevTag_absent config w :
  files w !! LastFile config = None → readPrevTag config w = "".
Proof. intros H. unfold readPrevTag, ReadFile. by rewrite H. Qed.

Lemma readPrevTag_empty config w : markerIsEmpty config w → readPrevTag config w = "".
Proof.
  unfold markerIsEmpty. destruct (files w !! LastFile config) as [marker|] eqn:Hm.
  - intros Hws. rewrite (readPrevTag_file _ _ _ Hm). by apply TrimSpace_all.
  - intros _. by apply readPrevTag_absent.
Qed.

Lemma reconcile_changed hooks config latest w :
  latest ≠ readPrevTag config w →
  reconcile hooks config latest w = applyChange hooks config latest (readPrevTag config w) w.
Proof.
  intros Hne. unfold reconcile. by apply String.eqb_neq in Hne as ->.
Qed.

Lemma reconcile_same hooks config latest w :
  latest = readPrevTag config w → reconcile hooks config latest w = noChange latest w.
Proof.
  intros Heq. unfold reconcile. by apply String.eqb_eq in Heq as ->.
Qed.

Lemma markerWrites_app config (a b : list Event) :
  markerWrites config (a ++ b) = (markerWrites config a + markerWrites config b)%nat.
Proof. unfold markerWrites. by rewrite List.filter_app, length_app. Qed.


(** What the call of the pull hook adds to the world. *)
Lemma pullStep_keeps hooks config latest prevTag w :
  keepsMarker config (pullImageToDirFunc hooks config latest (destDirFor latest)) →
  ∃ evs, trace (pullStep hooks config latest prevTag w).2 = trace w ++ evs
         ∧ markerWrites config evs = 0%nat
         ∧ EvPull latest (destDirFor latest) ∈ evs
         ∧ files (pullStep hooks config latest prevTag w).2 !! LastFile config
           = files w !! LastFile config.
Proof.
  intros Hkeep. unfold pullStep.
  destruct (Hkeep (emit (EvPull latest (destDirFor latest))
                     (logf ("Detected change: previous='" +:+ prevTag +:+ "' new='"
                            +:+ latest +:+ "'") w))) as (evs & Htr & Hw & Hf).
  eexists (_ :: _ :: evs). rewrite Htr, Hf. simpl. rewrite <- !app_assoc. simpl.
  split; [done|]. split; [|split; [|done]].
  - exact Hw.
  - apply elem_of_cons. right. apply elem_of_cons. by left.
Qed.

Lemma applyStep_keeps hooks config latest w :
  keepsMarker config (applyManifestsFunc hooks config (destDirFor latest)) →
  ∃ evs, trace (applyStep hooks config latest w).2 = trace w ++ evs
         ∧ markerWrites config evs = 0%nat
         ∧ files (applyStep hooks config latest w).2 !! LastFile config
           = files w !! LastFile config.
Proof.
  intros Hkeep. unfold applyStep.
  destruct (Hkeep (emit (EvApply (destDirFor latest)) w)) as (evs & Htr & Hw & Hf).
  eexists (_ :: evs). rewrite Htr, Hf. simpl. rewrite <- !app_assoc. simpl.
  split; [done|]. split; [exact Hw|done].
Qed.

Lemma applyChange_pulls hooks config latest prevTag w :
  hooksKeepMarker config hooks →
  ∃ evs, trace (applyChange hooks config latest prevTag w).2 = trace w ++ evs
         ∧ EvPull latest (destDirFor latest) ∈ evs.
Proof.
  intros Hkeep. destruct (Hkeep latest) as [Hpull Happly].
  destruct (pullStep_keeps hooks config latest prevTag w Hpull) as (evs1 & Ht1 & _ & Hin & _).
  unfold applyChange.
  destruct (pullStep hooks config latest prevTag w) as [[e|] w1]; simpl in *; [by eauto|].
  destruct (applyStep_keeps hooks config latest w1 Happly) as (evs2 & Ht2 & _ & _).
  destruct (applyStep hooks config latest w1) as [[e|] w2]; simpl in *.
  - exists (evs1 ++ evs2). rewrite Ht2, Ht1, <- app_assoc. split; [done|].
    apply elem_of_app. by left.
  - pose proof (WriteFile_trace (LastFile config) latest w2) as Ht3.
    destruct (WriteFile (LastFile config) latest w2) as [[e|] w3]; simpl in *;
      (exists (evs1 ++ evs2 ++ [EvWriteFile (LastFile config) latest]);
       rewrite Ht3, Ht2, Ht1, <- !app_assoc; split; [done|];
       apply elem_of_app; by left).
Qed.

(** C8. When the marker is empty (no file, or white space only) and a
    version is resolved, a version that is not the empty string takes the
    branch for a change, whose first call is the pull; an empty version
    compares equal to the empty marker and the iteration ends with "No
    change". *)
Theorem C8_empty_marker_comparison hooks config latest w :
  markerIsEmpty config w →
  resolveVersion config w = Resolved latest →
  (latest ≠ "" →
     watchLoop hooks config w = applyChange hooks config latest "" w
     ∧ (hooksKeepMarker config hooks →
        ∃ evs, trace (watchLoop hooks config w).2 = trace w ++ evs
               ∧ EvPull latest (destDirFor latest) ∈ evs))
  ∧ (latest = "" → watchLoop hooks config w = noChange "" w).
Proof.
  intros Hempty Hres. pose proof (readPrevTag_empty config w Hempty) as Hprev.
  unfold watchLoop. rewrite Hres. split.
  - intros Hne. rewrite reconcile_changed, Hprev; [|by rewrite Hprev].
    split; [done|]. intros Hkeep. by apply applyChange_pulls.
  - intros ->. by rewrite reconcile_same.
Qed.

(** C10, amended. When the marker file holds the resolved version with
    white space before and after it, and the resolved version itself neither
    starts nor ends with white space, the comparison finds no change: the
    iteration logs "No change" and calls neither hook nor writes. *)
Theorem C10_marker_whitespace hooks config latest marker pre post w :
  files w !! LastFile config = Some marker →
  WhiteSpace pre → WhiteSpace post →
  marker = pre +:+ latest +:+ post →
  TrimSpace latest = latest →
  reconcile hooks config latest w = noChange latest w
  ∧ (resolveVersion config w = Resolved latest →
     watchLoop hooks config w = noChange latest w).
Proof.
  intros Hfile Hpre Hpost -> Htrim.
  assert (reconcile hooks config latest w = noChange latest w) as Hrec.
  { apply reconcile_same. rewrite (readPrevTag_file _ _ _ Hfile).
    by rewrite TrimSpace_surrounded. }
  split; [done|]. intros Hres. unfold watchLoop. by rewrite Hres.
Qed.

(** *** The hooks of [main.go] leave the marker alone *)

Lemma keeps_refl config w : keeps config w w.
Proof. exists []. by rewrite app_nil_r. Qed.

Lemma keeps_trans config w1 w2 w3 :
  keeps config w1 w2 → keeps config w2 w3 → keeps config w1 w3.
Proof.
  intros (evs1 & Ht1 & Hw1 & Hf1) (evs2 & Ht2 & Hw2 & Hf2).
  exists (evs1 ++ evs2). rewrite Ht2, Ht1, <- app_assoc, markerWrites_app, Hw1, Hw2.
  split; [done|]. split; [done|]. by rewrite Hf2.
Qed.

Lemma keeps_log config msg w : keeps config w (logf msg w).
Proof. by exists [EvLog msg]. Qed.

Lemma keeps_exec config cmd w : keeps config w (emit (EvExec cmd) w).
Proof. by exists [EvExec cmd]. Qed.

Lemma keeps_WriteFile config path data w :
  path ≠ LastFile config → keeps config w (WriteFile path data w).2.
Proof.
  intros Hne. exists [EvWriteFile path data]. rewrite WriteFile_trace.
  split; [done|]. split.
  - unfold markerWrites. simpl. by apply String.eqb_neq in Hne as ->.
  - by apply WriteFile_frame.
Qed.

Lemma keeps_RemoveAll config path w :
  isUnder path (LastFile config) = false → keeps config w (RemoveAll path w).2.
Proof.
  intros Hout. exists []. rewrite app_nil_r. unfold RemoveAll. simpl.
  split; [done|]. split; [done|].
  destruct (files w !! LastFile config) as [data|] eqn:Hf.
  - apply map_lookup_filter_Some. split; [done|]. simpl. by rewrite Hout.
  - apply map_lookup_filter_None. by left.
Qed.

Lemma keeps_MkdirAll config path w : keeps config w (MkdirAll path w).2.
Proof.
  destruct (MkdirAll path w) as [err w'] eqn:Hmk.
  destruct (MkdirAll_effect _ _ _ _ Hmk) as ((Hfiles & _ & _ & _ & _ & _ & Htrace & _) & _).
  exists []. simpl. by rewrite app_nil_r, Htrace, Hfiles.
Qed.

Lemma keeps_prepareDestDir config destDir w :
  isUnder destDir (LastFile config) = false → keeps config w (prepareDestDir destDir w).2.
Proof.
  intros Hout. unfold prepareDestDir.
  pose proof (keeps_RemoveAll config destDir w Hout) as Hrm.
  destruct (RemoveAll destDir w) as [[e|] w1]; simpl in *.
  - eapply keeps_trans; [exact Hrm|]. eapply keeps_trans; [apply keeps_log|].
    apply keeps_MkdirAll.
  - eapply keeps_trans; [exact Hrm|]. apply keeps_MkdirAll.
Qed.

Lemma keeps_labelOne config codec tag w file :
  file ≠ LastFile config → keeps config w (labelOne codec tag w file).
Proof.
  intros Hne. unfold labelOne, addLabelsToManifest.
  destruct (ReadFile file w) as [data [e|]]; [apply keeps_log|].
  destruct (addLabelsToYAML codec data tag) as [updated [e|]]; [apply keeps_log|].
  pose proof (keeps_WriteFile config file updated w Hne) as Hwr.
  destruct (WriteFile file updated w) as [[e|] w1]; simpl in *; [|done].
  eapply keeps_trans; [exact Hwr|apply keeps_log].
Qed.

Lemma keeps_labelAll config codec tag found : ∀ w,
  Forall (fun file => file ≠ LastFile config) found →
  keeps config w (foldl (labelOne codec tag) w found).
Proof.
  induction found as [|file found IH]; intros w Hall; simpl; [apply keeps_refl|].
  inversion Hall as [|? ? Hne Hrest]; subst.
  eapply keeps_trans; [by apply keeps_labelOne|]. by apply IH.
Qed.

Lemma found_outside config dir w found :
  isUnder dir (LastFile config) = false →
  findYAMLFiles dir w = (found, None) →
  Forall (fun file => file ≠ LastFile config) found.
Proof.
  intros Hout Hwalk. apply Forall_forall. intros file Hin ->.
  apply (findYAMLFiles_spec dir w found Hwalk) in Hin as (_ & _ & Hu & _). congruence.
Qed.

Lemma keeps_fetchAndLabel config codec net tag destDir w :
  isUnder destDir (LastFile config) = false →
  keepsMarker config (orasPullFunc net config destDir) →
  keepsMarker config (pullOCI net (ImageBase config +:+ ":" +:+ tag) destDir) →
  keeps config w (fetchAndLabel codec net config tag destDir w).2.
Proof.
  intros Hout Horas Hoci. unfold fetchAndLabel.
  set (fetched := if String.eqb (Provider config) "artifactory" then _ else _).
  assert (keeps config w fetched.2) as Hfetch.
  { subst fetched. destruct (String.eqb (Provider config) "artifactory").
    - match goal with |- context [orasPullFunc net config destDir ?w0] =>
        pose proof (Horas w0) as Hk; destruct (orasPullFunc net config destDir w0) as [[e|] w1]
      end; simpl in *; (eapply keeps_trans; [apply keeps_log|exact Hk]).
    - match goal with |- context [pullOCI net ?ref destDir ?w0] =>
        pose proof (Hoci w0) as Hk; destruct (pullOCI net ref destDir w0) as [[e|] w1]
      end; simpl in *; (eapply keeps_trans; [apply keeps_log|exact Hk]). }
  destruct fetched as [[e|] w1]; simpl in *; [done|].
  destruct (findYAMLFiles destDir w1) as [found [e|]] eqn:Hwalk; simpl; [done|].
  eapply keeps_trans; [exact Hfetch|].
  apply keeps_labelAll. by eapply found_outside.
Qed.

Lemma keeps_pullImageToDirReal config codec net tag destDir :
  isUnder destDir (LastFile config) = false →
  keepsMarker config (orasPullFunc net config destDir) →
  keepsMarker config (pullOCI net (ImageBase config +:+ ":" +:+ tag) destDir) →
  keepsMarker config (pullImageToDirReal codec net config tag destDir).
Proof.
  intros Hout Horas Hoci w. unfold pullImageToDirReal.
  pose proof (keeps_prepareDestDir config destDir w Hout) as Hprep.
  destruct (prepareDestDir destDir w) as [[e|] w1]; simpl in *; [done|].
  eapply keeps_trans; [exact Hprep|]. by apply keeps_fetchAndLabel.
Qed.

Lemma keeps_applyAll config found : ∀ w, keeps config w (foldl applyOne w found).
Proof.
  induction found as [|file found IH]; intros w; simpl; [apply keeps_refl|].
  eapply keeps_trans; [|apply IH]. unfold applyOne.
  eapply keeps_trans; [apply keeps_log|].
  eapply keeps_trans; [apply keeps_exec|].
  destruct (negb _); [apply keeps_log|apply keeps_refl].
Qed.

Lemma keeps_applyManifestsReal config dir : keepsMarker config (applyManifestsReal config dir).
Proof.
  intros w. unfold applyManifestsReal.
  destruct (findYAMLFiles dir w) as [found [e|]]; simpl; [apply keeps_refl|].
  destruct (length found =? 0)%nat; simpl; [apply keeps_log|].
  eapply keeps_trans; [apply keeps_log|apply keeps_applyAll].
Qed.

(** The destination directories lie outside the state directory that
    [loadConfig] sets up. *)
Lemma destDir_outside_state latest :
  isUnder (destDirFor latest) "/tmp/kyverno-watcher/last_seen" = false.
Proof.
  apply not_true_is_false. intros [Heq|[t Heq]]%isUnder_spec;
    unfold destDirFor in Heq; rewrite ?app_assoc_str, !app_cons in Heq; discriminate.
Qed.

(** With transports that leave the marker alone, so do the hooks that
    [main.go] installs. *)
Lemma realHooks_keep_marker config codec net :
  LastFile config = "/tmp/kyverno-watcher/last_seen" →
  (∀ destDir, keepsMarker config (orasPullFunc net config destDir)) →
  (∀ ref destDir, keepsMarker config (pullOCI net ref destDir)) →
  hooksKeepMarker config (realHooks codec net).
Proof.
  intros Hlast Horas Hoci latest. split; simpl.
  - apply keeps_pullImageToDirReal; [|done..]. rewrite Hlast. apply destDir_outside_state.
  - apply keeps_applyManifestsReal.
Qed.


Lemma C8_empty_marker_witness :
  watchLoop idleHooks (artifactoryConfig "registry.example.com/repo/image:1.0.0")
            (markerWorld None)
  = applyChange idleHooks (artifactoryConfig "registry.example.com/repo/image:1.0.0")
                "1.0.0" "" (markerWorld None).
Proof.
  apply (C8_empty_marker_comparison idleHooks
           (artifactoryConfig "registry.example.com/repo/image:1.0.0") "1.0.0"
           (markerWorld None)).
  - vm_compute. exact I.
  - reflexivity.
  - discriminate.
Defined.

Lemma C10_marker_whitespace_witness :
  watchLoop idleHooks (artifactoryConfig "registry.example.com/repo/image:v1.2.0")
            (markerWorld (Some (" v1.2.0" +:+ String "010" "")))
  = noChange "v1.2.0" (markerWorld (Some (" v1.2.0" +:+ String "010" ""))).
Proof.
  apply (C10_marker_whitespace idleHooks
           (artifactoryConfig "registry.example.com/repo/image:v1.2.0") "v1.2.0"
           (" v1.2.0" +:+ String "010" "") " " (String "010" "")
           (markerWorld (Some (" v1.2.0" +:+ String "010" "")))).
  - reflexivity.
  - apply ws_rune1; [reflexivity|apply ws_empty].
  - apply ws_rune1; [reflexivity|apply ws_empty].
  - reflexivity.
  - reflexivity.
  - reflexivity.
Defined.

(** A resolved version that ends with a space is written as it is, read
    back without the space, and found changed: the marker that the loop has
    written itself does not stop the next pull. *)
Lemma C10_counterexample :
  ¬ whitespaceVariantIsNoChange idleHooks
      (artifactoryConfig "registry.example.com/repo/image:v1 ") "v1 "
      (markerWorld (Some "v1 ")).
Proof.
  intros Hstated.
  specialize (Hstated "v1 " "" "" eq_refl ws_empty ws_empty eq_refl).
  apply (f_equal (fun r => length (trace r.2))) in Hstated.
  vm_compute in Hstated. discriminate.
Qed.

(** Two rounds of the loop on that reference, starting without a marker:
    both rounds pull. *)
Example trailing_space_pulls_again :
  List.filter (fun e => match e with EvPull _ _ => true | _ => false end)
    (trace (mainLoop 2 idleHooks (artifactoryConfig "registry.example.com/repo/image:v1 ")
              (markerWorld None)))
  = [EvPull "v1 " "/tmp/image-v1 "; EvPull "v1 " "/tmp/image-v1 "].
Proof. vm_compute. reflexivity. Qed.



(** Scenario 1 of the specification: no marker, version resolved, both
    hooks succeed; the marker then holds the version. *)
Example first_round_persists :
  let '(err, w') :=
    watchLoop idleHooks (artifactoryConfig "registry.example.com/repo/image:1.0.0")
              (markerWorld None) in
  err = None
  ∧ files w' !! "/tmp/kyverno-watcher/last_seen" = Some "1.0.0"
  ∧ trace w' = [EvLog "Detected change: previous='' new='1.0.0'";
                EvPull "1.0.0" "/tmp/image-1.0.0";
                EvApply "/tmp/image-1.0.0";
                EvWriteFile "/tmp/kyverno-watcher/last_seen" "1.0.0"].
Proof. vm_compute. done. Qed.

End Loop.

(** ** Direct-reference mode *)

Section DirectReference.

Lemma Split_nonempty s sep : Split s sep ≠ [].
Proof.
  destruct s as [|a r]; simpl; [done|].
  destruct (Ascii.eqb a sep); [done|]. by destruct (Split r sep).
Qed.

Lemma Split_noByte s sep : noByte sep s = true → Split s sep = [s].
Proof.
  induction s as [|a r IH]; simpl; [done|].
  intros [Ha Hr]%andb_true_iff. apply negb_true_iff in Ha. rewrite Ha.
  by rewrite (IH Hr).
Qed.

(** The pieces around one separator are the pieces before it and the pieces
    after it. *)
Lemma Split_app_sep pre sep t :
  Split (pre +:+ String sep t) sep = Split pre sep ++ Split t sep.
Proof.
  induction pre as [|a p IH].
  - rewrite app_empty_l. simpl. by rewrite Ascii.eqb_refl.
  - rewrite app_cons. simpl. destruct (Ascii.eqb a sep); [by rewrite IH|].
    rewrite IH. pose proof (Split_nonempty p sep).
    by destruct (Split p sep).
Qed.

Lemma last_app_singleton {A} (l : list A) (x d : A) : List.last (l ++ [x]) d = x.
Proof. apply List.last_last. Qed.

(** In direct-reference mode the resolved version is what follows the last
    colon of the reference, and the resolution fails exactly when the
    reference has no colon. *)
Lemma resolveVersion_direct config w :
  Provider config ≠ "github" →
  (noByte ":" (ImageBase config) = true →
   ∃ e, resolveVersion config w = ResolveFailed e)
  ∧ (∀ pre t, ImageBase config = pre +:+ String ":" t → noByte ":" t = true →
       resolveVersion config w = Resolved t).
Proof.
  intros Hprov. unfold resolveVersion. apply String.eqb_neq in Hprov as ->. split.
  - intros Hno. rewrite (Split_noByte _ _ Hno). simpl. by eexists.
  - intros pre t -> Hno. rewrite Split_app_sep, (Split_noByte _ _ Hno).
    rewrite last_app_singleton, length_app. simpl.
    destruct (Nat.ltb_spec (length (Split pre ":") + 1) 2) as [Hlt|]; [|done].
    pose proof (Split_nonempty pre ":"). destruct (Split pre ":"); [done|]. simpl in Hlt. lia.
Qed.

Lemma last_cons_nonempty {A} (x d : A) (l : list A) :
  l ≠ [] → List.last (x :: l) d = List.last l d.
Proof. by destruct l. Qed.

(** The last piece of a split is a suffix without the separator; with two
    pieces or more, a separator stands right before it. *)
Lemma Split_last s sep :
  ∃ pre, s = pre +:+ List.last (Split s sep) ""
         ∧ noByte sep (List.last (Split s sep) "") = true
         ∧ (length (Split s sep) = 1%nat → pre = "")
         ∧ ((2 <= length (Split s sep))%nat → ∃ pre', pre = pre' +:+ String sep "").
Proof.
  induction s as [|a r (pre & Hr & Hno & Hone & Htwo)].
  - exists "". simpl. repeat split; try done. lia.
  - pose proof (Split_nonempty r sep) as Hne. simpl.
    destruct (Ascii.eqb a sep) eqn:Ha.
    + apply Ascii.eqb_eq in Ha as ->. rewrite last_cons_nonempty; [|done].
      exists (String sep pre). rewrite app_cons, <- Hr.
      split; [done|]. split; [done|]. split.
      * simpl. destruct (Split r sep); [done|]. simpl. lia.
      * intros _. destruct (Split r sep) as [|x [|y l]] eqn:Hs; [done|..].
        -- rewrite Hone; [|done]. by exists "".
        -- destruct Htwo as [pre' ->]; [simpl; lia|]. by exists (String sep pre').
    + destruct (Split r sep) as [|x [|y l]] eqn:Hs; [done|..].
      * exists "". simpl in *. rewrite (Hone eq_refl), app_empty_l in Hr. subst x.
        rewrite Ha. simpl. repeat split; try done. lia.
      * exists (String a pre). rewrite app_cons.
        change (List.last (String a x :: y :: l) "") with (List.last (x :: y :: l) "").
        rewrite <- Hr. split; [done|]. split; [done|]. split; [simpl; lia|].
        intros _. destruct Htwo as [pre' ->]; [simpl; lia|]. by exists (String a pre').
Qed.

(** A reference whose last path element has a tag resolves to that tag. *)
Lemma resolveVersion_tagged config w t :
  Provider config ≠ "github" →
  tagSegment (ImageBase config) = Some t →
  resolveVersion config w = Resolved t.
Proof.
  intros Hprov. unfold tagSegment.
  destruct (Split_last (ImageBase config) "/") as (dir & Href & _ & _ & _).
  set (element := List.last (Split (ImageBase config) "/") "") in *.
  destruct (Split_last element ":") as (pre & Hel & Hno & _ & Htwo).
  destruct (Split element ":") as [|x [|y l]] eqn:Hs; [done..|].
  intros [= <-]. destruct Htwo as [pre' ->]; [simpl; lia|].
  apply (proj2 (resolveVersion_direct config w Hprov) (dir +:+ pre')); [|done].
  rewrite Href, Hel. by rewrite !app_assoc_str.
Qed.

(** C5. The reference "registry.example.com:5000/repo/image" carries no tag,
    only a registry port; [watchLoop] does not fail with the configuration
    error but resolves the text after the colon as the version and goes on
    to pull it. *)
Theorem C5_port_taken_for_tag :
  let config := artifactoryConfig "registry.example.com:5000/repo/image" in
  tagSegment (ImageBase config) = None
  ∧ resolveVersion config (markerWorld None) = Resolved "5000/repo/image"
  ∧ trace (watchLoop idleHooks config (markerWorld None)).2
    = [EvLog "Detected change: previous='' new='5000/repo/image'";
       EvPull "5000/repo/image" "/tmp/image-5000_repo_image";
       EvApply "/tmp/image-5000_repo_image";
       EvWriteFile "/tmp/kyverno-watcher/last_seen" "5000/repo/image"].
Proof. vm_compute. done. Qed.

(** A reference with a port and a tag, and a reference without any
    colon. *)
Example tagged_reference :
  tagSegment "registry.example.com:5000/repo/image:1.0.0" = Some "1.0.0"
  ∧ resolveVersion (artifactoryConfig "registry.example.com:5000/repo/image:1.0.0")
      (markerWorld None) = Resolved "1.0.0"
  ∧ tagSegment "registry.example.com/repo/image" = None
  ∧ resolveVersion (artifactoryConfig "registry.example.com/repo/image") (markerWorld None)
    = ResolveFailed (Errorf "IMAGE_BASE for artifactory must include a tag (e.g., registry/path:tag)").
Proof. vm_compute. done. Qed.

End DirectReference.

(** * Further properties of [main.go] *)

(** ** Image references *)

Section References.

Lemma JoinStr_cons x y l sep : JoinStr (x :: y :: l) sep = x +:+ sep +:+ JoinStr (y :: l) sep.
Proof. reflexivity. Qed.

(** [strings.Join] undoes [strings.Split]. *)
Lemma JoinStr_Split s sep : JoinStr (Split s sep) (String sep "") = s.
Proof.
  induction s as [|a r IH]; [done|]. simpl.
  pose proof (Split_nonempty r sep) as Hne.
  destruct (Ascii.eqb a sep) eqn:Ha.
  - apply Ascii.eqb_eq in Ha as ->. destruct (Split r sep) as [|y l] eqn:Hs; [done|].
    rewrite JoinStr_cons, IH. by rewrite app_empty_l, app_cons, app_empty_l.
  - destruct (Split r sep) as [|y [|z l]] eqn:Hs; [done|..].
    + simpl in *. by rewrite IH.
    + rewrite JoinStr_cons in *. rewrite app_cons. by rewrite IH.
Qed.

Lemma noByte_app c s : ∀ t, noByte c (s +:+ t) = noByte c s && noByte c t.
Proof.
  induction s as [|a s IH]; intros t; [done|]. rewrite app_cons. simpl.
  by rewrite IH, andb_assoc.
Qed.

Lemma Split_head_noByte base sep rest :
  noByte sep base = true → List.hd "" (Split (base +:+ String sep rest) sep) = base.
Proof. intros Hno. by rewrite Split_app_sep, (Split_noByte _ _ Hno). Qed.

Lemma parseImageBase_base host owner package :
  noByte ":" (host +:+ "/" +:+ owner +:+ "/" +:+ package) = true →
  noByte "/" host = true → noByte "/" owner = true →
  owner ≠ "" → package ≠ "" →
  ∀ ref, List.hd "" (Split ref ":") = host +:+ "/" +:+ owner +:+ "/" +:+ package →
  parseImageBase ref = (owner, package, None).
Proof.
  intros Hcolon Hhost Howner Hne1 Hne2 ref Hhd. unfold parseImageBase. rewrite Hhd.
  change (host +:+ "/" +:+ owner +:+ "/" +:+ package)
    with (host +:+ String "/" (owner +:+ String "/" package)).
  rewrite !Split_app_sep, (Split_noByte _ _ Hhost), (Split_noByte _ _ Howner).
  pose proof (Split_nonempty package "/") as Hne.
  pose proof (JoinStr_Split package "/") as Hjoin.
  destruct (Split package "/") as [|p ps]; [done|]. cbn -[JoinStr String.eqb].
  rewrite Hjoin.
  apply String.eqb_neq in Hne1 as ->. by apply String.eqb_neq in Hne2 as ->.
Qed.

(** X1. A reference [host/owner/package], where the package may have
    further slashes, gives that owner and that package, with or without a
    [:tag] after it. *)
Theorem X1_parseImageBase_accepts host owner package :
  noByte ":" (host +:+ "/" +:+ owner +:+ "/" +:+ package) = true →
  noByte "/" host = true → noByte "/" owner = true →
  owner ≠ "" → package ≠ "" →
  parseImageBase (host +:+ "/" +:+ owner +:+ "/" +:+ package) = (owner, package, None)
  ∧ ∀ tag, parseImageBase ((host +:+ "/" +:+ owner +:+ "/" +:+ package) +:+ ":" +:+ tag)
           = (owner, package, None).
Proof.
  intros Hcolon Hhost Howner Hne1 Hne2. split.
  - apply (parseImageBase_base host owner package); try done.
    by rewrite (Split_noByte _ _ Hcolon).
  - intros tag. apply (parseImageBase_base host owner package); try done.
    by apply Split_head_noByte.
Qed.

Lemma X1_parseImageBase_witness :
  parseImageBase "ghcr.io/octokode/policies/sub" = ("octokode", "policies/sub", None)
  ∧ parseImageBase "ghcr.io/octokode/policies/sub:v0.0.1" = ("octokode", "policies/sub", None).
Proof.
  destruct (X1_parseImageBase_accepts "ghcr.io" "octokode" "policies/sub")
    as [Hplain Htagged]; [reflexivity|reflexivity|reflexivity|discriminate|discriminate|].
  split; [exact Hplain|exact (Htagged "v0.0.1")].
Defined.

Lemma Split_pieces_noByte s sep : Forall (fun p => noByte sep p = true) (Split s sep).
Proof.
  induction s as [|a r IH]; simpl; [by repeat constructor|].
  destruct (Ascii.eqb a sep) eqn:Ha; [by constructor|].
  destruct (Split r sep) as [|p ps]; [by repeat constructor; simpl; rewrite Ha|].
  inversion IH as [|? ? Hp Hps]; subst. constructor; [|done]. simpl. by rewrite Ha, Hp.
Qed.

Lemma Split_head_clean s sep : noByte sep (List.hd "" (Split s sep)) = true.
Proof.
  pose proof (Split_pieces_noByte s sep) as Hall.
  destruct (Split s sep); [done|]. by inversion Hall.
Qed.

Lemma length_Split s sep : length (Split s sep) = S (countByte sep s).
Proof.
  induction s as [|a r IH]; simpl; [done|].
  destruct (Ascii.eqb a sep); simpl; [by rewrite IH|].
  pose proof (Split_nonempty r sep). destruct (Split r sep); [done|]. simpl in *. lia.
Qed.

Lemma parseImageBase_shape ref owner package :
  parseImageBase ref = (owner, package, None) →
  ∃ host,
    List.hd "" (Split ref ":") = host +:+ "/" +:+ owner +:+ "/" +:+ package
    ∧ noByte "/" host = true ∧ noByte "/" owner = true
    ∧ owner ≠ "" ∧ package ≠ ""
    ∧ noByte ":" owner = true ∧ noByte ":" package = true.
Proof.
  unfold parseImageBase. set (base := List.hd "" (Split ref ":")).
  pose proof (Split_head_clean ref ":") as Hclean. fold base in Hclean.
  pose proof (JoinStr_Split base "/") as Hjoin.
  pose proof (Split_pieces_noByte base "/") as Hpieces.
  destruct (Split base "/") as [|h [|o [|p ps]]]; try done.
  cbn -[JoinStr String.eqb]. rewrite !JoinStr_cons in Hjoin.
  destruct (String.eqb o "") eqn:Ho; [done|].
  destruct (String.eqb (JoinStr (p :: ps) "/") "") eqn:Hp; [done|].
  simpl. intros [= <- <-]. exists h.
  apply String.eqb_neq in Ho, Hp.
  inversion Hpieces as [|? ? Hh Hrest]; subst. inversion Hrest as [|? ? Hown _]; subst.
  rewrite <- Hjoin in Hclean.
  change (h +:+ "/" +:+ o +:+ "/" +:+ JoinStr (p :: ps) "/")
    with (h +:+ String "/" (o +:+ String "/" (JoinStr (p :: ps) "/"))) in Hclean.
  rewrite noByte_app in Hclean. apply andb_true_iff in Hclean as [_ Hclean].
  simpl in Hclean. rewrite noByte_app in Hclean.
  apply andb_true_iff in Hclean as [Hoc Hpc]. simpl in Hpc.
  by repeat split.
Qed.

(** X2. What [parseImageBase] accepts has the shape [host/owner/package]
    before its first colon: the owner is the second piece, not empty and
    without a slash, the package is all that follows the second slash and
    not empty, and neither has a colon. *)
Theorem X2_parseImageBase_sound ref owner package :
  parseImageBase ref = (owner, package, None) →
  ∃ host,
    List.hd "" (Split ref ":") = host +:+ "/" +:+ owner +:+ "/" +:+ package
    ∧ noByte "/" host = true ∧ noByte "/" owner = true
    ∧ owner ≠ "" ∧ package ≠ ""
    ∧ noByte ":" owner = true ∧ noByte ":" package = true.
Proof. apply parseImageBase_shape. Qed.

Lemma X2_parseImageBase_witness :
  ∃ host, "ghcr.io/myoung34/kyverno-test/policies"
          = host +:+ "/" +:+ "myoung34" +:+ "/" +:+ "kyverno-test/policies".
Proof.
  destruct (X2_parseImageBase_sound "ghcr.io/myoung34/kyverno-test/policies:v0.0.1"
              "myoung34" "kyverno-test/policies" eq_refl) as (host & Hshape & _).
  exists host. exact Hshape.
Defined.

(** X3. A reference with fewer than two slashes before its first colon is
    rejected with empty results. A registry with a port is such a reference:
    the first colon ends the host. *)
Theorem X3_parseImageBase_rejects ref :
  (countByte "/" (List.hd "" (Split ref ":")) < 2)%nat →
  ∃ e, parseImageBase ref = ("", "", Some e).
Proof.
  intros Hfew. unfold parseImageBase. rewrite length_Split.
  destruct (Nat.ltb_spec (S (countByte "/" (List.hd "" (Split ref ":")))) 3); [|lia].
  by eexists.
Qed.

Lemma X3_parseImageBase_witness :
  ∃ e, parseImageBase "registry.example.com:5000/owner/package" = ("", "", Some e).
Proof.
  apply (X3_parseImageBase_rejects "registry.example.com:5000/owner/package").
  vm_compute. lia.
Defined.

Lemma lastIndex_Split c s :
  match lastIndex c s with
  | None => Split s c = [s]
  | Some i => dropBytes (S i) s = List.last (Split s c) ""
              ∧ (2 <= length (Split s c))%nat
  end.
Proof.
  induction s as [|a r IH]; simpl; [done|].
  pose proof (Split_nonempty r c) as Hne.
  destruct (lastIndex c r) as [i|].
  - destruct IH as [IH Hlen]. destruct (Ascii.eqb a c).
    + rewrite last_cons_nonempty; [|done]. split; [done|]. simpl. lia.
    + destruct (Split r c) as [|p [|q ps]]; [done|simpl in Hlen; lia|].
      split; [done|]. simpl. lia.
  - rewrite IH. destruct (Ascii.eqb a c); [|done]. split; [done|]. simpl. lia.
Qed.

(** X4. In direct-reference mode the tag that [orasPull] copies is the
    version that [watchLoop] has resolved, except for a reference whose only
    colon is its first byte: there [orasPull] takes the whole reference for
    the tag. *)
Theorem X4_orasTag_is_resolved_version config w latest :
  Provider config ≠ "github" →
  resolveVersion config w = Resolved latest →
  ((∃ i, lastIndex ":" (ImageBase config) = Some (S i)) → orasTag (ImageBase config) = latest)
  ∧ (lastIndex ":" (ImageBase config) = Some O →
     orasTag (ImageBase config) = ImageBase config
     ∧ ImageBase config = ":" +:+ latest).
Proof.
  intros Hprov. unfold resolveVersion, orasTag.
  apply String.eqb_neq in Hprov as ->.
  pose proof (lastIndex_Split ":" (ImageBase config)) as Hsplit.
  destruct (length (Split (ImageBase config) ":") <? 2)%nat; [done|].
  intros [= <-]. split.
  - intros [i Hi]. rewrite Hi in *. simpl. destruct Hsplit as [<- _].
    by rewrite Nat.add_1_r.
  - intros H0. rewrite H0 in *. split; [done|]. destruct Hsplit as [<- _].
    destruct (ImageBase config) as [|a r]; [done|]. simpl in *.
    destruct (lastIndex ":" r); [done|]. destruct (Ascii.eqb_spec a ":"); [|done].
    by subst.
Qed.

Lemma X4_orasTag_witness :
  orasTag "registry.example.com/repo/image:1.0.0" = "1.0.0".
Proof.
  apply (X4_orasTag_is_resolved_version
           (artifactoryConfig "registry.example.com/repo/image:1.0.0") (markerWorld None)
           "1.0.0"); [discriminate|reflexivity|].
  by eexists.
Defined.

End References.

(** ** Destination directories *)

Section Sanitize.

Lemma ReplaceAll_noByte s old new :
  Ascii.eqb new old = false → noByte old (ReplaceAll s old new) = true.
Proof.
  intros Hne. induction s as [|a s IH]; simpl; [done|]. rewrite IH, andb_true_r.
  destruct (Ascii.eqb a old) eqn:Ha; [by rewrite Hne|by rewrite Ha].
Qed.

Lemma ReplaceAll_keeps_noByte s old new c :
  Ascii.eqb new c = false → noByte c s = true → noByte c (ReplaceAll s old new) = true.
Proof.
  intros Hne. induction s as [|a s IH]; simpl; [done|].
  intros [Ha Hs]%andb_true_iff. rewrite (IH Hs), andb_true_r.
  destruct (Ascii.eqb a old); [by rewrite Hne|done].
Qed.

Lemma ReplaceAll_id s old new : noByte old s = true → ReplaceAll s old new = s.
Proof.
  induction s as [|a s IH]; simpl; [done|].
  intros [Ha Hs]%andb_true_iff. apply negb_true_iff in Ha. by rewrite Ha, (IH Hs).
Qed.

Lemma ReplaceAll_length s old new : String.length (ReplaceAll s old new) = String.length s.
Proof. induction s as [|a s IH]; simpl; by rewrite ?IH. Qed.

Lemma sanitizePath_clean s :
  noByte ":" (sanitizePath s) = true ∧ noByte "/" (sanitizePath s) = true.
Proof.
  unfold sanitizePath. split.
  - apply ReplaceAll_keeps_noByte; [done|]. by apply ReplaceAll_noByte.
  - by apply ReplaceAll_noByte.
Qed.

(** X5. [sanitizePath] leaves no colon and no slash, keeps the length, does
    not change a string without the two, and so does nothing to its own
    output. The directory for a version is therefore always the direct child
    [image-...] of [/tmp], whatever the version string holds. *)
Theorem X5_sanitizePath_flat s :
  noByte ":" (sanitizePath s) = true
  ∧ noByte "/" (sanitizePath s) = true
  ∧ String.length (sanitizePath s) = String.length s
  ∧ (noByte ":" s = true → noByte "/" s = true → sanitizePath s = s)
  ∧ sanitizePath (sanitizePath s) = sanitizePath s
  ∧ Split (destDirFor s) "/" = [""; "tmp"; "image-" +:+ sanitizePath s].
Proof.
  destruct (sanitizePath_clean s) as [Hc Hs].
  assert (∀ t, noByte ":" t = true → noByte "/" t = true → sanitizePath t = t) as Hid.
  { intros t Htc Hts. unfold sanitizePath. rewrite (ReplaceAll_id t ":" "_" Htc).
    by apply ReplaceAll_id. }
  split; [done|]. split; [done|]. split; [|split; [by apply Hid|split; [by apply Hid|]]].
  - unfold sanitizePath. by rewrite !ReplaceAll_length.
  - unfold destDirFor.
    change ("/tmp/image-" +:+ sanitizePath s)
      with ("" +:+ String "/" ("tmp" +:+ String "/" ("image-" +:+ sanitizePath s))).
    rewrite !Split_app_sep. simpl. rewrite Split_noByte; [done|].
    change ("image-" +:+ sanitizePath s) with (String "i" (String "m" (String "a"
      (String "g" (String "e" (String "-" (sanitizePath s))))))).
    simpl. exact Hs.
Qed.

End Sanitize.

(** ** The extension test of [findYAMLFiles] *)

Section Extension.

Lemma noByte_rev c s : noByte c (String.rev s) = noByte c s.
Proof.
  induction s as [|a s IH]; [done|]. rewrite rev_cons, noByte_app, IH. simpl.
  by rewrite andb_true_r, andb_comm.
Qed.

Lemma extFrom_scan pre : ∀ acc rest,
  noByte "." pre = true → noByte "/" pre = true →
  extFrom (pre +:+ String "." rest) acc = String "." (String.rev pre +:+ acc).
Proof.
  induction pre as [|a pre IH]; intros acc rest; [done|].
  rewrite app_cons. simpl.
  intros [Hd Hpd]%andb_true_iff [Hs Hps]%andb_true_iff.
  apply negb_true_iff in Hd, Hs. rewrite Hs, Hd, (IH _ _ Hpd Hps).
  by rewrite rev_cons, app_assoc_str.
Qed.

Lemma extFrom_found r : ∀ acc,
  extFrom r acc = ""
  ∨ ∃ pre rest, r = pre +:+ String "." rest
                ∧ noByte "." pre = true ∧ noByte "/" pre = true.
Proof.
  induction r as [|a r IH]; intros acc; simpl; [by left|].
  destruct (Ascii.eqb a "/") eqn:Hs; [by left|].
  destruct (Ascii.eqb_spec a ".") as [->|Hd].
  - right. by exists "", r.
  - destruct (IH (String a acc)) as [Hnone|(pre & rest & -> & Hpd & Hps)]; [by left|].
    right. exists (String a pre), rest. rewrite app_cons. simpl.
    rewrite Hs, Hpd, Hps. apply Ascii.eqb_neq in Hd. by rewrite Hd.
Qed.

(** [filepath.Ext] of a name with a dot before a last part that has no dot
    and no slash. *)
Lemma Ext_dot stem e :
  noByte "." e = true → noByte "/" e = true → Ext (stem +:+ "." +:+ e) = "." +:+ e.
Proof.
  intros Hd Hs. unfold Ext.
  change (stem +:+ "." +:+ e) with (stem +:+ String "." e).
  rewrite rev_app_distr, rev_cons, app_assoc_str. 
  change (String "." "" +:+ String.rev stem) with (String "." (String.rev stem)).
  rewrite extFrom_scan; [|by rewrite noByte_rev..].
  by rewrite rev_involutive, app_empty_r.
Qed.

Lemma Ext_shape p :
  Ext p = "" ∨ ∃ stem e, p = stem +:+ "." +:+ e ∧ Ext p = "." +:+ e.
Proof.
  unfold Ext. destruct (extFrom_found (String.rev p) "") as [?|(pre & rest & Hr & Hd & Hs)];
    [by left|right].
  exists (String.rev rest), (String.rev pre).
  assert (p = String.rev rest +:+ "." +:+ String.rev pre) as Hp.
  { rewrite <- (rev_involutive p), Hr, rev_app_distr, rev_cons.
    by rewrite app_assoc_str. }
  split; [done|]. rewrite Hr, extFrom_scan; [|done..]. by rewrite app_empty_r.
Qed.

Lemma lowerByte_fixed_noByte c e :
  lowerByte c = c → noByte c (ToLower e) = true → noByte c e = true.
Proof.
  intros Hc. induction e as [|a e IH]; simpl; [done|].
  intros [Ha He]%andb_true_iff. rewrite (IH He), andb_true_r.
  apply negb_true_iff. apply negb_true_iff in Ha.
  destruct (Ascii.eqb_spec a c) as [->|]; [|done]. by rewrite Hc, Ascii.eqb_refl in Ha.
Qed.

(** X6. [findYAMLFiles] takes a path for a YAML file exactly when the path
    ends in a dot and [yaml] or [yml] in any mix of upper and lower case. *)
Theorem X6_yaml_extension_any_case p :
  isYAMLExt p = true
  ↔ ∃ stem e, p = stem +:+ "." +:+ e ∧ (ToLower e = "yaml" ∨ ToLower e = "yml").
Proof.
  unfold isYAMLExt. split.
  - intros Hext. destruct (Ext_shape p) as [Hnone|(stem & e & Hp & He)].
    { rewrite Hnone in Hext. done. }
    exists stem, e. split; [done|]. rewrite He in Hext.
    change ("." +:+ e) with (String "." e) in Hext. simpl in Hext.
    apply orb_true_iff in Hext as [H|H]; apply String.eqb_eq in H; auto.
  - intros (stem & e & -> & He).
    assert (noByte "." (ToLower e) = true ∧ noByte "/" (ToLower e) = true) as [Hd Hs].
    { by destruct He as [-> | ->]. }
    rewrite Ext_dot; [|by apply lowerByte_fixed_noByte..].
    change ("." +:+ e) with (String "." e). simpl.
    apply orb_true_iff. destruct He as [-> | ->]; [by left|by right].
Qed.

Example yaml_extension_cases :
  isYAMLExt "/tmp/image-v1/policy-0.yaml" = true
  ∧ isYAMLExt "/tmp/image-v1/a.YML" = true
  ∧ isYAMLExt "/tmp/image-v1/a.Yaml" = true
  ∧ isYAMLExt "/tmp/image-v1/a.yaml.bak" = false
  ∧ isYAMLExt "/tmp/image-v1/yaml" = false
  ∧ isYAMLExt "/tmp/image.yaml/notes" = false.
Proof. vm_compute. done. Qed.

End Extension.

(** ** Labelling the pulled files *)

Section Labelling.

Lemma WriteFile_files path data w :
  let '(err, w') := WriteFile path data w in
  dirs w' = dirs w ∧ locked w' = locked w ∧ unlistable w' = unlistable w
  ∧ faulty w' = faulty w
  ∧ match err with
    | Some _ =>
        files w' = files w
        ∨ ∃ n, (n < String.length data)%nat
               ∧ files w' = <[path := takeBytes n data]> (files w)
    | None => files w' = <[path := data]> (files w)
    end.
Proof.
  destruct (WriteFile_cases path data w) as [[e ->]|[[-> _]|(e & n & _ & Hn & ->)]];
    simpl; repeat split; try done; [by left|right; by exists n].
Qed.


Lemma WriteFile_at path data w :
  files (WriteFile path data w).2 !! path
  = match written path data w with
    | Some content => Some content
    | None => files w !! path
    end.
Proof.
  unfold WriteFile, written. cbn zeta.
  change (parentMissing path (emit (EvWriteFile path data) w)) with (parentMissing path w).
  change (dirs (emit (EvWriteFile path data) w)) with (dirs w).
  change (locked (emit (EvWriteFile path data) w)) with (locked w).
  change (faulty (emit (EvWriteFile path data) w)) with (faulty w).
  destruct (parentMissing path w); [done|].
  case_bool_decide; [done|]. case_bool_decide; [done|]. simpl.
  destruct (faulty w !! path) as [n|]; [case_bool_decide|]; simpl;
    by rewrite lookup_insert_eq.
Qed.

Lemma labelOne_content codec tag w file :
  dirs (labelOne codec tag w file) = dirs w
  ∧ locked (labelOne codec tag w file) = locked w
  ∧ faulty (labelOne codec tag w file) = faulty w
  ∧ (∀ p, p ≠ file → files (labelOne codec tag w file) !! p = files w !! p)
  ∧ files (labelOne codec tag w file) !! file
    = match files w !! file with
      | None => None
      | Some data =>
          match addLabelsToYAML codec data tag with
          | (out, None) => Some (default data (written file out w))
          | (_, Some _) => Some data
          end
      end.
Proof.
  unfold labelOne, addLabelsToManifest, ReadFile.
  destruct (files w !! file) as [data|] eqn:Hfile; [|by rewrite ?Hfile].
  destruct (addLabelsToYAML codec data tag) as [out [e|]]; [by rewrite ?Hfile|].
  pose proof (WriteFile_frame file out w) as (Hd & Hl & _ & Hfa & Hother).
  pose proof (WriteFile_at file out w) as Hat.
  destruct (WriteFile file out w) as [[e|] w1]; simpl in *;
    (split; [done|]); (split; [done|]); (split; [done|]); (split; [done|]);
    rewrite Hat; destruct (written file out w); by rewrite ?Hfile.
Qed.

Lemma written_local path data w v :
  dirs w = dirs v → locked w = locked v → faulty w = faulty v →
  written path data w = written path data v.
Proof. intros Hd Hl Hf. unfold written, parentMissing. by rewrite Hd, Hl, Hf. Qed.

Lemma labelOne_local codec tag w v file :
  files w !! file = files v !! file → dirs w = dirs v → locked w = locked v →
  faulty w = faulty v →
  files (labelOne codec tag w file) !! file = files (labelOne codec tag v file) !! file.
Proof.
  intros Hf Hd Hl Hfa.
  destruct (labelOne_content codec tag w file) as (_ & _ & _ & _ & ->).
  destruct (labelOne_content codec tag v file) as (_ & _ & _ & _ & ->).
  rewrite Hf. destruct (files v !! file) as [data|]; [|done].
  destruct (addLabelsToYAML codec data tag) as [out [e|]]; [done|].
  by rewrite (written_local file out w v Hd Hl Hfa).
Qed.

Lemma labelAll_content codec tag found : NoDup found → ∀ w,
  dirs (foldl (labelOne codec tag) w found) = dirs w
  ∧ locked (foldl (labelOne codec tag) w found) = locked w
  ∧ faulty (foldl (labelOne codec tag) w found) = faulty w
  ∧ ∀ p, files (foldl (labelOne codec tag) w found) !! p
         = if bool_decide (p ∈ found) then files (labelOne codec tag w p) !! p
           else files w !! p.
Proof.
  induction 1 as [|file found Hfresh _ IH]; intros w; simpl; [done|].
  destruct (IH (labelOne codec tag w file)) as (Hd & Hl & Hfa & Hf).
  destruct (labelOne_content codec tag w file) as (Hd1 & Hl1 & Hfa1 & Hf1 & _).
  rewrite Hd, Hl, Hfa, Hd1, Hl1, Hfa1. repeat split. intros p. rewrite Hf.
  destruct (decide (p = file)) as [->|Hne].
  - rewrite (bool_decide_eq_false_2 _ Hfresh), bool_decide_eq_true_2; [done|].
    apply elem_of_cons. by left.
  - case_bool_decide as Hin.
    + rewrite bool_decide_eq_true_2 by (apply elem_of_cons; by right).
      apply labelOne_local; auto.
    + rewrite bool_decide_eq_false_2; [by apply Hf1|].
      intros [?|?]%elem_of_cons; done.
Qed.

Lemma fetchAndLabel_steps codec net config tag destDir w :
  fetchAndLabel codec net config tag destDir w
  = match transportStep net config tag destDir w with
    | (Some err, w1) => (Some err, w1)
    | (None, w1) =>
        match findYAMLFiles destDir w1 with
        | (_, Some err) => (Some err, w1)
        | (found, None) => (None, foldl (labelOne codec tag) w1 found)
        end
    end.
Proof.
  unfold fetchAndLabel, transportStep.
  destruct (String.eqb (Provider config) "artifactory");
    match goal with |- context [match ?f with _ => _ end] => destruct f as [[e|] w1] end;
    reflexivity.
Qed.

End Labelling.

(** ** The order of the walk *)

Section WalkOrder.

Lemma ascii_compare_lt_trans (a b c : ascii) :
  Ascii.compare a b = Lt → Ascii.compare b c = Lt → Ascii.compare a c = Lt.
Proof. unfold Ascii.compare. rewrite !N.compare_lt_iff. lia. Qed.

Lemma string_compare_lt_trans : ∀ a b c : string,
  String.compare a b = Lt → String.compare b c = Lt → String.compare a c = Lt.
Proof.
  induction a as [|x a IH]; intros [|y b] [|z c]; simpl; try done.
  destruct (Ascii.compare x y) eqn:Hxy; [|
    destruct (Ascii.compare y z) eqn:Hyz; [| |done] |done].
  - apply Ascii.compare_eq_iff in Hxy as ->.
    destruct (Ascii.compare y z); [apply IH|done..].
  - apply Ascii.compare_eq_iff in Hyz as ->. by rewrite Hxy.
  - by rewrite (ascii_compare_lt_trans _ _ _ Hxy Hyz).
Qed.

Lemma string_compare_gt_lt (a b : string) :
  String.compare a b = Gt → String.compare b a = Lt.
Proof. rewrite (String.compare_antisym b a). by intros ->. Qed.

Lemma string_compare_refl (a : string) : String.compare a a = Eq.
Proof.
  induction a as [|x a IH]; simpl; [done|].
  unfold Ascii.compare. by rewrite N.compare_refl.
Qed.

Lemma componentsLe_total : ∀ a b, componentsLe a b = true ∨ componentsLe b a = true.
Proof.
  induction a as [|x a IH]; intros [|y b]; simpl; auto.
  destruct (String.compare x y) eqn:Hxy; auto.
  - apply String.compare_eq_iff in Hxy as ->. rewrite string_compare_refl. apply IH.
  - by rewrite (string_compare_gt_lt _ _ Hxy); auto.
Qed.

Lemma componentsLe_trans : ∀ a b c,
  componentsLe a b = true → componentsLe b c = true → componentsLe a c = true.
Proof.
  induction a as [|x a IH]; intros [|y b] [|z c]; simpl; try done.
  destruct (String.compare x y) eqn:Hxy; [| |done].
  - apply String.compare_eq_iff in Hxy as ->.
    destruct (String.compare y z); [apply IH|done..].
  - destruct (String.compare y z) eqn:Hyz; [| |done].
    + apply String.compare_eq_iff in Hyz as ->. by rewrite Hxy.
    + by rewrite (string_compare_lt_trans _ _ _ Hxy Hyz).
Qed.

Lemma insertBy_sorted {A} (le : A → A → bool) :
  (∀ a b, le a b = true ∨ le b a = true) →
  (∀ a b c, le a b = true → le b c = true → le a c = true) →
  ∀ x l, StronglySorted (fun a b => le a b = true) l →
         StronglySorted (fun a b => le a b = true) (insertBy le x l).
Proof.
  intros Htotal Htrans x l. induction l as [|y l IH]; simpl; intros Hs.
  - by repeat constructor.
  - inversion Hs as [|? ? Hl Hall]; subst. destruct (le x y) eqn:Hxy.
    + constructor; [done|]. constructor; [done|].
      eapply Forall_impl; [exact Hall|]. simpl. intros z Hz. by eapply Htrans.
    + constructor; [by apply IH|].
      rewrite insertBy_perm. constructor; [|done].
      destruct (Htotal x y); congruence.
Qed.

Lemma sortBy_sorted {A} (le : A → A → bool) :
  (∀ a b, le a b = true ∨ le b a = true) →
  (∀ a b c, le a b = true → le b c = true → le a c = true) →
  ∀ l, StronglySorted (fun a b => le a b = true) (sortBy le l).
Proof.
  intros Htotal Htrans l. unfold sortBy.
  induction l as [|x l IH]; simpl; [constructor|]. by apply insertBy_sorted.
Qed.

Lemma sortPaths_sorted l : StronglySorted (fun p q => pathLe p q = true) (sortPaths l).
Proof.
  apply (sortBy_sorted pathLe).
  - intros a b. apply componentsLe_total.
  - intros a b c. apply componentsLe_trans.
Qed.

Lemma filter_sorted {A} (R : A → A → Prop) (f : A → bool) l :
  StronglySorted R l → StronglySorted R (List.filter f l).
Proof.
  induction 1 as [|x l Hs IH Hall]; simpl; [constructor|].
  destruct (f x); [|done]. constructor; [done|].
  apply Forall_forall. intros y [Hy _]%list_elem_of_In%List.filter_In.
  by eapply Forall_forall in Hall; [|apply list_elem_of_In].
Qed.

(** The files that the walk collects from its visits, as a filter. *)
Lemma omap_yamlOf w l :
  omap yamlOf (visitOf w <$> l)
  = List.filter (fun p => negb (bool_decide (p ∈ dirs w)) && isYAMLExt p) l.
Proof.
  induction l as [|p l IH]; [done|].
  change (omap yamlOf (visitOf w <$> p :: l))
    with (match yamlOf (visitOf w p) with
          | Some y => y :: omap yamlOf (visitOf w <$> l)
          | None => omap yamlOf (visitOf w <$> l)
          end).
  rewrite IH. simpl. unfold yamlOf, visitOf. case_bool_decide; simpl; [done|].
  by destruct (isYAMLExt p).
Qed.

Lemma filter_perm {A} (f : A → bool) (l l' : list A) :
  l ≡ₚ l' → List.filter f l ≡ₚ List.filter f l'.
Proof.
  induction 1 as [|x l l' _ IH|x y l|l l' l'' _ IH1 _ IH2]; simpl.
  - done.
  - destruct (f x); by rewrite IH.
  - destruct (f x), (f y); try done. apply Permutation_swap.
  - by rewrite IH1.
Qed.

Lemma NoDup_List_filter {A} (f : A → bool) (l : list A) :
  NoDup l → NoDup (List.filter f l).
Proof.
  induction 1 as [|x l Hx _ IH]; simpl; [constructor|].
  destruct (f x); [|done]. constructor; [|done].
  intros [Hin _]%list_elem_of_In%List.filter_In. by apply Hx, list_elem_of_In.
Qed.

Lemma findYAMLFiles_NoDup dir w found :
  findYAMLFiles dir w = (found, None) → NoDup found.
Proof.
  unfold findYAMLFiles, walkVisits. destruct (exists_at w dir); [|done].
  intros [_ ->]%walkWith_collect. rewrite app_nil_l, omap_yamlOf.
  rewrite (filter_perm _ _ _ (sortPaths_perm _)), !List.filter_app.
  apply NoDup_app. split; [|split].
  - do 2 apply NoDup_List_filter. apply NoDup_fst_map_to_list.
  - intros p [_ [Hnd _]%andb_true_iff]%list_elem_of_In%List.filter_In
      [[Hd%list_elem_of_In%elem_of_elements _]%List.filter_In _]%list_elem_of_In%List.filter_In.
    apply negb_true_iff, bool_decide_eq_false in Hnd. done.
  - do 2 apply NoDup_List_filter. apply NoDup_elements.
Qed.

Lemma findYAMLFiles_sorted dir w found :
  findYAMLFiles dir w = (found, None) →
  StronglySorted (fun p q => pathLe p q = true) found.
Proof.
  unfold findYAMLFiles, walkVisits. destruct (exists_at w dir); [|done].
  intros [_ ->]%walkWith_collect. rewrite app_nil_l, omap_yamlOf.
  apply filter_sorted, sortPaths_sorted.
Qed.

(** X8. When the walk succeeds, [findYAMLFiles] lists no file twice, and it
    lists the files in the lexical order of [filepath.Walk]: component by
    component, each component compared byte by byte. *)
Theorem X8_findYAMLFiles_ordered (dir : string) (w : World) (found : list string) :
  findYAMLFiles dir w = (found, None) →
  NoDup found ∧ StronglySorted (fun p q => pathLe p q = true) found.
Proof.
  intros Hwalk. split; [by eapply findYAMLFiles_NoDup|by eapply findYAMLFiles_sorted].
Qed.

Lemma X8_findYAMLFiles_witness :
  findYAMLFiles "/tmp/image-v1" twoManifestsWorld
    = (["/tmp/image-v1/a.yaml"; "/tmp/image-v1/b.yml"], None)
  ∧ NoDup ["/tmp/image-v1/a.yaml"; "/tmp/image-v1/b.yml"]
  ∧ StronglySorted (fun p q => pathLe p q = true)
      ["/tmp/image-v1/a.yaml"; "/tmp/image-v1/b.yml"].
Proof.
  assert (findYAMLFiles "/tmp/image-v1" twoManifestsWorld
          = (["/tmp/image-v1/a.yaml"; "/tmp/image-v1/b.yml"], None)) as Hrun
    by (vm_compute; reflexivity).
  split; [exact Hrun|].
  exact (X8_findYAMLFiles_ordered "/tmp/image-v1" twoManifestsWorld _ Hrun).
Defined.

End WalkOrder.

(** ** The outcome of a pull *)

Section Pull.

(** X9. After the destination directory is prepared, [pullImageToDirReal]
    fails exactly when the transport fails or the walk over the pulled files
    fails, and then it has labelled nothing. A file whose labels cannot be
    added is no error. When the pull succeeds, each file that the walk found
    holds what labelling that file alone gives, and every other path is as
    the transport left it. *)
Theorem X9_fetchAndLabel_outcome (codec : YAMLCodec) (net : Transports)
    (config : Config) (tag destDir : string) (w : World) :
  let '(transportErr, w1) := transportStep net config tag destDir w in
  let '(found, walkErr) := findYAMLFiles destDir w1 in
  let '(err, w') := fetchAndLabel codec net config tag destDir w in
  match transportErr with
  | Some e => err = Some e ∧ w' = w1
  | None =>
      err = walkErr
      ∧ match walkErr with
        | Some _ => w' = w1
        | None =>
            dirs w' = dirs w1
            ∧ ∀ p, files w' !! p
                   = if bool_decide (p ∈ found)
                     then files (labelOne codec tag w1 p) !! p
                     else files w1 !! p
        end
  end.
Proof.
  rewrite fetchAndLabel_steps.
  destruct (transportStep net config tag destDir w) as [[e|] w1].
  - by destruct (findYAMLFiles destDir w1).
  - destruct (findYAMLFiles destDir w1) as [found [e|]] eqn:Hwalk; [done|].
    split; [done|].
    pose proof (findYAMLFiles_NoDup _ _ _ Hwalk) as Hnd.
    destruct (labelAll_content codec tag found Hnd w1) as (Hd & _ & _ & Hf). done.
Qed.

End Pull.

(** ** Successive rounds *)

Section Rounds.

Lemma WriteFile_ok path data w w' :
  WriteFile path data w = (None, w') → files w' !! path = Some data.
Proof.
  destruct (WriteFile_cases path data w) as [[e ->]|[[-> _]|(e & n & _ & _ & ->)]];
    [done| |done].
  intros [= <-]. simpl. by rewrite lookup_insert_eq.
Qed.


Lemma reconcile_success_marker hooks config latest w w1 :
  TrimSpace latest = latest →
  reconcile hooks config latest w = (None, w1) →
  readPrevTag config w1 = latest.
Proof.
  intros Htrim. unfold reconcile.
  destruct (String.eqb latest (readPrevTag config w)) eqn:Hcmp; simpl.
  - apply String.eqb_eq in Hcmp. intros [= <-]. unfold readPrevTag in *. by simpl.
  - unfold applyChange.
    destruct (pullStep hooks config latest (readPrevTag config w) w) as [[e|] w2]; [done|].
    destruct (applyStep hooks config latest w2) as [[e|] w3]; [done|].
    destruct (WriteFile (LastFile config) latest w3) as [[e|] w4] eqn:Hwrite; [done|].
    intros [= <-]. apply WriteFile_ok in Hwrite.
    by rewrite (readPrevTag_file _ _ _ Hwrite).
Qed.

(** X10. A round that ends without error leaves the marker equal to the
    resolved version, so that the round after it, for the same version, does
    nothing but log that there is no change: provided the version neither
    starts nor ends with white space, which is what the comparison strips
    from the marker. This holds for any pull and apply functions. *)
Theorem X10_round_reaches_steady_state (hooks : Hooks) (config : Config)
    (latest : string) (w w1 : World) :
  TrimSpace latest = latest →
  reconcile hooks config latest w = (None, w1) →
  readPrevTag config w1 = latest
  ∧ reconcile hooks config latest w1 = noChange latest w1.
Proof.
  intros Htrim Hround.
  pose proof (reconcile_success_marker _ _ _ _ _ Htrim Hround) as Hprev.
  split; [done|]. by apply reconcile_same.
Qed.

Lemma X10_round_witness :
  TrimSpace "v2" = "v2"
  ∧ ∃ w1, reconcile idleHooks (artifactoryConfig "registry/path:v2") "v2"
            (markerWorld (Some "v1")) = (None, w1)
          ∧ readPrevTag (artifactoryConfig "registry/path:v2") w1 = "v2"
          ∧ reconcile idleHooks (artifactoryConfig "registry/path:v2") "v2" w1
            = noChange "v2" w1.
Proof.
  split; [reflexivity|].
  assert (∃ w1, reconcile idleHooks (artifactoryConfig "registry/path:v2") "v2"
                  (markerWorld (Some "v1")) = (None, w1)) as [w1 Hround]
    by (eexists; vm_compute; reflexivity).
  exists w1. split; [exact Hround|].
  exact (X10_round_reaches_steady_state idleHooks (artifactoryConfig "registry/path:v2")
           "v2" (markerWorld (Some "v1")) w1 eq_refl Hround).
Defined.



End Rounds.

(** ** The OCI transport *)

Section OciTransport.

Lemma uint_noSlash (u : Decimal.uint) : noByte "/" (NilEmpty.string_of_uint u) = true.
Proof. induction u; simpl; auto. Qed.

Lemma formatInt_noSlash (n : Z) : noByte "/" (formatInt n) = true.
Proof.
  unfold formatInt, NilZero.string_of_int, NilZero.string_of_uint.
  destruct (Z.to_int n) as [u|u]; destruct u; simpl; auto using uint_noSlash.
Qed.

Lemma formatInt_inj (m n : Z) : formatInt m = formatInt n → m = n.
Proof.
  unfold formatInt. intros Heq. apply DecimalZ.to_int_inj.
  assert (∀ z, Z.to_int z ≠ Decimal.Pos Decimal.Nil ∧ Z.to_int z ≠ Decimal.Neg Decimal.Nil)
    as Hnn.
  { intros [|p|p]; simpl; split; try done; intros [= H];
      by apply DecimalPos.Unsigned.to_uint_nonnil in H. }
  destruct (Hnn m) as [Hm1 Hm2], (Hnn n) as [Hn1 Hn2].
  pose proof (NilZero.isi _ Hm1 Hm2) as Him. pose proof (NilZero.isi _ Hn1 Hn2) as Hin.
  rewrite Heq in Him. congruence.
Qed.

Lemma cleanStep_plain rooted kept name : plainName name → cleanStep rooted kept name = name :: kept.
Proof.
  intros (_ & H1 & H2 & H3). unfold cleanStep.
  apply String.eqb_neq in H1, H2, H3. by rewrite H1, H2, H3.
Qed.

Lemma JoinStr_snoc l name sep :
  JoinStr (l ++ [name]) sep
  = match l with [] => name | _ => JoinStr l sep +:+ sep +:+ name end.
Proof.
  induction l as [|x l IH]; [done|].
  destruct l as [|y l]; [done|].
  change ((x :: y :: l) ++ [name]) with (x :: (y :: l) ++ [name]).
  change ((y :: l) ++ [name]) with (y :: l ++ [name]) at 1.
  rewrite JoinStr_cons.
  change (y :: l ++ [name]) with ((y :: l) ++ [name]). rewrite IH, JoinStr_cons.
  by rewrite !app_assoc_str.
Qed.

(** [Clean] keeps a plain last element in place. *)
Lemma Clean_last dir name :
  plainName name →
  ∃ pre, Clean (dir +:+ "/" +:+ name) = pre +:+ name
         ∧ (pre = "" ∨ ∃ q, pre = q +:+ "/").
Proof.
  intros Hplain. unfold Clean.
  change (dir +:+ "/" +:+ name) with (dir +:+ String "/" name).
  assert (String.eqb (dir +:+ String "/" name) "" = false) as ->.
  { apply String.eqb_neq. by destruct dir. }
  rewrite Split_app_sep, (Split_noByte name "/") by apply Hplain.
  set (rooted := String.prefix "/" _).
  rewrite foldl_app. simpl. rewrite cleanStep_plain by done.
  set (kept := foldl (cleanStep rooted) [] (Split dir "/")).
  change (rev (name :: kept)) with (rev kept ++ [name]).
  rewrite JoinStr_snoc.
  destruct rooted.
  - destruct (rev kept) as [|x l].
    + exists "/". split; [done|]. right. by exists "".
    + exists (("/" +:+ JoinStr (x :: l) "/") +:+ "/"). split.
      * by rewrite !app_assoc_str.
      * right. by eexists.
  - destruct (rev kept) as [|x l].
    + exists "". rewrite app_empty_l. split; [|by left].
      destruct Hplain as (_ & Hne & _). apply String.eqb_neq in Hne. by rewrite Hne.
    + exists (JoinStr (x :: l) "/" +:+ "/"). split; [|right; by eexists].
      rewrite app_assoc_str.
      destruct (String.eqb_spec (JoinStr (x :: l) "/" +:+ "/" +:+ name) "") as [Heq|]; [|done].
      apply (f_equal String.length) in Heq.
      rewrite !length_app_str in Heq. simpl in Heq. lia.
Qed.

Lemma Clean_plain name : plainName name → Clean name = name.
Proof.
  intros Hplain. pose proof Hplain as (Hns & Hne & _). unfold Clean.
  apply String.eqb_neq in Hne. rewrite Hne, (Split_noByte _ _ Hns). simpl.
  rewrite cleanStep_plain by done. simpl.
  assert (String.prefix "/" name = false) as ->.
  { destruct name as [|a r]; [done|]. simpl in Hns. apply andb_true_iff in Hns as [Ha _].
    apply negb_true_iff in Ha. apply not_true_is_false.
    intros [t Ht]%prefix_spec. rewrite app_cons in Ht. injection Ht as -> _.
    by rewrite Ascii.eqb_refl in Ha. }
  by rewrite Hne.
Qed.

Lemma Join_last dir name :
  plainName name →
  ∃ pre, Join dir name = pre +:+ name ∧ (pre = "" ∨ ∃ q, pre = q +:+ "/").
Proof.
  intros Hplain. unfold Join. destruct (String.eqb dir ""); simpl.
  - destruct Hplain as (Hns & Hne & Hd & Hdd).
    apply String.eqb_neq in Hne as Hne'. rewrite Hne'. simpl.
    exists "". rewrite app_empty_l. split; [|by left]. by apply Clean_plain.
  - by apply Clean_last.
Qed.

Lemma layerName_plain mediaType i : plainName (layerName mediaType i).
Proof.
  unfold layerName, plainName.
  destruct (String.eqb mediaType PolicyLayerMediaType).
  - change ("policy-" +:+ formatInt i +:+ ".yaml")
      with (String "p" ("olicy-" +:+ formatInt i +:+ ".yaml")).
    split; [|done]. simpl. by rewrite !noByte_app, formatInt_noSlash.
  - change ("layer-" +:+ formatInt i +:+ ".yaml")
      with (String "l" ("ayer-" +:+ formatInt i +:+ ".yaml")).
    split; [|done]. simpl. by rewrite !noByte_app, formatInt_noSlash.
Qed.

Lemma layerFile_Join mediaType outputDir i :
  Oci.layerFile mediaType outputDir i = Join outputDir (layerName mediaType i).
Proof. unfold Oci.layerFile, layerName. by destruct (String.eqb mediaType _). Qed.

Lemma layerFile_Ext mediaType outputDir i :
  Ext (Oci.layerFile mediaType outputDir i) = ".yaml".
Proof.
  rewrite layerFile_Join.
  destruct (Join_last outputDir _ (layerName_plain mediaType i)) as (pre & -> & _).
  unfold layerName. rewrite <- !app_assoc_str.
  by apply (Ext_dot _ "yaml").
Qed.

Lemma Split_destDirFor s : Split (destDirFor s) "/" = [""; "tmp"; "image-" +:+ sanitizePath s].
Proof.
  unfold destDirFor.
  change ("/tmp/image-" +:+ sanitizePath s)
    with ("" +:+ String "/" ("tmp" +:+ String "/" ("image-" +:+ sanitizePath s))).
  rewrite !Split_app_sep. simpl. rewrite Split_noByte; [done|].
  change ("image-" +:+ sanitizePath s) with (String "i" (String "m" (String "a"
    (String "g" (String "e" (String "-" (sanitizePath s))))))).
  simpl. apply sanitizePath_clean.
Qed.

(** In the directory that [watchLoop] hands over, the layer file is the
    directory, a slash and the name. *)
Lemma layerFile_destDir mediaType latest i :
  Oci.layerFile mediaType (destDirFor latest) i
  = destDirFor latest +:+ "/" +:+ layerName mediaType i.
Proof.
  rewrite layerFile_Join. pose proof (layerName_plain mediaType i) as Hplain.
  unfold Join, Clean.
  assert (String.eqb (destDirFor latest) "" = false) as -> by done.
  cbn [negb].
  change (destDirFor latest +:+ "/" +:+ layerName mediaType i)
    with (destDirFor latest +:+ String "/" (layerName mediaType i)).
  assert (String.eqb (destDirFor latest +:+ String "/" (layerName mediaType i)) "" = false)
    as -> by done.
  rewrite Split_app_sep, Split_destDirFor, (Split_noByte (layerName _ _) "/") by apply Hplain.
  assert (String.prefix "/" (destDirFor latest +:+ String "/" (layerName mediaType i)) = true)
    as -> by done.
  assert (plainName ("image-" +:+ sanitizePath latest)) as Himg.
  { change ("image-" +:+ sanitizePath latest)
      with (String "i" ("mage-" +:+ sanitizePath latest)).
    split; [|done]. simpl. rewrite noByte_app. simpl. apply sanitizePath_clean. }
  cbn [foldl app]. rewrite (cleanStep_plain _ _ _ Hplain), (cleanStep_plain _ _ _ Himg).
  change (cleanStep true (cleanStep true [] "") "tmp") with ["tmp"].
  cbn [rev app]. rewrite !JoinStr_cons. cbn [JoinStr].
  unfold destDirFor. by rewrite !app_assoc_str.
Qed.

Lemma writesYAMLOnly_refl w : writesYAMLOnly w w.
Proof. do 5 (split; [done|]). exists []. by rewrite app_nil_r. Qed.

Lemma writesYAMLOnly_trans w1 w2 w3 :
  writesYAMLOnly w1 w2 → writesYAMLOnly w2 w3 → writesYAMLOnly w1 w3.
Proof.
  intros (Hd1 & Hl1 & Hu1 & Hfa1 & Hf1 & evs1 & Ht1 & He1)
         (Hd2 & Hl2 & Hu2 & Hfa2 & Hf2 & evs2 & Ht2 & He2).
  do 4 (split; [congruence|]). split.
  - intros p Hp. by rewrite Hf2, Hf1.
  - exists (evs1 ++ evs2). rewrite Ht2, Ht1, <- app_assoc. split; [done|].
    by apply Forall_app.
Qed.

Lemma writesYAMLOnly_log msg w : writesYAMLOnly w (logf msg w).
Proof.
  do 5 (split; [done|]). exists [EvLog msg]. split; [done|]. by repeat constructor.
Qed.

Lemma writesYAMLOnly_write path data w :
  Ext path = ".yaml" → data ≠ "" → writesYAMLOnly w (WriteFile path data w).2.
Proof.
  intros Hext Hdata.
  assert (Forall isYAMLWrite [EvWriteFile path data]) as Hev by (by repeat constructor).
  destruct (WriteFile_frame path data w) as (Hd & Hl & Hu & Hfa & Hother).
  do 4 (split; [done|]). split.
  - intros p Hp. apply Hother. congruence.
  - exists [EvWriteFile path data]. split; [apply WriteFile_trace|done].
Qed.

Lemma saveLayer_writes mediaType blob outputDir i n w :
  writesYAMLOnly w (Oci.saveLayer mediaType blob outputDir i n w).2.
Proof.
  unfold Oci.saveLayer. destruct (blobReadErr blob); [apply writesYAMLOnly_refl|].
  destruct (Nat.eqb_spec (String.length (blobContent blob)) 0) as [|Hlen];
    [apply writesYAMLOnly_log|].
  pose proof (writesYAMLOnly_write (Oci.layerFile mediaType outputDir i) (blobContent blob) w
                (layerFile_Ext _ _ _)) as Hwrite.
  destruct (WriteFile _ _ w) as [[e|] w1]; simpl in *.
  - apply Hwrite. by destruct (blobContent blob).
  - eapply writesYAMLOnly_trans; [|apply writesYAMLOnly_log].
    apply Hwrite. by destruct (blobContent blob).
Qed.

Lemma processLayer_writes layer outputDir i n w :
  writesYAMLOnly w (Oci.processLayer layer outputDir i n w).2.
Proof.
  unfold Oci.processLayer. destruct (MediaType layer) as [mediaType|e];
    [|apply writesYAMLOnly_refl].
  destruct (Compressed layer) as [blob|e]; [|apply writesYAMLOnly_log].
  match goal with |- context [Oci.saveLayer mediaType blob outputDir i n ?w0] =>
    pose proof (saveLayer_writes mediaType blob outputDir i n w0) as Hsave;
    destruct (Oci.saveLayer mediaType blob outputDir i n w0) as [[err n'] w1]
  end.
  simpl in *. eapply writesYAMLOnly_trans; [apply writesYAMLOnly_log|].
  eapply writesYAMLOnly_trans; [exact Hsave|].
  destruct (blobCloseErr blob); [apply writesYAMLOnly_log|apply writesYAMLOnly_refl].
Qed.

Lemma processLayers_writes layers outputDir : ∀ i n w,
  writesYAMLOnly w (Oci.processLayers layers outputDir i n w).2.
Proof.
  induction layers as [|layer layers IH]; intros i n w; simpl; [apply writesYAMLOnly_refl|].
  pose proof (processLayer_writes layer outputDir i n w) as Hone.
  destruct (Oci.processLayer layer outputDir i n w) as [[[e|] n'] w1]; simpl in *; [done|].
  eapply writesYAMLOnly_trans; [exact Hone|apply IH].
Qed.

Lemma pullOCI_writes registry imageRef outputDir w :
  writesYAMLOnly w (Oci.pullOCI registry imageRef outputDir w).2.
Proof.
  unfold Oci.pullOCI.
  destruct (registry imageRef) as [e|refName e|refName e|refName e|refName layers]; simpl;
    [apply writesYAMLOnly_refl|apply writesYAMLOnly_log..|].
  match goal with |- context [Oci.processLayers layers outputDir 0 0 ?w0] =>
    pose proof (processLayers_writes layers outputDir 0 0 w0) as Hloop;
    destruct (Oci.processLayers layers outputDir 0 0 w0) as [[[e|] n] w1]
  end; simpl in *.
  - eapply writesYAMLOnly_trans; [|exact Hloop].
    eapply writesYAMLOnly_trans; apply writesYAMLOnly_log.
  - eapply writesYAMLOnly_trans;
      [eapply writesYAMLOnly_trans; [eapply writesYAMLOnly_trans; [|apply writesYAMLOnly_log]|exact Hloop]|].
    + apply writesYAMLOnly_log.
    + destruct (n =? 0); apply writesYAMLOnly_log.
Qed.

(** X12. Whatever the registry answers and whether it fails or not,
    [pullOCI] does nothing to the world but log and write files whose path
    has the extension [.yaml] and whose content is not empty: it creates no
    directory, runs no command, and leaves every path without that
    extension as it was. What it writes is therefore what [findYAMLFiles]
    looks for. *)
Theorem X12_pullOCI_writes_yaml_only (registry : string → Fetched)
    (imageRef outputDir : string) (w : World) :
  let w' := (Oci.pullOCI registry imageRef outputDir w).2 in
  dirs w' = dirs w
  ∧ (∀ p, isYAMLExt p = false → files w' !! p = files w !! p)
  ∧ ∃ evs, trace w' = trace w ++ evs
           ∧ ∀ e, e ∈ evs →
               match e with
               | EvLog _ => True
               | EvWriteFile path data => isYAMLExt path = true ∧ data ≠ ""
               | _ => False
               end.
Proof.
  destruct (pullOCI_writes registry imageRef outputDir w)
    as (Hd & _ & _ & _ & Hf & evs & Ht & Hev).
  simpl. split; [done|]. split.
  - intros p Hp. apply Hf. intros Hext. unfold isYAMLExt in Hp. by rewrite Hext in Hp.
  - exists evs. split; [done|]. intros e He.
    eapply Forall_forall in Hev; [|exact He].
    destruct e as [msg|path data| | |]; try done.
    destruct Hev as [Hext Hdata]. split; [|done]. unfold isYAMLExt. by rewrite Hext.
Qed.

Lemma pullOCI_keeps_marker config registry imageRef outputDir :
  Ext (LastFile config) ≠ ".yaml" →
  keepsMarker config (Oci.pullOCI registry imageRef outputDir).
Proof.
  intros Hmarker w.
  destruct (pullOCI_writes registry imageRef outputDir w)
    as (_ & _ & _ & _ & Hf & evs & Ht & Hev).
  exists evs. split; [done|]. split; [|by apply Hf].
  unfold markerWrites. clear Ht. induction Hev as [|e evs He _ IH]; [done|].
  simpl. destruct e as [msg|path data| | |]; try done. simpl.
  destruct (String.eqb_spec path (LastFile config)) as [->|]; [|done].
  by destruct He.
Qed.

(** X13. With the OCI transport of [main.go], the pull and apply functions
    that [main.go] installs never write the marker file and never change
    its content, whatever the registry answers: the marker is written by
    [watchLoop] alone. The ORAS transport, which belongs to its library, is
    assumed to leave the marker alone. *)
Theorem X13_oci_hooks_keep_marker (config : Config) (codec : YAMLCodec)
    (registry : string → Fetched) (oras : Config → string → World → option error * World) :
  LastFile config = "/tmp/kyverno-watcher/last_seen" →
  (∀ destDir, keepsMarker config (oras config destDir)) →
  hooksKeepMarker config (realHooks codec (ociTransports registry oras)).
Proof.
  intros Hlast Horas. apply realHooks_keep_marker; [done|exact Horas|].
  intros ref destDir. apply pullOCI_keeps_marker. by rewrite Hlast.
Qed.

Lemma X13_oci_hooks_witness :
  hooksKeepMarker sampleConfig
    (realHooks noCodec (ociTransports (fun _ => FetchedLayers "ghcr.io/octokode/policies:v1" [])
                                      (fun _ _ w => (None, w)))).
Proof.
  apply (X13_oci_hooks_keep_marker sampleConfig noCodec
           (fun _ => FetchedLayers "ghcr.io/octokode/policies:v1" [])
           (fun _ _ w => (None, w)) eq_refl).
  intros destDir w. apply keeps_refl.
Defined.

Lemma app_inv_head_str (s t t' : string) : s +:+ t = s +:+ t' → t = t'.
Proof. induction s as [|a s IH]; [done|]. rewrite !app_cons. intros [= H]. by apply IH. Qed.

Lemma app_inv_tail_str (s s' t : string) : s +:+ t = s' +:+ t → s = s'.
Proof.
  intros H. apply (f_equal String.rev) in H. rewrite !rev_app_distr in H.
  apply app_inv_head_str in H. by rewrite <- (rev_involutive s), H, rev_involutive.
Qed.

(** Two layers have the same file name only when they have the same
    index. *)
Lemma layerName_inj mediaType mediaType' i j :
  layerName mediaType i = layerName mediaType' j → i = j.
Proof.
  unfold layerName.
  destruct (String.eqb mediaType _), (String.eqb mediaType' _); try done;
    intros [= H]; rewrite !app_empty_l in H; by apply app_inv_tail_str, formatInt_inj in H.
Qed.

Lemma processLayer_saved layer latest i n w n1 w1 :
  Oci.processLayer layer (destDirFor latest) i n w = (None, n1, w1) →
  ∃ mediaType blob,
    MediaType layer = Ok mediaType ∧ Compressed layer = Ok blob ∧ blobReadErr blob = None
    ∧ files w1
      = if String.eqb (blobContent blob) "" then files w
        else <[destDirFor latest +:+ "/" +:+ layerName mediaType i := blobContent blob]> (files w).
Proof.
  unfold Oci.processLayer. destruct (MediaType layer) as [mediaType|e]; [|done].
  destruct (Compressed layer) as [blob|e]; [|done].
  unfold Oci.saveLayer. destruct (blobReadErr blob) as [e|] eqn:Hread; [done|].
  rewrite layerFile_destDir.
  destruct (blobContent blob) as [|a content] eqn:Hcontent.
  - simpl. intros [= _ <-]. exists mediaType, blob. rewrite Hcontent.
    repeat split; try done. by destruct (blobCloseErr blob).
  - change (String.length (String a content) =? 0)%nat with false. cbv iota.
    match goal with |- context [WriteFile ?f ?d ?w0] =>
      pose proof (WriteFile_files f d w0) as Hwrite; destruct (WriteFile f d w0) as [[e|] w2]
    end; [done|].
    destruct Hwrite as (_ & _ & _ & _ & Hf). intros [= _ <-].
    exists mediaType, blob. rewrite Hcontent. repeat split; try done.
    destruct (blobCloseErr blob); simpl; by rewrite Hf.
Qed.

Lemma processLayers_saved latest layers : ∀ i n w n' w',
  Oci.processLayers layers (destDirFor latest) i n w = (None, n', w') →
  (∀ (k : nat) layer, layers !! k = Some layer →
     ∃ mediaType blob,
       MediaType layer = Ok mediaType ∧ Compressed layer = Ok blob ∧ blobReadErr blob = None
       ∧ (blobContent blob ≠ "" →
          files w' !! (destDirFor latest +:+ "/" +:+ layerName mediaType (i + Z.of_nat k))
          = Some (blobContent blob)))
  ∧ (∀ p,
       (∀ (k : nat) layer mediaType blob,
          layers !! k = Some layer → MediaType layer = Ok mediaType →
          Compressed layer = Ok blob → blobContent blob ≠ "" →
          p ≠ destDirFor latest +:+ "/" +:+ layerName mediaType (i + Z.of_nat k)) →
       files w' !! p = files w !! p).
Proof.
  induction layers as [|layer layers IH]; intros i n w n' w'; simpl.
  - intros [= _ <-]. split; [intros k layer Hk; by rewrite lookup_nil in Hk|done].
  - destruct (Oci.processLayer layer (destDirFor latest) i n w) as [[[e|] n1] w1] eqn:Hone;
      [done|].
    intros Hrest. apply IH in Hrest as [Hsaved Hframe].
    apply processLayer_saved in Hone as (mediaType & blob & Hmt & Hblob & Hread & Hfiles).
    split.
    + intros [|k] layer' Hk; simpl in Hk.
      * injection Hk as <-. exists mediaType, blob. repeat split; try done.
        intros Hcontent. rewrite Hframe.
        -- rewrite Hfiles. apply String.eqb_neq in Hcontent. rewrite Hcontent.
           by rewrite Z.add_0_r, lookup_insert_eq.
        -- intros k layer' mediaType' blob' _ _ _ _ Heq.
           apply app_inv_head_str in Heq. change ("/" +:+ ?x) with (String "/" x) in Heq.
           injection Heq as Heq. apply layerName_inj in Heq. lia.
      * destruct (Hsaved k layer' Hk) as (mediaType' & blob' & ? & ? & ? & Hfile).
        exists mediaType', blob'. repeat split; try done.
        replace (i + Z.of_nat (S k)) with (i + 1 + Z.of_nat k) by lia. done.
    + intros p Hp. rewrite Hframe.
      * rewrite Hfiles. destruct (String.eqb_spec (blobContent blob) "") as [|Hcontent]; [done|].
        apply lookup_insert_ne. intros Heq.
        apply (Hp 0%nat layer mediaType blob); try done. by rewrite Z.add_0_r.
      * intros k layer' mediaType' blob' Hk Hmt' Hblob' Hcontent'.
        replace (i + 1 + Z.of_nat k) with (i + Z.of_nat (S k)) by lia.
        by apply (Hp (S k) layer' mediaType' blob').
Qed.

(** X14. When [pullOCI] succeeds for the directory that [watchLoop] hands
    over, every layer of the image could be read, every layer that is not
    empty is in its own file [policy-<index>.yaml] or [layer-<index>.yaml]
    directly in that directory, holding the content of the layer, and no
    other path has changed: no layer overwrites the file of another, and an
    empty layer leaves no file. *)
Theorem X14_pullOCI_saves_layers (registry : string → Fetched)
    (imageRef latest refName : string) (layers : list Layer) (w w' : World) :
  registry imageRef = FetchedLayers refName layers →
  Oci.pullOCI registry imageRef (destDirFor latest) w = (None, w') →
  (∀ (k : nat) layer, layers !! k = Some layer →
     ∃ mediaType blob,
       MediaType layer = Ok mediaType ∧ Compressed layer = Ok blob ∧ blobReadErr blob = None
       ∧ (blobContent blob ≠ "" →
          files w' !! (destDirFor latest +:+ "/" +:+ layerName mediaType (Z.of_nat k))
          = Some (blobContent blob)))
  ∧ (∀ p,
       (∀ (k : nat) layer mediaType blob,
          layers !! k = Some layer → MediaType layer = Ok mediaType →
          Compressed layer = Ok blob → blobContent blob ≠ "" →
          p ≠ destDirFor latest +:+ "/" +:+ layerName mediaType (Z.of_nat k)) →
       files w' !! p = files w !! p).
Proof.
  intros Hreg. unfold Oci.pullOCI. rewrite Hreg.
  match goal with |- context [Oci.processLayers layers _ 0 0 ?w0] =>
    destruct (Oci.processLayers layers (destDirFor latest) 0 0 w0) as [[[e|] n] w1] eqn:Hloop
  end; [done|].
  intros [= <-]. apply processLayers_saved in Hloop as [Hsaved Hframe]. split.
  - intros k layer Hk. destruct (Hsaved k layer Hk) as (mediaType & blob & ? & ? & ? & Hfile).
    exists mediaType, blob. repeat split; try done.
    intros Hcontent. simpl in Hfile. by destruct (n =? 0); apply Hfile.
  - intros p Hp. transitivity (files w1 !! p); [by destruct (n =? 0)|].
    by rewrite (Hframe p Hp).
Qed.

Lemma X14_pullOCI_witness :
  ∃ w', Oci.pullOCI sampleRegistry "ghcr.io/octokode/policies:v1" (destDirFor "v1")
          (quietWorld ∅ {[ "/tmp"; "/tmp/image-v1" ]} ∅) = (None, w')
        ∧ files w' !! "/tmp/image-v1/policy-0.yaml" = Some "kind: ClusterPolicy"
        ∧ files w' !! "/tmp/image-v1/layer-1.yaml" = None.
Proof.
  assert (∃ w', Oci.pullOCI sampleRegistry "ghcr.io/octokode/policies:v1" (destDirFor "v1")
                  (quietWorld ∅ {[ "/tmp"; "/tmp/image-v1" ]} ∅) = (None, w')) as [w' Hpull]
    by (eexists; vm_compute; reflexivity).
  exists w'. split; [exact Hpull|].
  destruct (X14_pullOCI_saves_layers sampleRegistry "ghcr.io/octokode/policies:v1" "v1"
              "ghcr.io/octokode/policies:v1" sampleLayers _ w' eq_refl Hpull)
    as [Hsaved Hframe].
  split.
  - destruct (Hsaved 0%nat _ eq_refl) as (mediaType & blob & [= <-] & [= <-] & _ & Hfile).
    by apply Hfile.
  - rewrite Hframe; [done|].
    intros [|[|k]] layer mediaType blob [= <-] [= <-] [= <-]; simpl; [|done].
    intros _. by vm_compute.
Defined.

End OciTransport.

(** ** The configuration *)

Section Configuration.

Lemma keepPrintable_printable s a :
  printable a = false → noByte a (keepPrintable s) = true.
Proof.
  intros Ha. induction s as [|b s IH]; simpl; [done|].
  destruct (printable b) eqn:Hb; [|done]. simpl. rewrite IH, andb_true_r.
  apply negb_true_iff, Ascii.eqb_neq. congruence.
Qed.

Lemma ReplaceAllWith_noByte s old new :
  noByte old new = true → noByte old (ReplaceAllWith s old new) = true.
Proof.
  intros Hnew. induction s as [|a s IH]; simpl; [done|].
  rewrite noByte_app, IH, andb_true_r.
  destruct (Ascii.eqb a old) eqn:Ha; [done|]. simpl. by rewrite Ha.
Qed.

Lemma getEnvOrDefault_nonempty getEnvFunc key defaultValue :
  defaultValue ≠ "" → getEnvOrDefault getEnvFunc key defaultValue ≠ "".
Proof.
  intros Hd. unfold getEnvOrDefault.
  by destruct (String.eqb_spec (getEnvFunc key) "").
Qed.

(** When the state directory can be made. *)
Lemma MkdirAll_stateDir w :
  (∃ w', MkdirAll stateDirBase w = (None, w'))
  ↔ ("/tmp/kyverno-watcher" ∈ dirs w
     ∨ (files w !! "/tmp/kyverno-watcher" = None ∧ ("/tmp/kyverno-watcher" ∉ locked w)
        ∧ ("/tmp" ∈ dirs w ∨ (files w !! "/tmp" = None ∧ ("/tmp" ∉ locked w))))).
Proof.
  unfold MkdirAll, stateDirBase.
  change (String.length "/tmp/kyverno-watcher") with (S (S 18)).
  rewrite mkdirAll_S.
  change (default "" (parentOf "/tmp/kyverno-watcher")) with "/tmp".
  change (String.eqb "/tmp" "") with false. cbv iota.
  rewrite mkdirAll_S.
  change (default "" (parentOf "/tmp")) with "".
  change (String.eqb "" "") with true. cbv iota.
  unfold Mkdir, exists_at, parentMissing.
  change (default "" (parentOf "/tmp/kyverno-watcher")) with "/tmp".
  change (default "" (parentOf "/tmp")) with "".
  change (String.eqb "/tmp" "") with false.
  change (String.eqb "" "") with true. cbn [negb andb].
  case_bool_decide as Hdir; [split; [by left|by eexists]|].
  destruct (files w !! "/tmp/kyverno-watcher") as [data|] eqn:Hfile.
  { rewrite bool_decide_eq_true_2 by (by eexists).
    split; [by intros [? ?]|]. by intros [?|[? _]]. }
  rewrite bool_decide_eq_false_2 by (by intros [? ?]).
  case_bool_decide as Htmp.
  { cbn [orb]. rewrite Hfile. rewrite (bool_decide_eq_false_2 _ Hdir).
    rewrite (bool_decide_eq_false_2 (is_Some None)) by (by intros [? ?]). cbn [orb].
    rewrite (bool_decide_eq_true_2 _ Htmp). cbn [negb].
    case_bool_decide as Hlocked.
    - split; [by intros [? ?]|]. by intros [?|(_ & ? & _)].
    - split; [|by eexists]. intros _. right. split; [done|]. split; [done|]. by left. }
  destruct (files w !! "/tmp") as [tmpdata|] eqn:Htmpfile.
  { rewrite bool_decide_eq_true_2 by (by eexists).
    split; [by intros [? ?]|]. by intros [?|(_ & _ & [?|[? _]])]. }
  rewrite (bool_decide_eq_false_2 (is_Some None)) by (by intros [? ?]). cbn [orb].
  case_bool_decide as Htmplocked.
  { split; [by intros [? ?]|]. by intros [?|(_ & _ & [?|[_ ?]])]. }
  cbn [withFS files dirs locked]. rewrite Hfile.
  rewrite (bool_decide_eq_false_2 (is_Some None)) by (by intros [? ?]). cbn [orb].
  rewrite (bool_decide_eq_false_2 ("/tmp/kyverno-watcher" ∈ {["/tmp"]} ∪ dirs w))
    by (intros [?%elem_of_singleton|?]%elem_of_union; done).
  rewrite (bool_decide_eq_true_2 ("/tmp" ∈ {["/tmp"]} ∪ dirs w))
    by (apply elem_of_union_l; by apply elem_of_singleton).
  cbn [negb].
  case_bool_decide as Hlocked.
  - split; [by intros [? ?]|]. by intros [?|(_ & ? & _)].
  - split; [|by eexists]. intros _. right. split; [done|]. split; [done|]. by right.
Qed.

Lemma loadCredentials_locked provider imageBase getEnvFunc w res w' :
  loadCredentials provider imageBase getEnvFunc w = (res, w') → locked w' = locked w.
Proof.
  unfold loadCredentials.
  repeat match goal with
         | |- context [if ?b then _ else _] => destruct b
         | |- context [match ?p with (_, _) => _ end] => destruct p as [[? ?] [?|]]
         end; by intros [= _ <-].
Qed.

(** What [loadCredentials] has set when it does not end the process. *)
Lemma loadCredentials_valid provider imageBase getEnvFunc w cred w' :
  loadCredentials provider imageBase getEnvFunc w = (inr cred, w') →
  files w' = files w ∧ dirs w' = dirs w
  ∧ ((provider = "github"
      ∧ credToken cred = keepPrintable (TrimSpace (getEnvFunc "GITHUB_TOKEN"))
      ∧ credToken cred ≠ ""
      ∧ parseImageBase imageBase = (credOwner cred, credPackage cred, None)
      ∧ credUsername cred = "" ∧ credPassword cred = "")
     ∨ (provider = "artifactory"
        ∧ credUsername cred = TrimSpace (getEnvFunc "ARTIFACTORY_USERNAME")
        ∧ credPassword cred = TrimSpace (getEnvFunc "ARTIFACTORY_PASSWORD")
        ∧ credUsername cred ≠ "" ∧ credPassword cred ≠ ""
        ∧ credToken cred = "" ∧ credOwner cred = "" ∧ credPackage cred = "")).
Proof.
  unfold loadCredentials.
  destruct (String.eqb_spec provider "github") as [->|_].
  - destruct (String.eqb (TrimSpace (getEnvFunc "GITHUB_TOKEN")) ""); [done|].
    destruct (String.eqb_spec (keepPrintable (TrimSpace (getEnvFunc "GITHUB_TOKEN"))) "")
      as [|Htoken]; [done|].
    destruct (parseImageBase imageBase) as [[owner package] [e|]] eqn:Hparse; [done|].
    intros [= <- <-]. simpl. split; [done|]. split; [done|]. left. by repeat split.
  - destruct (String.eqb_spec provider "artifactory") as [->|_]; [|done].
    destruct (String.eqb_spec (TrimSpace (getEnvFunc "ARTIFACTORY_USERNAME")) "") as [|Hu];
      [done|].
    destruct (String.eqb_spec (TrimSpace (getEnvFunc "ARTIFACTORY_PASSWORD")) "") as [|Hp];
      [done|].
    simpl. intros [= <- <-]. simpl. split; [done|]. split; [done|]. right. by repeat split.
Qed.

(** X15. A configuration that [loadConfig] returns is complete for its
    provider. It carries IMAGE_BASE as given and not empty, the state
    directory /tmp/kyverno-watcher, which now exists, and the marker path
    /tmp/kyverno-watcher/last_seen; no file has changed. For github the
    token is not empty and holds only bytes from 32 to 126 (so no line
    break), owner and package are those that [parseImageBase] finds, and
    the normalized package has no slash. For artifactory the user name and
    the password are not empty. No other provider is returned. *)
Theorem X15_loadConfig_valid (toLower : string → string) (getEnvFunc : string → string)
    (w w' : World) (config : Config) :
  loadConfig toLower getEnvFunc w = (Ready config, w') →
  ImageBase config = getEnvFunc "IMAGE_BASE" ∧ ImageBase config ≠ ""
  ∧ StateDir config = "/tmp/kyverno-watcher"
  ∧ LastFile config = "/tmp/kyverno-watcher/last_seen"
  ∧ StateDir config ∈ dirs w' ∧ files w' = files w
  ∧ PollInterval config = loadPollInterval getEnvFunc
  ∧ GithubAPIOwnerType config ≠ ""
  ∧ ((Provider config = "github"
      ∧ GithubToken config ≠ ""
      ∧ (∀ a, printable a = false → noByte a (GithubToken config) = true)
      ∧ parseImageBase (ImageBase config) = (Owner config, Package config, None)
      ∧ noByte "/" (PackageNormalized config) = true
      ∧ Username config = "" ∧ Password config = "")
     ∨ (Provider config = "artifactory"
        ∧ Username config ≠ "" ∧ Password config ≠ ""
        ∧ GithubToken config = "" ∧ Owner config = "" ∧ Package config = ""
        ∧ PackageNormalized config = "")).
Proof.
  unfold loadConfig.
  destruct (String.eqb_spec (getEnvFunc "IMAGE_BASE") "") as [|Himage]; [done|].
  destruct (loadCredentials _ _ getEnvFunc w) as [[msg|cred] w1] eqn:Hcred; [done|].
  apply loadCredentials_valid in Hcred as (Hf1 & Hd1 & Hprov).
  destruct (MkdirAll stateDirBase w1) as [[e|] w2] eqn:Hmk; [done|].
  destruct (MkdirAll_effect _ _ _ _ Hmk) as ((Hf2 & _) & _ & Hd2).
  intros [= <- <-]. simpl.
  split; [done|]. split; [done|]. split; [done|]. split; [done|].
  split; [by apply Hd2|].
  split; [congruence|]. split; [done|].
  split; [by apply getEnvOrDefault_nonempty|].
  destruct Hprov as [(Hp & Htoken & Hne & Hparse & Hu & Hpw)
                    |(Hp & Hu & Hpw & Hune & Hpne & Ht & Ho & Hpk)].
  - left. repeat split; try done.
    + intros a Ha. rewrite Htoken. by apply keepPrintable_printable.
    + by apply ReplaceAllWith_noByte.
  - right. rewrite Hpk. by repeat split.
Qed.

Lemma X15_loadConfig_witness :
  ∃ config w',
    loadConfig ToLower (envOf [("IMAGE_BASE", "ghcr.io/octokode/policies/base:v1");
                               ("GITHUB_TOKEN", " ghp_x ")])
      (quietWorld ∅ {[ "/tmp" ]} ∅) = (Ready config, w')
    ∧ Provider config = "github" ∧ GithubToken config = "ghp_x"
    ∧ Owner config = "octokode" ∧ Package config = "policies/base"
    ∧ PackageNormalized config = "policies%2Fbase"
    ∧ LastFile config = "/tmp/kyverno-watcher/last_seen".
Proof.
  assert (∃ config w',
            loadConfig ToLower (envOf [("IMAGE_BASE", "ghcr.io/octokode/policies/base:v1");
                                       ("GITHUB_TOKEN", " ghp_x ")])
              (quietWorld ∅ {[ "/tmp" ]} ∅) = (Ready config, w')
            ∧ Provider config = "github" ∧ GithubToken config = "ghp_x"
            ∧ Owner config = "octokode" ∧ Package config = "policies/base"
            ∧ PackageNormalized config = "policies%2Fbase") as (config & w' & Hload & Hrest)
    by (do 2 eexists; vm_compute; repeat split; reflexivity).
  exists config, w'. split; [exact Hload|].
  destruct Hrest as (? & ? & ? & ? & ?). repeat split; try done.
  exact (proj1 (proj2 (proj2 (proj2 (X15_loadConfig_valid ToLower _ _ w' config Hload))))).
Defined.

(** X16. [loadConfig] returns a configuration exactly when IMAGE_BASE is
    set, the state directory can be made, and either the provider is
    github, the token keeps a printable byte after trimming and
    [parseImageBase] accepts IMAGE_BASE, or the provider is artifactory and
    user name and password are not blank. The state directory can be made
    when it is a directory already, or when no regular file is at its path,
    the system does not refuse to create it, and /tmp is a directory or can
    be created in the same way. Nothing else is checked: not the tag of an
    artifactory reference, and not POLL_INTERVAL. *)
Theorem X16_loadConfig_succeeds_iff (toLower : string → string)
    (getEnvFunc : string → string) (w : World) :
  let provider := toLower (getEnvOrDefault getEnvFunc "PROVIDER" "github") in
  (∃ config w', loadConfig toLower getEnvFunc w = (Ready config, w'))
  ↔ getEnvFunc "IMAGE_BASE" ≠ ""
    ∧ ("/tmp/kyverno-watcher" ∈ dirs w
       ∨ (files w !! "/tmp/kyverno-watcher" = None
          ∧ ("/tmp/kyverno-watcher" ∉ locked w)
          ∧ ("/tmp" ∈ dirs w ∨ (files w !! "/tmp" = None ∧ ("/tmp" ∉ locked w)))))
    ∧ ((provider = "github"
        ∧ keepPrintable (TrimSpace (getEnvFunc "GITHUB_TOKEN")) ≠ ""
        ∧ (parseImageBase (getEnvFunc "IMAGE_BASE")).2 = None)
       ∨ (provider = "artifactory"
          ∧ TrimSpace (getEnvFunc "ARTIFACTORY_USERNAME") ≠ ""
          ∧ TrimSpace (getEnvFunc "ARTIFACTORY_PASSWORD") ≠ "")).
Proof.
  simpl. unfold loadConfig. split.
  - intros (config & w' & Hload). revert Hload.
    destruct (String.eqb_spec (getEnvFunc "IMAGE_BASE") "") as [|Himage]; [done|].
    destruct (loadCredentials _ _ getEnvFunc w) as [[msg|cred] w1] eqn:Hcred; [done|].
    pose proof (loadCredentials_locked _ _ _ _ _ _ Hcred) as Hl1.
    apply loadCredentials_valid in Hcred as (Hf1 & Hd1 & Hprov).
    destruct (MkdirAll stateDirBase w1) as [[e|] w2] eqn:Hmk; [done|].
    assert (∃ w', MkdirAll stateDirBase w1 = (None, w')) as Hready by (by eexists).
    apply MkdirAll_stateDir in Hready. rewrite Hf1, Hd1, Hl1 in Hready. intros _.
    split; [done|]. split; [exact Hready|].
    destruct Hprov as [(Hp & Htoken & Hne & Hparse & _)|(Hp & Hu & Hpw & Hune & Hpne & _)].
    + left. rewrite Hparse. split; [done|]. split; [congruence|done].
    + right. split; [done|]. split; congruence.
  - intros (Himage & Hstate & Hprov).
    apply String.eqb_neq in Himage as ->.
    assert (∀ w1, files w1 = files w → dirs w1 = dirs w → locked w1 = locked w →
              ∃ w2, MkdirAll stateDirBase w1 = (None, w2)) as Hmk.
    { intros w1 Hf Hd Hl. apply MkdirAll_stateDir. by rewrite Hf, Hd, Hl. }
    unfold loadCredentials.
    destruct Hprov as [(-> & Htoken & Hparse)|(-> & Hu & Hpw)]; simpl.
    + destruct (String.eqb_spec (TrimSpace (getEnvFunc "GITHUB_TOKEN")) "") as [Hblank|_];
        [by rewrite Hblank in Htoken|].
      apply String.eqb_neq in Htoken as ->.
      destruct (parseImageBase (getEnvFunc "IMAGE_BASE")) as [[owner package] err].
      simpl in Hparse. subst err.
      match goal with |- context [MkdirAll stateDirBase ?w1] =>
        destruct (Hmk w1 eq_refl eq_refl eq_refl) as [w2 ->] end.
      by do 2 eexists.
    + apply String.eqb_neq in Hu as ->. apply String.eqb_neq in Hpw as ->. simpl.
      match goal with |- context [MkdirAll stateDirBase ?w1] =>
        destruct (Hmk w1 eq_refl eq_refl eq_refl) as [w2 ->] end.
      by do 2 eexists.
Qed.

(** With a regular file at /tmp the state directory cannot be made, and
    [loadConfig] ends the process. *)
Example loadConfig_tmp_is_a_file :
  (loadConfig ToLower (envOf [("IMAGE_BASE", "ghcr.io/octokode/policies/base:v1");
                              ("GITHUB_TOKEN", "ghp_x")])
     (quietWorld {[ "/tmp" := "" ]} ∅ ∅)).1
  = Fatal "Failed to create state directory: mkdir /tmp: not a directory".
Proof. vm_compute. reflexivity. Qed.

Lemma Split_piece piece sep rest :
  noByte sep piece = true → Split (piece +:+ String sep rest) sep = piece :: Split rest sep.
Proof. intros Hno. by rewrite Split_app_sep, (Split_noByte _ _ Hno). Qed.

(** X17. For a github configuration that [loadConfig] returns, the address
    that [getLatestTagOrDigest] asks has the path
    /<owner type>/<owner>/packages/container/<package>/versions with the
    package in one piece, however many slashes the package name has,
    provided the owner type has no slash. *)
Theorem X17_apiURL_route (toLower : string → string) (getEnvFunc : string → string)
    (w w' : World) (config : Config) :
  loadConfig toLower getEnvFunc w = (Ready config, w') →
  Provider config = "github" →
  noByte "/" (GithubAPIOwnerType config) = true →
  Split (apiURL config) "/"
  = ["https:"; ""; "api.github.com"; GithubAPIOwnerType config; Owner config;
     "packages"; "container"; PackageNormalized config; "versions"]
  ∧ PackageNormalized config = ReplaceAllWith (Package config) "/" "%2F".
Proof.
  intros Hload Hgithub Htype.
  assert (noByte "/" (Owner config) = true ∧ noByte "/" (PackageNormalized config) = true
          ∧ PackageNormalized config = ReplaceAllWith (Package config) "/" "%2F")
    as (Howner & Hpackage & Hnorm).
  { revert Hload. unfold loadConfig.
    destruct (String.eqb (getEnvFunc "IMAGE_BASE") ""); [done|].
    destruct (loadCredentials _ _ getEnvFunc w) as [[msg|cred] w1] eqn:Hcred; [done|].
    apply loadCredentials_valid in Hcred as (_ & _ & Hprov).
    destruct (MkdirAll stateDirBase w1) as [[e|] w2]; [done|].
    intros [= <- <-]. simpl in *. split; [|split; [by apply ReplaceAllWith_noByte|done]].
    destruct Hprov as [(_ & _ & _ & Hparse & _)|(_ & _ & _ & _ & _ & _ & -> & _)]; [|done].
    by apply parseImageBase_shape in Hparse as (host & _ & _ & Ho & _). }
  split; [|done]. unfold apiURL.
  change ("https://api.github.com/" +:+ GithubAPIOwnerType config +:+ "/" +:+ Owner config
          +:+ "/packages/container/" +:+ PackageNormalized config +:+ "/versions")
    with ("https:" +:+ String "/" ("" +:+ String "/" ("api.github.com" +:+ String "/"
           (GithubAPIOwnerType config +:+ String "/" (Owner config +:+ String "/"
             ("packages" +:+ String "/" ("container" +:+ String "/"
               (PackageNormalized config +:+ String "/" "versions")))))))).
  by rewrite !Split_piece.
Qed.

Lemma X17_apiURL_witness :
  ∃ config w',
    loadConfig ToLower (envOf [("IMAGE_BASE", "ghcr.io/octokode/policies/base:v1");
                               ("GITHUB_TOKEN", " ghp_x ")])
      (quietWorld ∅ {[ "/tmp" ]} ∅) = (Ready config, w')
    ∧ Split (apiURL config) "/"
      = ["https:"; ""; "api.github.com"; "users"; "octokode";
         "packages"; "container"; "policies%2Fbase"; "versions"].
Proof.
  assert (∃ config w',
            loadConfig ToLower (envOf [("IMAGE_BASE", "ghcr.io/octokode/policies/base:v1");
                                       ("GITHUB_TOKEN", " ghp_x ")])
              (quietWorld ∅ {[ "/tmp" ]} ∅) = (Ready config, w')
            ∧ Provider config = "github"
            ∧ noByte "/" (GithubAPIOwnerType config) = true
            ∧ [GithubAPIOwnerType config; Owner config; PackageNormalized config]
              = ["users"; "octokode"; "policies%2Fbase"])
    as (config & w' & Hload & Hgithub & Htype & Hfields)
    by (do 2 eexists; vm_compute; repeat split; reflexivity).
  exists config, w'. split; [exact Hload|].
  destruct (X17_apiURL_route ToLower _ _ w' config Hload Hgithub Htype) as [-> _].
  injection Hfields as -> -> ->. reflexivity.
Defined.

End Configuration.

(** ** The loop of [main] *)

Section MainLoop.

Lemma resolveVersion_static config w w' :
  Provider config ≠ "github" → resolveVersion config w = resolveVersion config w'.
Proof. intros Hprov. unfold resolveVersion. by apply String.eqb_neq in Hprov as ->. Qed.

Lemma mainLoop_no_change hooks config latest :
  Provider config ≠ "github" →
  (∀ w, resolveVersion config w = Resolved latest) →
  ∀ n w, readPrevTag config w = latest →
    trace (mainLoop n hooks config w)
    = trace w ++ replicate n (EvLog ("No change (latest=" +:+ latest +:+ ")"))
    ∧ sameFS (mainLoop n hooks config w) w.
Proof.
  intros Hprov Hres. induction n as [|n IH]; intros w Hprev; simpl.
  - rewrite app_nil_r. split; [done|apply sameFS_refl].
  - unfold watchLoop. rewrite Hres, (reconcile_same hooks config latest w (eq_sym Hprev)).
    unfold noChange.
    destruct (IH (logf ("No change (latest=" +:+ latest +:+ ")") w)) as [Ht Hfs]; [done|].
    rewrite Ht. simpl. rewrite <- app_assoc. split; [done|].
    eapply sameFS_trans; [exact Hfs|apply sameFS_emit].
Qed.

(** X18. In direct-reference mode, once a round has ended without error
    for a version that neither starts nor ends with white space, every
    later round only logs that there is no change: the artifact is not
    pulled again, nothing is applied again, and the file system stays as
    that round left it. *)
Theorem X18_direct_mode_settles (hooks : Hooks) (config : Config) (latest : string)
    (w w1 : World) :
  Provider config ≠ "github" →
  resolveVersion config w = Resolved latest →
  TrimSpace latest = latest →
  watchLoop hooks config w = (None, w1) →
  ∀ n, trace (mainLoop n hooks config w1)
       = trace w1 ++ replicate n (EvLog ("No change (latest=" +:+ latest +:+ ")"))
       ∧ sameFS (mainLoop n hooks config w1) w1.
Proof.
  intros Hprov Hres Htrim Hround n.
  unfold watchLoop in Hround. rewrite Hres in Hround.
  apply (mainLoop_no_change hooks config latest Hprov).
  - intros w2. by rewrite <- (resolveVersion_static config w w2 Hprov).
  - by eapply reconcile_success_marker.
Qed.

Lemma X18_direct_mode_witness :
  ∃ w1, watchLoop idleHooks (artifactoryConfig "registry/path:v2") (markerWorld (Some "v1"))
        = (None, w1)
        ∧ ∀ n, trace (mainLoop n idleHooks (artifactoryConfig "registry/path:v2") w1)
               = trace w1 ++ replicate n (EvLog "No change (latest=v2)")
               ∧ sameFS (mainLoop n idleHooks (artifactoryConfig "registry/path:v2") w1) w1.
Proof.
  assert (∃ w1, watchLoop idleHooks (artifactoryConfig "registry/path:v2")
                  (markerWorld (Some "v1")) = (None, w1)) as [w1 Hround]
    by (eexists; vm_compute; reflexivity).
  exists w1. split; [exact Hround|].
  apply (X18_direct_mode_settles idleHooks (artifactoryConfig "registry/path:v2") "v2"
           (markerWorld (Some "v1")) w1); [done|reflexivity|reflexivity|exact Hround].
Defined.

(** X19. In direct-reference mode with a reference that has no colon,
    every round of the loop of [main] ends with the same configuration
    error, which [main] logs before it goes on: nothing is pulled, applied
    or written, however many rounds pass. *)
Theorem X19_untagged_reference_never_pulls (hooks : Hooks) (config : Config) :
  Provider config ≠ "github" →
  noByte ":" (ImageBase config) = true →
  ∀ n w,
    trace (mainLoop n hooks config w)
    = trace w ++ replicate n (EvLog "Error in watch loop: IMAGE_BASE for artifactory must include a tag (e.g., registry/path:tag)")
    ∧ sameFS (mainLoop n hooks config w) w.
Proof.
  intros Hprov Hno. induction n as [|n IH]; intros w; simpl.
  - rewrite app_nil_r. split; [done|apply sameFS_refl].
  - unfold watchLoop, resolveVersion. apply String.eqb_neq in Hprov as Hp. rewrite Hp.
    rewrite (Split_noByte _ _ Hno). simpl.
    match goal with |- context [mainLoop n hooks config ?w0] =>
      destruct (IH w0) as [Ht Hfs] end.
    rewrite Ht. simpl. rewrite <- app_assoc. split; [done|].
    eapply sameFS_trans; [exact Hfs|apply sameFS_emit].
Qed.

Lemma X19_untagged_reference_witness :
  trace (mainLoop 3 idleHooks (artifactoryConfig "registry/path") (markerWorld None))
  = trace (markerWorld None)
    ++ replicate 3 (EvLog "Error in watch loop: IMAGE_BASE for artifactory must include a tag (e.g., registry/path:tag)")
  ∧ sameFS (mainLoop 3 idleHooks (artifactoryConfig "registry/path") (markerWorld None))
           (markerWorld None).
Proof.
  apply (X19_untagged_reference_never_pulls idleHooks (artifactoryConfig "registry/path"));
    [done|reflexivity].
Defined.

End MainLoop.

(** ** More on the annotator *)

Section Relabel.

Local Arguments decodeStringMap : simpl never.
Local Arguments isEmptyMap : simpl never.
Local Arguments decodeMetadata : simpl never.
Local Arguments encodeMetadata : simpl never.

Lemma encode_setLabels_again mf tag1 tag2 :
  encodeManifest (setLabels (reread (setLabels mf tag1)) tag2)
  = encodeManifest (setLabels mf tag2).
Proof.
  unfold encodeManifest. f_equal.
  assert (setLabels (reread (setLabels mf tag1)) tag2
          = {| APIVersion := APIVersion mf; Kind := Kind mf;
               Metadata := Metadata (setLabels mf tag2);
               Spec := Spec (reread mf) |}) as ->.
  { unfold setLabels at 1. fold (labelsOf (reread (setLabels mf tag1))).
    rewrite labelsOf_annotated. unfold setLabels. simpl. fold (labelsOf mf).
    do 3 f_equal. apply map_eq. intros k.
    rewrite !lookup_insert. by repeat case_decide. }
  cbn [APIVersion Kind Metadata Spec setLabels]. rewrite isEmptyMap_reread_spec.
  fold (specOf (reread mf)). fold (specOf mf). by rewrite specOf_reread.
Qed.

(** X21. Annotating an annotated document with another version gives what
    annotating the first document with that version gives: of two versions
    the later one stays, and nothing of the earlier annotation is left. *)
Theorem X21_annotate_last_version_wins (doc : value) (tag1 tag2 : string) (mf : Manifest) :
  decodeManifest doc = Some mf →
  ∃ out1, annotate doc tag1 = Some out1 ∧ annotate out1 tag2 = annotate doc tag2.
Proof.
  intros Hdec. destruct (annotate_decoded doc tag1 mf Hdec) as [Hann1 Hre].
  destruct (annotate_decoded doc tag2 mf Hdec) as [Hann2 _].
  exists (encodeManifest (setLabels mf tag1)). split; [done|].
  rewrite Hann2. unfold annotate. rewrite Hre. simpl. by rewrite encode_setLabels_again.
Qed.

Lemma X21_annotate_witness :
  ∃ out1, annotate labelledDoc "v1" = Some out1
          ∧ annotate out1 "v2" = annotate labelledDoc "v2".
Proof.
  assert (∃ mf, decodeManifest labelledDoc = Some mf) as [mf Hdec]
    by (eexists; vm_compute; reflexivity).
  exact (X21_annotate_last_version_wins labelledDoc "v1" "v2" mf Hdec).
Defined.

Lemma foldl_bind_fails {A B} (g : B → A → option A) (l : list B) (x : B) :
  x ∈ l → (∀ s, g x s = None) → ∀ acc, foldl (fun acc kv => s ← acc; g kv s) acc l = None.
Proof.
  intros Hin Hfail. induction l as [|y l IH]; intros acc; [by apply elem_of_nil in Hin|].
  simpl. apply elem_of_cons in Hin as [<-|Hin]; [|by apply IH].
  destruct acc as [s|]; simpl; [rewrite Hfail|]; apply foldl_bind_None.
Qed.

(** A member whose field cannot take its value fails the decoding of the
    whole object. *)
Lemma decodeStruct_fails {S F} (tags : list (string * F)) (store : F → value → S → option S)
    (m : gmap string value) (k : string) (v : value) (f : F) (s0 : S) :
  m !! k = Some v → fieldFor tags k = Some f → (∀ s, store f v s = None) →
  decodeStruct tags store m s0 = None.
Proof.
  intros Hk Hf Hfail. unfold decodeStruct.
  apply (foldl_bind_fails
           (fun kv s => match fieldFor tags kv.1 with
                        | Some f => store f kv.2 s
                        | None => Some s
                        end) _ (k, v)).
  - unfold membersInOrder. rewrite sortBy_perm. by apply elem_of_map_to_list.
  - intros s. simpl. by rewrite Hf.
Qed.

(** X22. A document whose [metadata.labels] holds a value that reaches the
    decoder as something other than a string or null is rejected as a
    whole: [addLabelsToYAML] returns the error and no labelled text. *)
Theorem X22_label_value_must_be_string (codec : YAMLCodec) (yamlData tag : string)
    (m mm lm : gmap string value) (k : string) (v : value) :
  yamlToJSON codec yamlData = Some (VObj m) →
  m !! "metadata" = Some (VObj mm) →
  mm !! "labels" = Some (VObj lm) →
  lm !! k = Some v →
  match v with VStr _ | VNull => False | _ => True end →
  annotate (VObj m) tag = None
  ∧ ∃ err, addLabelsToYAML codec yamlData tag = ("", Some err).
Proof.
  intros Hparse Hmeta Hlabels Hk Hv.
  assert (annotate (VObj m) tag = None) as Hann.
  { unfold annotate.
    assert (decodeManifest (VObj m) = None) as ->; [|done].
    apply (decodeStruct_fails _ _ m "metadata" (VObj mm) FMetadata); [done..|].
    intros s. simpl.
    assert (decodeMetadata (VObj mm) (Metadata s) = None) as ->; [|done].
    apply (decodeStruct_fails _ _ mm "labels" (VObj lm) FLabels); [done..|].
    intros md. simpl.
    assert (decodeStringMap (VObj lm) (Labels md) = None) as ->; [|done].
    unfold decodeStringMap. rewrite bool_decide_eq_false_2; [done|].
    intros Hall. specialize (Hall k v Hk). simpl in Hall.
    destruct v; try done; by destruct Hall. }
  split; [done|]. unfold addLabelsToYAML. rewrite Hparse. simpl. rewrite Hann. by eexists.
Qed.

Lemma X22_label_value_witness :
  annotate listLabelDoc "v1" = None
  ∧ ∃ err, addLabelsToYAML (constCodec listLabelDoc) "kind: ConfigMap" "v1" = ("", Some err).
Proof.
  apply (X22_label_value_must_be_string (constCodec listLabelDoc) "kind: ConfigMap" "v1"
           _ {[ "name" := VStr "cm"; "labels" := VObj {[ "tier" := VArr [VStr "a"] ]} ]}
           {[ "tier" := VArr [VStr "a"] ]} "tier" (VArr [VStr "a"]));
    [reflexivity|by vm_compute|by vm_compute|by vm_compute|exact I].
Defined.

End Relabel.

(** ** The identifier of a version without tags *)

Section Fallback.

Ltac space_to_N :=
  unfold isSpace1, isSpace2, isSpace3, isDigit in *; cbv zeta in *;
  repeat (progress (rewrite ?orb_true_iff, ?andb_true_iff, ?orb_false_iff, ?andb_false_iff,
                      ?N.eqb_eq, ?N.eqb_neq, ?N.leb_le, ?N.leb_gt in * )).

Lemma digit_not_space1 d : isDigit d = true → isSpace1 d = false.
Proof. intros H. space_to_N. lia. Qed.

Lemma digit_not_space2 b d : isDigit d = true → isSpace2 b d = false.
Proof. intros H. space_to_N. lia. Qed.

Lemma digit_not_space3 c b d : isDigit d = true → isSpace3 c b d = false.
Proof. intros H. space_to_N. lia. Qed.

Lemma trimLeftSpaceRev_digit d r :
  isDigit d = true → trimLeftSpaceRev (String d r) = String d r.
Proof.
  intros Hd. simpl. rewrite (digit_not_space1 d Hd).
  destruct r as [|b r]; [done|]. rewrite (digit_not_space2 b d Hd).
  destruct r as [|c r]; [done|]. by rewrite (digit_not_space3 c b d Hd).
Qed.

Lemma uint_nil_or (u : Decimal.uint) : u = Decimal.Nil ∨ u ≠ Decimal.Nil.
Proof. destruct u; auto. Qed.

Lemma uint_last_digit (u : Decimal.uint) :
  u ≠ Decimal.Nil →
  ∃ s d, NilEmpty.string_of_uint u = s +:+ String d "" ∧ isDigit d = true.
Proof.
  induction u as [|u IH|u IH|u IH|u IH|u IH|u IH|u IH|u IH|u IH|u IH]; [done|..]; intros _;
    (destruct (uint_nil_or u) as [->|Hne];
     [by eexists "", _
     |destruct (IH Hne) as (s & d & Hs & Hd); simpl; rewrite Hs;
      by eexists (String _ s), d]).
Qed.

Lemma formatInt_last_digit (n : Z) :
  ∃ s d, formatInt n = s +:+ String d "" ∧ isDigit d = true.
Proof.
  unfold formatInt, NilZero.string_of_int, NilZero.string_of_uint.
  destruct (Z.to_int n) as [u|u].
  - destruct (uint_nil_or u) as [->|Hne]; [by exists "", "0"%char|].
    destruct (uint_last_digit u Hne) as (s & d & Hs & Hd).
    exists s, d. split; [|done]. by destruct u.
  - destruct (uint_nil_or u) as [->|Hne]; [by exists "-", "0"%char|].
    destruct (uint_last_digit u Hne) as (s & d & Hs & Hd).
    exists (String "-" s), d. split; [|done]. rewrite app_cons, <- Hs. by destruct u.
Qed.

Lemma uint_noColon (u : Decimal.uint) : noByte ":" (NilEmpty.string_of_uint u) = true.
Proof. induction u; simpl; auto. Qed.

Lemma formatInt_noColon (n : Z) : noByte ":" (formatInt n) = true.
Proof.
  unfold formatInt, NilZero.string_of_int, NilZero.string_of_uint.
  destruct (Z.to_int n) as [u|u]; destruct u; simpl; auto using uint_noColon.
Qed.

(** X20. When the most recently updated version has no tag, the resolver
    returns [version-id-<ID>]. That identifier has no white space at
    either end, no colon and no slash: the marker comparison and the
    directory name use it as it is. *)
Theorem X20_fallback_identifier_kept (v0 : GitHubPackageVersion)
    (rest : list GitHubPackageVersion) :
  Tags (mostRecent v0 (v0 :: rest)) = [] →
  let latest := latestOf (v0 :: rest) in
  latest = "version-id-" +:+ formatInt (ID (mostRecent v0 (v0 :: rest)))
  ∧ TrimSpace latest = latest
  ∧ sanitizePath latest = latest
  ∧ destDirFor latest = "/tmp/image-" +:+ latest.
Proof.
  intros Htags. unfold latestOf. rewrite Htags.
  set (id := ID (mostRecent v0 (v0 :: rest))). cbv zeta.
  split; [done|]. split; [|split].
  - unfold TrimSpace.
    assert (trimLeftSpace ("version-id-" +:+ formatInt id) = "version-id-" +:+ formatInt id)
      as -> by done.
    unfold trimRightSpace.
    destruct (formatInt_last_digit id) as (s & d & -> & Hd).
    rewrite <- app_assoc_str, rev_app_distr.
    change (String.rev (String d "")) with (String d "").
    rewrite app_cons, app_empty_l, (trimLeftSpaceRev_digit _ _ Hd).
    change (String d (String.rev ("version-id-" +:+ s)))
      with (String.rev (String d "") +:+ String.rev ("version-id-" +:+ s)).
    by rewrite <- rev_app_distr, rev_involutive.
  - unfold sanitizePath.
    assert (noByte ":" ("version-id-" +:+ formatInt id) = true) as Hc
      by (rewrite noByte_app; simpl; apply formatInt_noColon).
    assert (noByte "/" ("version-id-" +:+ formatInt id) = true) as Hs
      by (rewrite noByte_app; simpl; apply formatInt_noSlash).
    rewrite (ReplaceAll_id _ ":" "_" Hc). by apply ReplaceAll_id.
  - unfold destDirFor, sanitizePath.
    assert (noByte ":" ("version-id-" +:+ formatInt id) = true) as Hc
      by (rewrite noByte_app; simpl; apply formatInt_noColon).
    assert (noByte "/" ("version-id-" +:+ formatInt id) = true) as Hs
      by (rewrite noByte_app; simpl; apply formatInt_noSlash).
    rewrite (ReplaceAll_id _ ":" "_" Hc). by rewrite (ReplaceAll_id _ "/" "_" Hs).
Qed.

Lemma X20_fallback_identifier_witness :
  latestOf [{| ID := 42; UpdatedAt := 7; Tags := [] |}] = "version-id-42"
  ∧ TrimSpace "version-id-42" = "version-id-42"
  ∧ sanitizePath "version-id-42" = "version-id-42"
  ∧ destDirFor "version-id-42" = "/tmp/image-version-id-42".
Proof.
  exact (X20_fallback_identifier_kept {| ID := 42; UpdatedAt := 7; Tags := [] |} [] eq_refl).
Defined.

End Fallback.

(** ** A whole round with the OCI transport *)

Section WholeRound.



Lemma destDirFor_child latest :
  destDirFor latest = "/tmp" +:+ "/" +:+ ("image-" +:+ sanitizePath latest).
Proof. reflexivity. Qed.
































End WholeRound.

(** ** The commands that a round runs *)

Section Commands.







End Commands.

(** ** When the OCI transport fails *)

Section OciFailure.





End OciFailure.
